(** * SM2 encryption, signature and identity hash of sm-crypto-v3

    A shallow embedding of [src/sm2/index.ts]: [doEncrypt], [doDecrypt],
    [xorCipherStream], [doSignature], [doVerifySignature], [getZ],
    [getHash], [getPublicKeyFromPrivateKey] and [getPoint], together with
    the helpers they call, and the properties the specification states
    about them.

    Conventions.
    - A [Uint8Array] is a [list byte]; a store into it goes through
      [toUint8], which writes out the wrap-around modulo 256.
    - A hexadecimal or otherwise ASCII JavaScript string is a [list ascii];
      [str "04"] is the literal.  Free text (messages, user identities) is
      a [Text], the UTF-16 code units of the string; its UTF-8 codec is a
      parameter of section [SM2].
    - A [bigint] is a [Z].
    - A call that may throw returns a [Result]. *)

From Stdlib Require Import ZArith String Ascii Bool Lia Znumtheory List.
From Stdlib Require Strings.Byte.
Import ListNotations.
Open Scope Z_scope.

Abbreviation byte := Byte.byte.

(** ** Results of calls that may throw *)

Inductive Error : Set :=
| SyntaxError      (* BigInt("0x..") on something that is not hexadecimal *)
| InvalidScalar    (* multiply: the scalar is not in [1, n-1] *)
| InvalidPoint     (* fromHex, fromAffine, toRawBytes: not a point of the curve *)
| InvalidKey       (* getPublicKey: not a private key *)
| InvertError      (* invert: zero, or no inverse *)
| DecodeError      (* ASN.1 decoding failed *)
| RangeError       (* String.fromCodePoint on a number above 0x10FFFF *)
| OutOfFuel.       (* the loop did not finish within the fuel of the model *)

Inductive Result (A : Type) : Type :=
| Ok (a : A)
| Throw (e : Error).
Arguments Ok {A} a.
Arguments Throw {A} e.

Definition bind {A B : Type} (m : Result A) (f : A -> Result B) : Result B :=
  match m with
  | Ok a => f a
  | Throw e => Throw e
  end.

Notation "x <- m ;; f" := (bind m (fun x => f))
  (at level 61, m at next level, right associativity).
Notation "' pat <- m ;; f" := (bind m (fun x => match x with pat => f end))
  (at level 61, pat pattern, m at next level, right associativity).

(** ** Strings *)

Definition str (s : string) : list ascii := list_ascii_of_string s.

(** [String.prototype.substring(start, end)]: both indices are clamped to
    [0, length] and swapped when [start > end]. *)
Definition clampIndex (len i : Z) : Z := Z.max 0 (Z.min i len).

Definition substring (s : list ascii) (start finish : Z) : list ascii :=
  let len := Z.of_nat (length s) in
  let a := clampIndex len start in
  let b := clampIndex len finish in
  let lo := Z.min a b in
  let hi := Z.max a b in
  firstn (Z.to_nat (hi - lo)) (skipn (Z.to_nat lo) s).

(** [substring(start)] with the end left out. *)
Definition substringFrom (s : list ascii) (start : Z) : list ascii :=
  substring s start (Z.of_nat (length s)).

Definition lowerChar (c : ascii) : ascii :=
  let n := N_of_ascii c in
  if ((65 <=? n) && (n <=? 90)
      || (192 <=? n) && (n <=? 222) && negb (n =? 215))%N
  then ascii_of_N (n + 32) else c.

(** [String.prototype.toLowerCase] on the characters a [list ascii] holds:
    the letters A to Z, and the capital letters of Latin-1. *)
Definition toLowerCase (s : list ascii) : list ascii := map lowerChar s.

Definition ascii_eqb_list (s t : list ascii) : bool :=
  if list_eq_dec ascii_dec s t then true else false.

(** ** Bytes *)

Definition byteToZ (b : byte) : Z := Z.of_N (Byte.to_N b).

(** The conversion applied by a store into a [Uint8Array]. *)
Definition toUint8 (z : Z) : byte :=
  match Byte.of_N (Z.to_N (z mod 256)) with
  | Some b => b
  | None => Byte.x00
  end.

(** ** Hexadecimal *)

Definition hexDigit (d : Z) : ascii :=
  if d <? 10 then ascii_of_N (Z.to_N (48 + d)) else ascii_of_N (Z.to_N (87 + d)).

Definition hexValue (c : ascii) : option Z :=
  let n := Z.of_N (N_of_ascii c) in
  if (48 <=? n) && (n <=? 57) then Some (n - 48)
  else if (97 <=? n) && (n <=? 102) then Some (n - 87)
  else if (65 <=? n) && (n <=? 70) then Some (n - 55)
  else None.

(** The [w] low hexadecimal digits of [z], most significant first. *)
Fixpoint hexFixed (w : nat) (z : Z) : list ascii :=
  match w with
  | O => []
  | S w' => hexFixed w' (z / 16) ++ [hexDigit (z mod 16)]
  end.

(** Number of hexadecimal digits of [BigInt.prototype.toString(16)]. *)
Definition hexWidth (z : Z) : nat := S (Z.to_nat (Z.log2 z / 4)).

(** [num.toString(16)] for a [bigint] that is not negative. *)
Definition toString16 (z : Z) : list ascii := hexFixed (hexWidth z) z.

(** Modelled from the spec: [leftPad] of [./utils], which is not among the
    sources; the spec has every fixed-width hexadecimal field "zero-padded"
    on the left.  A string already [num] long or longer is returned as it
    is. *)
Definition leftPad (input : list ascii) (num : nat) : list ascii :=
  if (num <=? length input)%nat then input
  else repeat "0"%char (num - length input) ++ input.

(** White space that [BigInt(string)] trims. *)
Definition isSpace (c : ascii) : bool :=
  let n := N_of_ascii c in
  ((9 <=? n) && (n <=? 13) || (n =? 32) || (n =? 160))%N.

Fixpoint trimEnd (s : list ascii) : list ascii :=
  match s with
  | [] => []
  | c :: s' =>
      match trimEnd s' with
      | [] => if isSpace c then [] else [c]
      | t => c :: t
      end
  end.

Fixpoint hexDigitsValue (acc : Z) (s : list ascii) : option Z :=
  match s with
  | [] => Some acc
  | c :: s' =>
      match hexValue c with
      | Some d => hexDigitsValue (16 * acc + d) s'
      | None => None
      end
  end.

(** Modelled from the spec: [bytesToHex] of [sm3/utils] and [arrayToHex] of
    [./utils], which are not among the sources: two lowercase hexadecimal
    digits per byte ("hex outputs are lowercase"). *)
Definition byteHex (b : byte) : list ascii :=
  [hexDigit (byteToZ b / 16); hexDigit (byteToZ b mod 16)].

Definition bytesToHex (bytes : list byte) : list ascii := flat_map byteHex bytes.

Definition arrayToHex (arr : list byte) : list ascii := flat_map byteHex arr.

(** [parseInt(pair, 16)] for a string of two characters, [None] for NaN:
    white space in front is skipped, a sign is taken, [0x] is dropped, and
    the digits up to the first character that is no digit are the number,
    so that "1g" is 1 and "g1" is NaN. *)
Definition parseIntPair (hi lo : ascii) : option Z :=
  if isSpace hi then hexValue lo
  else if Ascii.eqb hi "+" then hexValue lo
  else if Ascii.eqb hi "-" then option_map Z.opp (hexValue lo)
  else
    match hexValue hi with
    | None => None
    | Some h =>
        match hexValue lo with
        | Some l => Some (16 * h + l)
        | None =>
            if (h =? 0) && (Ascii.eqb lo "x" || Ascii.eqb lo "X") then None
            else Some h
        end
    end.

(** A number stored into a [Uint8Array]: NaN is 0, and an integer is
    taken modulo 256. *)
Definition storeNumber (v : option Z) : byte :=
  match v with
  | Some z => toUint8 z
  | None => Byte.x00
  end.

(** Modelled from the spec: [hexToArray] of [./utils], which is not among
    the sources: a string of odd length gets one leading zero, and every
    pair of characters is one byte ("hex inputs are parsed
    case-insensitively"), [parseInt(pair, 16)] stored into a
    [Uint8Array]; a pair that is not two hexadecimal digits is no error. *)
Fixpoint hexPairs (s : list ascii) : list byte :=
  match s with
  | hi :: lo :: rest => storeNumber (parseIntPair hi lo) :: hexPairs rest
  | _ => []
  end.

Definition hexToArray (hexStr : list ascii) : list byte :=
  if Nat.odd (length hexStr)
  then hexPairs (leftPad hexStr (S (length hexStr)))
  else hexPairs hexStr.

(** The [w] low bytes of [z], most significant first. *)
Fixpoint bytesBE (w : nat) (z : Z) : list byte :=
  match w with
  | O => []
  | S w' => bytesBE w' (z / 256) ++ [toUint8 z]
  end.

Fixpoint bytesValue (acc : Z) (bytes : list byte) : Z :=
  match bytes with
  | [] => acc
  | b :: rest => bytesValue (256 * acc + byteToZ b) rest
  end.

(** ** [utils] of @noble/curves, as [src/sm2/index.ts] uses it *)

Module utils.

(** [concatBytes(...arrays)]. *)
Definition concatBytes (arrays : list (list byte)) : list byte := concat arrays.

(** [const hex = num.toString(16); return hex.length & 1 ? '0' + hex : hex]. *)
Definition numberToHexUnpadded (num : Z) : list ascii :=
  let hex := toString16 num in
  if Nat.odd (length hex) then str "0" ++ hex else hex.

(** [BigInt(hex === '' ? '0' : '0x' + hex)].  [BigInt] trims white space
    (at the end only, since the string starts with [0x]), wants one
    hexadecimal digit at least, and throws a [SyntaxError] otherwise. *)
Definition hexToNumber (hex : list ascii) : Result Z :=
  match hex with
  | [] => Ok 0
  | _ =>
      match trimEnd hex with
      | [] => Throw SyntaxError
      | digits =>
          match hexDigitsValue 0 digits with
          | Some z => Ok z
          | None => Throw SyntaxError
          end
      end
  end.

(** Two lowercase hexadecimal digits per byte. *)
Definition bytesToHex (bytes : list byte) : list ascii := flat_map byteHex bytes.

Fixpoint strictPairs (s : list ascii) : option (list byte) :=
  match s with
  | [] => Some []
  | hi :: lo :: rest =>
      match hexValue hi, hexValue lo, strictPairs rest with
      | Some h, Some l, Some bs => Some (toUint8 (16 * h + l) :: bs)
      | _, _, _ => None
      end
  | _ => None
  end.

(** [hexToBytes]: throws on an odd length and on any character that is
    not a hexadecimal digit. *)
Definition hexToBytes (hex : list ascii) : Result (list byte) :=
  match strictPairs hex with
  | Some bs => Ok bs
  | None => Throw SyntaxError
  end.

Definition bytesToNumberBE (bytes : list byte) : Z := bytesValue 0 bytes.

Definition numberToBytesBE (num : Z) (len : nat) : list byte := bytesBE len num.

End utils.

(** ** Modular arithmetic of @noble/curves ([abstract/modular]) *)

(** [mod(a, b)]: [const result = a % b; return result >= 0n ? result : b + result].
    The [%] of [bigint] truncates towards zero, like [Z.rem]. *)
Definition jsMod (a b : Z) : Z :=
  let result := Z.rem a b in
  if 0 <=? result then result else b + result.

(** The loop of [invert]: [while (a !== 0n)] with
    [q = b / a; r = b % a; m = x - u * q; n = y - v * q] and
    [b = a, a = r, x = u, y = v, u = m, v = n]; [Z.quotrem] gives the
    truncating quotient and remainder at once.  It returns [(b, x)], the
    greatest common divisor and the coefficient. *)
Fixpoint invertLoop (fuel : nat) (a b x y u v : Z) : Result (Z * Z) :=
  match fuel with
  | O => Throw OutOfFuel
  | S fuel' =>
      if a =? 0 then Ok (b, x)
      else
        let (q, r) := Z.quotrem b a in
        let m := x - u * q in
        let n := y - v * q in
        invertLoop fuel' r a u v m n
  end.

(** Steps that the loop of [invert] can take for the modulus [modulo]. *)
Definition invertFuel (modulo : Z) : nat := (2 * Z.to_nat (Z.log2 modulo) + 3)%nat.

(** [invert(number, modulo)]: throws when [number] is 0 or [modulo] is not
    positive, and when the greatest common divisor is not 1. *)
Definition invert (number modulo : Z) : Result Z :=
  if (number =? 0) || (modulo <=? 0) then Throw InvertError
  else
    '(gcd, x) <- invertLoop (invertFuel modulo) (jsMod number modulo) modulo 0 1 1 0 ;;
    if gcd =? 1 then Ok (jsMod x modulo) else Throw InvertError.

(** [pow(num, power, modulo)] by squaring, for a positive [power]. *)
Fixpoint powPos (num : Z) (power : positive) (modulo : Z) : Z :=
  match power with
  | xH => jsMod num modulo
  | xO half => let r := powPos num half modulo in jsMod (r * r) modulo
  | xI half => let r := powPos num half modulo in jsMod (jsMod (r * r) modulo * num) modulo
  end.

(** ** The curve of [./ec] *)

(** Modelled from the spec: the constants of [./ec], which is not among the
    sources: "Curve constants (fixed by the SM2 standard): p, the field
    prime; a, b, Weierstrass coefficients; G, base point with coordinates
    (gx, gy); n, prime order of G; all 256-bit".  The values are those of
    GB/T 32918.5. *)
Module CURVE.
Definition p : Z := 0xFFFFFFFEFFFFFFFFFFFFFFFFFFFFFFFFFFFFFFFF00000000FFFFFFFFFFFFFFFF.
Definition a : Z := 0xFFFFFFFEFFFFFFFFFFFFFFFFFFFFFFFFFFFFFFFF00000000FFFFFFFFFFFFFFFC.
Definition b : Z := 0x28E9FA9E9D9F5E344D5A9E4BCF6509A7F39789F515AB8F92DDBCBD414D940E93.
Definition n : Z := 0xFFFFFFFEFFFFFFFFFFFFFFFFFFFFFFFF7203DF6B21C6052B53BBF40939D54123.
Definition Gx : Z := 0x32C4AE2C1F1981195F9904466A39C9948FE30BBFF2660BE1715A4589334C74C7.
Definition Gy : Z := 0xBC3736A2F4F6779C59BDCEE36B692153D0A9877CC62A474002DF32E52139F0A0.
(** [nByteLength] and [Fp.BYTES]. *)
Definition BYTES : nat := 32.
End CURVE.

(** Modelled from the spec: [field] of [./ec], which is not among the
    sources: "modular arithmetic over n (add, sub, mul, inv, additive
    identity, multiplicative identity)", that is the [Field] of
    @noble/curves at order [n].  The operations with a name in [N] do not
    reduce their result. *)
Module field.
Definition ORDER : Z := CURVE.n.
Definition add (lhs rhs : Z) : Z := jsMod (lhs + rhs) ORDER.
Definition mul (lhs rhs : Z) : Z := jsMod (lhs * rhs) ORDER.
Definition addN (lhs rhs : Z) : Z := lhs + rhs.
Definition subN (lhs rhs : Z) : Z := lhs - rhs.
Definition mulN (lhs rhs : Z) : Z := lhs * rhs.
Definition inv (num : Z) : Result Z := invert num ORDER.
End field.

(** [ZERO] and [ONE] of [./bn]. *)
Definition ZERO : Z := 0.
Definition ONE : Z := 1.

(** The points of the curve.  @noble/curves keeps them in projective
    coordinates; [x] and [y] below are the affine coordinates that its
    getters return, and the operations are the group operations in affine
    form. *)
Inductive ProjPointType : Set :=
| Infinity
| Affine (x y : Z).

Module Fp.
Definition ORDER : Z := CURVE.p.
Definition isValid (num : Z) : bool := (0 <=? num) && (num <? ORDER).
Definition inv (num : Z) : Z :=
  match invert num ORDER with
  | Ok r => r
  | Throw _ => 0
  end.
Definition mul (x y : Z) : Z := jsMod (x * y) ORDER.
Definition sub (x y : Z) : Z := jsMod (x - y) ORDER.
Definition add (x y : Z) : Z := jsMod (x + y) ORDER.
Definition neg (x : Z) : Z := jsMod (- x) ORDER.
(** [x^3 + a x + b], the right-hand side of the curve equation. *)
Definition weierstrassEquation (x : Z) : Z :=
  add (add (mul (mul x x) x) (mul CURVE.a x)) CURVE.b.
(** The square root for [p = 3 (mod 4)]: [n^((p + 1) / 4)], checked. *)
Definition sqrt (num : Z) : Result Z :=
  let root := powPos num (Z.to_pos ((ORDER + 1) / 4)) ORDER in
  if mul root root =? jsMod num ORDER then Ok root else Throw InvalidPoint.
End Fp.

Module ProjectivePoint.

Definition BASE : ProjPointType := Affine CURVE.Gx CURVE.Gy.

(** The getters [x] and [y]: the affine coordinates, (0, 0) for the point
    at infinity. *)
Definition x (P : ProjPointType) : Z :=
  match P with Infinity => 0 | Affine px _ => px end.
Definition y (P : ProjPointType) : Z :=
  match P with Infinity => 0 | Affine _ py => py end.

Definition double (P : ProjPointType) : ProjPointType :=
  match P with
  | Infinity => Infinity
  | Affine x1 y1 =>
      if y1 =? 0 then Infinity
      else
        let l := Fp.mul (Fp.add (Fp.mul 3 (Fp.mul x1 x1)) CURVE.a) (Fp.inv (Fp.mul 2 y1)) in
        let x3 := Fp.sub (Fp.mul l l) (Fp.mul 2 x1) in
        let y3 := Fp.sub (Fp.mul l (Fp.sub x1 x3)) y1 in
        Affine x3 y3
  end.

Definition add (P Q : ProjPointType) : ProjPointType :=
  match P, Q with
  | Infinity, _ => Q
  | _, Infinity => P
  | Affine x1 y1, Affine x2 y2 =>
      if x1 =? x2 then
        if y1 =? y2 then double P else Infinity
      else
        let l := Fp.mul (Fp.sub y2 y1) (Fp.inv (Fp.sub x2 x1)) in
        let x3 := Fp.sub (Fp.sub (Fp.mul l l) x1) x2 in
        let y3 := Fp.sub (Fp.mul l (Fp.sub x1 x3)) y1 in
        Affine x3 y3
  end.

Fixpoint multiplyPos (sc : positive) (P : ProjPointType) : ProjPointType :=
  match sc with
  | xH => P
  | xO half => double (multiplyPos half P)
  | xI half => add P (double (multiplyPos half P))
  end.

(** [multiply(scalar)]: the scalar has to be in [1, n-1]. *)
Definition multiply (P : ProjPointType) (scalar : Z) : Result ProjPointType :=
  if (1 <=? scalar) && (scalar <? CURVE.n)
  then Ok (multiplyPos (Z.to_pos scalar) P)
  else Throw InvalidScalar.

(** [fromAffine({x, y})]: the coordinates have to be field elements,
    (0, 0) is the point at infinity; the curve equation is not checked. *)
Definition fromAffine (px py : Z) : Result ProjPointType :=
  if negb (Fp.isValid px) || negb (Fp.isValid py) then Throw InvalidPoint
  else if (px =? 0) && (py =? 0) then Ok Infinity
  else Ok (Affine px py).

(** [assertValidity()]: not the point at infinity, coordinates in the
    field, and on the curve. *)
Definition isValidPoint (P : ProjPointType) : bool :=
  match P with
  | Infinity => false
  | Affine px py =>
      Fp.isValid px && Fp.isValid py
      && (Fp.mul py py =? Fp.weierstrassEquation px)
  end.

Definition assertValidity (P : ProjPointType) : Result ProjPointType :=
  if isValidPoint P then Ok P else Throw InvalidPoint.

(** [fromBytes]: 33 bytes with head 02 or 03 are a compressed point, 65
    bytes with head 04 an uncompressed one. *)
Definition fromBytes (bytes : list byte) : Result (Z * Z) :=
  match bytes with
  | [] => Throw InvalidPoint
  | head :: tail =>
      let h := byteToZ head in
      if (length bytes =? S CURVE.BYTES)%nat && ((h =? 2) || (h =? 3)) then
        let px := utils.bytesToNumberBE tail in
        if negb ((0 <? px) && (px <? Fp.ORDER)) then Throw InvalidPoint
        else
          py <- Fp.sqrt (Fp.weierstrassEquation px) ;;
          let isYOdd := Z.odd py in
          let isHeadOdd := Z.odd h in
          Ok (px, if Bool.eqb isHeadOdd isYOdd then py else Fp.neg py)
      else if (length bytes =? S (2 * CURVE.BYTES))%nat && (h =? 4) then
        Ok (utils.bytesToNumberBE (firstn CURVE.BYTES tail),
            utils.bytesToNumberBE (skipn CURVE.BYTES tail))
      else Throw InvalidPoint
  end.

(** [fromHex(hex)]: [fromAffine(fromBytes(hexToBytes(hex)))], then
    [assertValidity()]. *)
Definition fromHex (hex : list ascii) : Result ProjPointType :=
  bytes <- utils.hexToBytes hex ;;
  '(px, py) <- fromBytes bytes ;;
  P <- fromAffine px py ;;
  assertValidity P.

(** [toRawBytes(isCompressed)]: [assertValidity()], then [04 || x || y],
    or [02 || x] and [03 || x] by the parity of [y]. *)
Definition toRawBytes (P : ProjPointType) (isCompressed : bool)
  : Result (list byte) :=
  _ <- assertValidity P ;;
  let bx := utils.numberToBytesBE (x P) CURVE.BYTES in
  if isCompressed then
    Ok (utils.concatBytes [[if Z.odd (y P) then Byte.x03 else Byte.x02]; bx])
  else
    Ok (utils.concatBytes [[Byte.x04]; bx; utils.numberToBytesBE (y P) CURVE.BYTES]).

(** [toHex(isCompressed)]. *)
Definition toHex (P : ProjPointType) (isCompressed : bool) : Result (list ascii) :=
  bytes <- toRawBytes P isCompressed ;;
  Ok (utils.bytesToHex bytes).

End ProjectivePoint.

(** [sm2Curve.getPublicKey(privateKey, isCompressed)] for a private key in
    hexadecimal: 64 hexadecimal digits of a scalar in [1, n-1]. *)
Module sm2Curve.
Definition getPublicKey (privateKey : list ascii) (isCompressed : bool)
  : Result (list byte) :=
  match utils.hexToBytes privateKey with
  | Throw _ => Throw InvalidKey
  | Ok bytes =>
      if negb (length bytes =? CURVE.BYTES)%nat then Throw InvalidKey
      else
        P <- ProjectivePoint.multiply ProjectivePoint.BASE (utils.bytesToNumberBE bytes) ;;
        ProjectivePoint.toRawBytes P isCompressed
  end.

(** [sm2Curve.utils.precompute(windowSize, point)] with the window of the
    library: [point.multiply(3n)] fills the cache of multiples of the
    point, and the point itself is returned. *)
Definition precompute (point : ProjPointType) : Result ProjPointType :=
  _ <- ProjectivePoint.multiply point 3 ;;
  Ok point.
End sm2Curve.


(** ** The data of [src/sm2/index.ts] *)

(** A JavaScript string of free text, as its UTF-16 code units. *)
Definition Text : Type := list Z.

Definition text (s : string) : Text :=
  map (fun c => Z.of_N (N_of_ascii c)) (list_ascii_of_string s).

(** [msg: string | Uint8Array]. *)
Inductive Message : Type :=
| MsgString (s : Text)
| MsgBytes (bytes : list byte).

(** [publicKey: string | ProjPointType<bigint>]. *)
Inductive PublicKey : Type :=
| KeyHex (hex : list ascii)
| KeyPoint (P : ProjPointType).

(** [hashHex: string | Uint8Array] of [getHash]. *)
Inductive HexOrBytes : Type :=
| AsHex (hex : list ascii)
| AsBytes (bytes : list byte).

(** [output: "array" | "string"] of [doDecrypt]. *)
Inductive Output : Set := OutputArray | OutputString.

(** What [doDecrypt] returns: the [Uint8Array] of the plaintext, the
    empty plain array [[]] of a failure under "array", or a string. *)
Inductive Decrypted : Type :=
| DecArray (bytes : list byte)
| DecEmptyArray
| DecString (s : Text).

(** What [generateKeyPairHex] returns: [{ privateKey, publicKey }]. *)
Record KeyPair : Type :=
  { keypair_privateKey : list ascii; keypair_publicKey : list ascii }.

Record SignaturePoint : Type := { k : Z; x1 : Z }.

(** What [decodeEnc] returns. *)
Record EncParts : Type :=
  { enc_x : Z; enc_y : Z; enc_cipher : list ascii; enc_hash : list ascii }.

Definition C1C2C3 : Z := 0.

(** [EmptyArray = new Uint8Array()]. *)
Definition EmptyArray : list byte := [].

(** [ToInt32], applied by [>>] and [&] to a number. *)
Definition toInt32 (z : Z) : Z := (z + 2 ^ 31) mod 2 ^ 32 - 2 ^ 31.

(** The state of the closure [nextT] of [xorCipherStream]. *)
Record StreamState : Type := { ct : Z; offset : nat; t : list byte }.

(** The pool of points and the random generator that [doSignature] reads:
    [rngNext] random private keys have been drawn so far. *)
Record SignerState : Type :=
  { pointPool : option (list SignaturePoint); rngNext : nat }.

Record SignOptions : Type :=
  { der : bool; hash : bool; optPublicKey : option (list ascii);
    userId : option Text }.

Record VerifyOptions : Type :=
  { vder : bool; vhash : bool; vuserId : option Text }.

(** What the signing loop leaves: the accepted [k], [r] and [s]. *)
Record Signed : Type := { sig_k : Z; sig_r : Z; sig_s : Z }.


(** ** Collaborators to run the model with

    [src/sm2/index.ts] takes its hash, its UTF-8 codec and its ASN.1 codec
    from modules that are not among the sources, and section [SM2] below
    takes them as parameters.  The functions here are stand-ins for them,
    written from the standards, with which the examples at the end run:
    SM3 of GB/T 32905, UTF-8, and the DER encoding of the two ASN.1
    sequences. *)

Module SM3.

Definition mask32 (z : Z) : Z := Z.land z 0xFFFFFFFF.

Definition rotl (x n : Z) : Z :=
  let n := n mod 32 in
  mask32 (Z.lor (Z.shiftl x n) (Z.shiftr x (32 - n))).

Definition P0 (x : Z) : Z := Z.lxor x (Z.lxor (rotl x 9) (rotl x 17)).
Definition P1 (x : Z) : Z := Z.lxor x (Z.lxor (rotl x 15) (rotl x 23)).

Definition T (j : Z) : Z := if j <? 16 then 0x79CC4519 else 0x7A879D8A.

Definition FF (j x y z : Z) : Z :=
  if j <? 16 then Z.lxor (Z.lxor x y) z
  else Z.lor (Z.lor (Z.land x y) (Z.land x z)) (Z.land y z).

Definition GG (j x y z : Z) : Z :=
  if j <? 16 then Z.lxor (Z.lxor x y) z
  else Z.lor (Z.land x y) (Z.land (Z.lxor x 0xFFFFFFFF) z).

Definition word (ws : list Z) (j : nat) : Z := nth j ws 0.

(** [W_16 .. W_67], appended one by one to the words so far. *)
Fixpoint expand (count : nat) (ws : list Z) : list Z :=
  match count with
  | O => ws
  | S count' =>
      let j := length ws in
      let w :=
        Z.lxor
          (Z.lxor
             (P1 (Z.lxor (Z.lxor (word ws (j - 16)) (word ws (j - 9)))
                    (rotl (word ws (j - 3)) 15)))
             (rotl (word ws (j - 13)) 7))
          (word ws (j - 6)) in
      expand count' (ws ++ [w])
  end.

Record Registers : Set :=
  { rA : Z; rB : Z; rC : Z; rD : Z; rE : Z; rF : Z; rG : Z; rH : Z }.

Definition IV : Registers :=
  {| rA := 0x7380166F; rB := 0x4914B2B9; rC := 0x172442D7; rD := 0xDA8A0600;
     rE := 0xA96F30BC; rF := 0x163138AA; rG := 0xE38DEE4D; rH := 0xB0FB0E4E |}.

Definition round (ws : list Z) (j : nat) (v : Registers) : Registers :=
  let jz := Z.of_nat j in
  let a12 := rotl (rA v) 12 in
  let ss1 := rotl (mask32 (a12 + rE v + rotl (T jz) jz)) 7 in
  let ss2 := Z.lxor ss1 a12 in
  let w := word ws j in
  let w' := Z.lxor w (word ws (j + 4)) in
  let tt1 := mask32 (FF jz (rA v) (rB v) (rC v) + rD v + ss2 + w') in
  let tt2 := mask32 (GG jz (rE v) (rF v) (rG v) + rH v + ss1 + w) in
  {| rA := tt1; rB := rA v; rC := rotl (rB v) 9; rD := rC v;
     rE := P0 tt2; rF := rE v; rG := rotl (rF v) 19; rH := rG v |}.

Fixpoint rounds (count : nat) (j : nat) (ws : list Z) (v : Registers) : Registers :=
  match count with
  | O => v
  | S count' => rounds count' (S j) ws (round ws j v)
  end.

Definition compress (v : Registers) (block : list Z) : Registers :=
  let ws := expand 52 block in
  let v' := rounds 64 0 ws v in
  {| rA := Z.lxor (rA v') (rA v); rB := Z.lxor (rB v') (rB v);
     rC := Z.lxor (rC v') (rC v); rD := Z.lxor (rD v') (rD v);
     rE := Z.lxor (rE v') (rE v); rF := Z.lxor (rF v') (rF v);
     rG := Z.lxor (rG v') (rG v); rH := Z.lxor (rH v') (rH v) |}.

(** The message, the bit 1, zeros up to 56 modulo 64 bytes, and the length
    in bits on 8 bytes. *)
Definition pad (msg : list byte) : list byte :=
  let len := length msg in
  msg ++ [Byte.x80]
      ++ repeat Byte.x00 ((119 - len mod 64) mod 64)
      ++ bytesBE 8 (8 * Z.of_nat len).

(** Big-endian words of 4 bytes; [fuel] is at least the number of words. *)
Fixpoint toWords (fuel : nat) (bytes : list byte) : list Z :=
  match fuel, bytes with
  | S fuel', b0 :: b1 :: b2 :: b3 :: rest =>
      bytesValue 0 [b0; b1; b2; b3] :: toWords fuel' rest
  | _, _ => []
  end.

Fixpoint blocks (fuel : nat) (ws : list Z) : list (list Z) :=
  match fuel, ws with
  | O, _ => []
  | _, [] => []
  | S fuel', _ => firstn 16 ws :: blocks fuel' (skipn 16 ws)
  end.

Definition digest (v : Registers) : list byte :=
  bytesBE 4 (rA v) ++ bytesBE 4 (rB v) ++ bytesBE 4 (rC v) ++ bytesBE 4 (rD v)
  ++ bytesBE 4 (rE v) ++ bytesBE 4 (rF v) ++ bytesBE 4 (rG v) ++ bytesBE 4 (rH v).

Definition sm3 (msg : list byte) : list byte :=
  let padded := pad msg in
  let ws := toWords (length padded) padded in
  digest (fold_left compress (blocks (length ws) ws) IV).

End SM3.

Module UTF8.

Definition isHigh (c : Z) : bool := (0xD800 <=? c) && (c <? 0xDC00).
Definition isLow (c : Z) : bool := (0xDC00 <=? c) && (c <? 0xE000).

Definition continuation (v : Z) : byte := toUint8 (Z.lor 0x80 (Z.land v 0x3F)).

Definition encodePoint (cp : Z) : list byte :=
  if cp <? 0x80 then [toUint8 cp]
  else if cp <? 0x800 then
    [toUint8 (Z.lor 0xC0 (Z.shiftr cp 6)); continuation cp]
  else if cp <? 0x10000 then
    [toUint8 (Z.lor 0xE0 (Z.shiftr cp 12)); continuation (Z.shiftr cp 6);
     continuation cp]
  else
    [toUint8 (Z.lor 0xF0 (Z.shiftr cp 18)); continuation (Z.shiftr cp 12);
     continuation (Z.shiftr cp 6); continuation cp].

(** The UTF-8 bytes of a string of UTF-16 code units; a surrogate without
    its partner becomes U+FFFD. *)
Fixpoint utf8ToBytes (s : Text) : list byte :=
  match s with
  | [] => []
  | c :: rest =>
      if isHigh c then
        match rest with
        | d :: rest' =>
            if isLow d
            then encodePoint (0x10000 + (c - 0xD800) * 0x400 + (d - 0xDC00))
                 ++ utf8ToBytes rest'
            else encodePoint 0xFFFD ++ utf8ToBytes rest
        | [] => encodePoint 0xFFFD
        end
      else if isLow c then encodePoint 0xFFFD ++ utf8ToBytes rest
      else encodePoint c ++ utf8ToBytes rest
  end.

(** [String.fromCodePoint]: one code unit, or a surrogate pair, and a
    [RangeError] above U+10FFFF. *)
Definition fromCodePoint (cp : Z) : Result Text :=
  if 0x10FFFF <? cp then Throw RangeError
  else if cp <? 0x10000 then Ok [cp]
  else Ok [0xD800 + Z.shiftr (cp - 0x10000) 10;
           0xDC00 + Z.land (cp - 0x10000) 0x3FF].

Definition low6 (b : option byte) : Z :=
  match b with Some v => Z.land (byteToZ v) 0x3F | None => 0 end.

(** The string of UTF-8 bytes, read by the first byte of every sequence. *)
Fixpoint decode (fuel : nat) (arr : list byte) : Result Text :=
  match fuel, arr with
  | O, _ => Ok []
  | _, [] => Ok []
  | S fuel', b :: rest =>
      let v := byteToZ b in
      if (0xF0 <=? v) && (v <=? 0xF7) then
        chars <- fromCodePoint (Z.shiftl (Z.land v 0x07) 18
                                + Z.shiftl (low6 (nth_error rest 0)) 12
                                + Z.shiftl (low6 (nth_error rest 1)) 6
                                + low6 (nth_error rest 2)) ;;
        tail <- decode fuel' (skipn 3 rest) ;;
        Ok (chars ++ tail)
      else if (0xE0 <=? v) && (v <=? 0xEF) then
        chars <- fromCodePoint (Z.shiftl (Z.land v 0x0F) 12
                                + Z.shiftl (low6 (nth_error rest 0)) 6
                                + low6 (nth_error rest 1)) ;;
        tail <- decode fuel' (skipn 2 rest) ;;
        Ok (chars ++ tail)
      else if (0xC0 <=? v) && (v <=? 0xDF) then
        chars <- fromCodePoint (Z.shiftl (Z.land v 0x1F) 6
                                + low6 (nth_error rest 0)) ;;
        tail <- decode fuel' (skipn 1 rest) ;;
        Ok (chars ++ tail)
      else
        chars <- fromCodePoint v ;;
        tail <- decode fuel' rest ;;
        Ok (chars ++ tail)
  end.

Definition arrayToUtf8 (arr : list byte) : Result Text := decode (length arr) arr.

(** A string of code units in which every surrogate has its partner. *)
Fixpoint wellFormed (s : Text) : bool :=
  match s with
  | [] => true
  | c :: rest =>
      if isHigh c then
        match rest with
        | d :: rest' => isLow d && wellFormed rest'
        | [] => false
        end
      else negb (isLow c) && (0 <=? c) && (c <? 0x10000) && wellFormed rest
  end.

End UTF8.

Module ASN1.

(** The bytes of a length: one byte below 128, else [0x80 + count] and the
    big-endian bytes. *)
Definition derLength (len : nat) : list byte :=
  let z := Z.of_nat len in
  if z <? 128 then [toUint8 z]
  else
    let count := S (Z.to_nat (Z.log2 z / 8)) in
    toUint8 (128 + Z.of_nat count) :: bytesBE count z.

Definition tlv (tag : byte) (content : list byte) : list byte :=
  tag :: derLength (length content) ++ content.

(** INTEGER: the shortest big-endian form, with a zero byte in front when
    the first bit is set. *)
Definition derInteger (z : Z) : list byte :=
  let count := S (Z.to_nat (Z.log2 z / 8)) in
  let body := bytesBE count z in
  tlv Byte.x02
      (match body with
       | b :: _ => if 128 <=? byteToZ b then Byte.x00 :: body else body
       | [] => body
       end).

Definition derOctets (hex : list ascii) : list byte := tlv Byte.x04 (hexToArray hex).

Definition derSequence (items : list (list byte)) : list byte :=
  tlv Byte.x30 (concat items).

(** One element: its tag, its contents and the bytes after it. *)
Definition readTlv (bytes : list byte) : option (byte * list byte * list byte) :=
  match bytes with
  | tag :: l :: rest =>
      let lz := byteToZ l in
      if lz <? 128 then
        let len := Z.to_nat lz in
        if (len <=? length rest)%nat
        then Some (tag, firstn len rest, skipn len rest) else None
      else
        let count := Z.to_nat (lz - 128) in
        let len := Z.to_nat (bytesValue 0 (firstn count rest)) in
        let rest' := skipn count rest in
        if (count <=? length rest)%nat && (len <=? length rest')%nat
        then Some (tag, firstn len rest', skipn len rest') else None
  | _ => None
  end.

Definition readInteger (bytes : list byte) : option (Z * list byte) :=
  match readTlv bytes with
  | Some (Byte.x02, content, rest) => Some (bytesValue 0 content, rest)
  | _ => None
  end.

Definition readOctets (bytes : list byte) : option (list ascii * list byte) :=
  match readTlv bytes with
  | Some (Byte.x04, content, rest) => Some (bytesToHex content, rest)
  | _ => None
  end.

(** [encodeDer(r, s)]: SEQUENCE { INTEGER r, INTEGER s }, in hexadecimal. *)
Definition encodeDer (r s : Z) : list ascii :=
  bytesToHex (derSequence [derInteger r; derInteger s]).

Definition decodeDer (input : list ascii) : Result (Z * Z) :=
  match readTlv (hexToArray input) with
  | Some (Byte.x30, content, []) =>
      match readInteger content with
      | Some (r, rest) =>
          match readInteger rest with
          | Some (s, []) => Ok (r, s)
          | _ => Throw DecodeError
          end
      | None => Throw DecodeError
      end
  | _ => Throw DecodeError
  end.

(** [encodeEnc(x, y, hash, cipher)]:
    SEQUENCE { INTEGER x, INTEGER y, OCTET STRING, OCTET STRING }. *)
Definition encodeEnc (x y : Z) (hash cipher : list ascii) : list ascii :=
  bytesToHex
    (derSequence [derInteger x; derInteger y; derOctets hash; derOctets cipher]).

Definition decodeEnc (input : list ascii) : Result EncParts :=
  match readTlv (hexToArray input) with
  | Some (Byte.x30, content, []) =>
      match readInteger content with
      | Some (x, rest1) =>
          match readInteger rest1 with
          | Some (y, rest2) =>
              match readOctets rest2 with
              | Some (hash, rest3) =>
                  match readOctets rest3 with
                  | Some (cipher, []) =>
                      Ok {| enc_x := x; enc_y := y;
                            enc_cipher := cipher; enc_hash := hash |}
                  | _ => Throw DecodeError
                  end
              | None => Throw DecodeError
              end
          | None => Throw DecodeError
          end
      | None => Throw DecodeError
      end
  | _ => Throw DecodeError
  end.

End ASN1.

(** ** Values to run the model on

    The key pair, the message, the ephemeral point and the signature of
    the example of signing in Annex A of GB/T 32918.5, and a second key
    pair with a small private key, 5. *)

Definition standardPrivateKey : list ascii :=
  str "3945208f7b2144b13f36e38ac6d39f95889393692860b51a42fb81ef4df7c5b8".

Definition standardPublicKey : list ascii :=
  str ("09f9df311e5421a150dd7d161e4bc5c672179fad1833fc076bb08ff356f35020"
       ++ "ccea490ce26775a52dc6ea718cc1aa600aed05fbf35e084a6632f6072da9ad13").

Definition standardPublicPoint : ProjPointType :=
  Affine 0x09F9DF311E5421A150DD7D161E4BC5C672179FAD1833FC076BB08FF356F35020
         0xCCEA490CE26775A52DC6EA718CC1AA600AED05FBF35E084A6632F6072DA9AD13.

Definition standardMessage : Message := MsgString (text "message digest").

Definition standardPoint : SignaturePoint :=
  {| k := 0x59276E27D506861A16680F3AD9C02DCCEF3CC1FA3CDBE4CE6D54B80DEAC1BC21;
     x1 := 0x04EBFC718E8D1798620432268E77FEB6415E2EDE0E073C0F4F640ECD2E149A73 |}.

Definition standardSignature : list ascii :=
  str ("f5a03b0648d2c4630eeac513e1bb81a15944da3827d5b74143ac7eaceee720b3"
       ++ "b1b6aa29df212fd8763182bc0d421ca1bb9038fd1f7f42d4840b69c485bbc1aa").

Definition standardOptions : SignOptions :=
  {| der := false; hash := true; optPublicKey := Some standardPublicKey;
     userId := None |}.

Definition smallPrivateKey : list ascii :=
  str "0000000000000000000000000000000000000000000000000000000000000005".

Definition smallPublicPoint : ProjPointType :=
  Affine 0xC749061668652E26040E008FDD5EB77A344A417B7FCE19DBA575DA57CC372A9E
         0xF2DF5DB2D144E9454504C622B51CF38F5006206EB579FF7DA6976EFF5FBE6480.

Definition smallPublicKey : list ascii :=
  str ("04"
       ++ "c749061668652e26040e008fdd5eb77a344a417b7fce19dba575da57cc372a9e"
       ++ "f2df5db2d144e9454504c622b51cf38f5006206eb579ff7da6976eff5fbe6480").

(** The point [3 G], the ephemeral point of the examples of encryption. *)
Definition threeG : ProjPointType :=
  Affine 0xA97F7CD4B3C993B4BE2DAA8CDB41E24CA13F6BD945302244E26918F1D0509EBF
         0x530B5DD88C688EF5CCC5CEC08A72150F7C400EE5CD045292AAACDD037458F6E6.

(** "hello" under [smallPublicKey] with the ephemeral scalar 3, in the
    order C1 C3 C2, with the letters of C3 in upper case. *)
Definition helloCiphertext : list ascii :=
  str ("a97f7cd4b3c993b4be2daa8cdb41e24ca13f6bd945302244e26918f1d0509ebf"
       ++ "530b5dd88c688ef5ccc5cec08a72150f7c400ee5cd045292aaacdd037458f6e6"
       ++ "AAF7A7FE4D828446CB1004177B1943703EDF35EEAC4E917CA7D912D3CB22502C"
       ++ "ff2e2968c8").

(** No pre-hash and no DER: the message is the digest. *)
Definition plainOptions : VerifyOptions :=
  {| vder := false; vhash := false; vuserId := None |}.

(** A signature with [r = 0] and [s = 1], and the digest
    [e = - x(G + P) mod n] for the key [P] of [smallPublicKey], on which
    the equation of the verifier holds. *)
Definition zeroRSignature : list ascii :=
  str ("0000000000000000000000000000000000000000000000000000000000000000"
       ++ "0000000000000000000000000000000000000000000000000000000000000001").

Definition zeroRDigest : Message :=
  MsgBytes
    (hexToArray
       (str "f6d85049826cb7c444e836c18e0dd5ce6c0457147b65eea22730d9eefd8a33f3")).

(** A signature with [s = 0]. *)
Definition zeroSSignature : list ascii :=
  str ("0000000000000000000000000000000000000000000000000000000000000001"
       ++ "0000000000000000000000000000000000000000000000000000000000000000").

(** A signature with [r = 2^256 - 1], above [n]. *)
Definition largeRSignature : list ascii :=
  str ("ffffffffffffffffffffffffffffffffffffffffffffffffffffffffffffffff"
       ++ "0000000000000000000000000000000000000000000000000000000000000001").

(** A point of the pool that the signing loop drops for the digest [e] of
    the standard's example: its [r = (e + x1) mod n] is 0. *)
Definition rejectedPoint : SignaturePoint :=
  {| k := 1;
     x1 := CURVE.n
           - 0xF0B43E94BA45ACCAACE692ED534382EB17E6AB5A19CE7B31F4486FDFC0D28640 |}.

(** A signature under the private key 5 with the ephemeral scalar 17:
    the point [17 G], the digest [e = (1 - x(17 G)) mod n], for which
    [r = 1] and [s = 6^-1 (17 - 5) = 2], and the signature. *)
Definition smallEphemeral : ProjPointType :=
  Affine 0xDD18AA4AEC26EAC41C993F01115C57F7BF5113AB85B5ED4436969F8B77125E6A
         0x161E5851969DA8223361493F76FAC50F6CCE6001D7C0B853E0180D54D4AE2221.

Definition smallPoint : SignaturePoint :=
  {| k := 17;
     x1 := 0xDD18AA4AEC26EAC41C993F01115C57F7BF5113AB85B5ED4436969F8B77125E6A |}.

Definition smallDigest : Message :=
  MsgBytes
    (hexToArray
       (str "22e755b413d9153be366c0feeea3a807b2b2cbbf9c1017e71d25547dc2c2e2ba")).

Definition smallSignature : list ascii :=
  str ("0000000000000000000000000000000000000000000000000000000000000001"
       ++ "0000000000000000000000000000000000000000000000000000000000000002").

Definition smallOptions : SignOptions :=
  {| der := false; hash := false; optPublicKey := None; userId := None |}.

(** The key of [smallPublicKey] without its [04]. *)
Definition unprefixedKey : list ascii :=
  str ("c749061668652e26040e008fdd5eb77a344a417b7fce19dba575da57cc372a9e"
       ++ "f2df5db2d144e9454504c622b51cf38f5006206eb579ff7da6976eff5fbe6480").

(** A ciphertext of 192 characters: the point [3 G] as C1, a C3 of zeros
    and no C2. *)
Definition emptyBodyCiphertext : list ascii :=
  str ("a97f7cd4b3c993b4be2daa8cdb41e24ca13f6bd945302244e26918f1d0509ebf"
       ++ "530b5dd88c688ef5ccc5cec08a72150f7c400ee5cd045292aaacdd037458f6e6"
       ++ "0000000000000000000000000000000000000000000000000000000000000000").

(** The private key [n - 1]. *)
Definition minusOneKey : list ascii :=
  str "fffffffeffffffffffffffffffffffff7203df6b21c6052b53bbf40939d54122".

(** The Z pre-hash with the default identity, no DER. *)
Definition hashOptions : VerifyOptions :=
  {| vder := false; vhash := true; vuserId := None |}.

(** The key of [smallPublicKey] in compressed form: its Y is even. *)
Definition compressedKey : list ascii :=
  str "02c749061668652e26040e008fdd5eb77a344a417b7fce19dba575da57cc372a9e".

(** The options of [smallOptions] with DER, and the signature [(1, 2)]
    in DER. *)
Definition derOptions : SignOptions :=
  {| der := true; hash := false; optPublicKey := None; userId := None |}.

Definition smallDerSignature : list ascii := str "3006020101020102".

(** ** [src/sm2/index.ts] *)

Section SM2.

(** The collaborators that are not among the sources are parameters:
    the UTF-8 codec of [./utils], the hash of [./sm3] and the ASN.1 codec
    of [./asn1]. *)

(** [utils.utf8ToBytes], the UTF-8 bytes of a string. *)
Variable utf8ToBytes : Text -> list byte.
(** [arrayToUtf8] of [./utils], which throws on bytes that it cannot
    turn into a string. *)
Variable arrayToUtf8 : list byte -> Result Text.
(** [sm3] of [./sm3]. *)
Variable sm3 : list byte -> list byte.
(** [encodeDer(r, s)] and [decodeDer(input)] of [./asn1]. *)
Variable encodeDer : Z -> Z -> list ascii.
Variable decodeDer : list ascii -> Result (Z * Z).
(** [encodeEnc(x, y, hash, cipher)] and [decodeEnc(input)] of [./asn1]. *)
Variable encodeEnc : Z -> Z -> list ascii -> list ascii -> list ascii.
Variable decodeEnc : list ascii -> Result EncParts.

(** Modelled from the spec: [utf8ToHex] of [./utils], which is not among
    the sources: the hexadecimal form of "the raw UTF-8 bytes" of the
    string. *)
Definition utf8ToHex (input : Text) : list ascii :=
  utils.bytesToHex (utf8ToBytes input).

(** Modelled from the spec: [generateKeyPairHex] of [./utils], which is
    not among the sources: "generate fresh keypair (k, k G) using the
    curve's keypair routine, backed by a uniform RNG over [1, n-1]"; the
    private key is 64 hexadecimal digits, the public key the uncompressed
    point with its [04].  [random] is the scalar that the generator
    draws. *)
Definition generateKeyPairHex (random : Z) : Result KeyPair :=
  let privateKey := utils.bytesToHex (utils.numberToBytesBE random CURVE.BYTES) in
  publicKey <- sm2Curve.getPublicKey privateKey false ;;
  Ok {| keypair_privateKey := leftPad privateKey 64;
        keypair_publicKey := leftPad (utils.bytesToHex publicKey) 64 |}.

(** The bytes [ctShift] that [nextT] fills from [ct]. *)
Definition ctShift (ct : Z) : list byte :=
  [ toUint8 (Z.land (Z.shiftr (toInt32 ct) 24) 255);
    toUint8 (Z.land (Z.shiftr (toInt32 ct) 16) 255);
    toUint8 (Z.land (Z.shiftr (toInt32 ct) 8) 255);
    toUint8 (Z.land (toInt32 ct) 255) ].

(** [nextT]: [t = sm3(x2 || y2 || ctShift); ct++; offset = 0]. *)
Definition nextT (x2 y2 : list byte) (st : StreamState) : StreamState :=
  {| t := sm3 (utils.concatBytes [x2; y2; ctShift (ct st)]);
     ct := ct st + 1;
     offset := 0 |}.

(** [t[offset] & 0xff], 0 when [offset] is past the end of [t]. *)
Definition streamByte (st : StreamState) : Z :=
  Z.land (match nth_error (t st) (offset st) with
          | Some b => byteToZ b
          | None => 0
          end) 255.

(** The [for] loop of [xorCipherStream] over the bytes of [msg] that are
    left; it returns the bytes written and the final state. *)
Fixpoint xorLoop (x2 y2 : list byte) (st : StreamState) (msg : list byte)
  : list byte * StreamState :=
  match msg with
  | [] => ([], st)
  | m :: rest =>
      let st1 := if (offset st =? length (t st))%nat then nextT x2 y2 st else st in
      let c := toUint8 (Z.lxor (byteToZ m) (streamByte st1)) in
      let st2 := {| t := t st1; ct := ct st1; offset := S (offset st1) |} in
      let (out, st3) := xorLoop x2 y2 st2 rest in
      (c :: out, st3)
  end.

Definition streamInit (x2 y2 : list byte) : StreamState :=
  nextT x2 y2 {| ct := 1; offset := 0; t := EmptyArray |}.

(** [xorCipherStream(x2, y2, msg)] overwrites [msg]; the model returns
    its new contents. *)
Definition xorCipherStream (x2 y2 msg : list byte) : list byte :=
  fst (xorLoop x2 y2 (streamInit x2 y2) msg).

Definition messageBytes (msg : Message) : list byte :=
  match msg with
  | MsgString s => hexToArray (utf8ToHex s)
  | MsgBytes bytes => bytes
  end.

Definition keyPoint (publicKey : PublicKey) : Result ProjPointType :=
  match publicKey with
  | KeyHex hex => ProjectivePoint.fromHex hex
  | KeyPoint P => Ok P
  end.

(** A coordinate as [doEncrypt] and [doDecrypt] take it:
    [hexToArray(leftPad(utils.numberToHexUnpadded(v), 64))]. *)
Definition coordBytes (v : Z) : list byte :=
  hexToArray (leftPad (utils.numberToHexUnpadded v) 64).

(** [doEncrypt(msg, publicKey, cipherMode = 1, options?)]; [rnd] is the
    private key that [generateKeyPairHex] draws, [asn1] is
    [options?.asn1]. *)
Definition doEncrypt (rnd : Z) (msg : Message) (publicKey : PublicKey)
    (cipherMode : Z) (asn1 : bool) : Result (list ascii) :=
  let msgArr := messageBytes msg in
  publicKeyPoint <- keyPoint publicKey ;;
  keypair <- generateKeyPairHex rnd ;;
  k <- utils.hexToNumber keypair.(keypair_privateKey) ;;
  let c1 := keypair.(keypair_publicKey) in
  let c1 := if (128 <? length c1)%nat
            then substringFrom c1 (Z.of_nat (length c1) - 128) else c1 in
  p <- ProjectivePoint.multiply publicKeyPoint k ;;
  let x2 := coordBytes (ProjectivePoint.x p) in
  let y2 := coordBytes (ProjectivePoint.y p) in
  let c3 := bytesToHex (sm3 (utils.concatBytes [x2; msgArr; y2])) in
  let msgArr := xorCipherStream x2 y2 msgArr in
  let c2 := bytesToHex msgArr in
  if asn1 then
    point <- ProjectivePoint.fromHex keypair.(keypair_publicKey) ;;
    Ok (if cipherMode =? C1C2C3
        then encodeEnc (ProjectivePoint.x point) (ProjectivePoint.y point) c2 c3
        else encodeEnc (ProjectivePoint.x point) (ProjectivePoint.y point) c3 c2)
  else
    Ok (if cipherMode =? C1C2C3 then c1 ++ c2 ++ c3 else c1 ++ c3 ++ c2).

(** The three parts of the ciphertext as [doDecrypt] reads them. *)
Definition parseCipher (encryptData : list ascii) (cipherMode : Z) (asn1 : bool)
  : Result (ProjPointType * list ascii * list ascii) :=
  if asn1 then
    parts <- decodeEnc encryptData ;;
    c1 <- ProjectivePoint.fromAffine parts.(enc_x) parts.(enc_y) ;;
    let c3 := parts.(enc_hash) in
    let c2 := parts.(enc_cipher) in
    if cipherMode =? C1C2C3 then Ok (c1, c3, c2) else Ok (c1, c2, c3)
  else
    c1 <- ProjectivePoint.fromHex (str "04" ++ substring encryptData 0 128) ;;
    let c3 := substring encryptData 128 (128 + 64) in
    let c2 := substringFrom encryptData (128 + 64) in
    let len := Z.of_nat (length encryptData) in
    if cipherMode =? C1C2C3
    then Ok (c1, substring encryptData 128 (len - 64), substringFrom encryptData (len - 64))
    else Ok (c1, c2, c3).

(** [doDecrypt(encryptData, privateKey, cipherMode = 1,
    { output = "string", asn1 = false })]. *)
Definition doDecrypt (encryptData privateKey : list ascii) (cipherMode : Z)
    (output : Output) (asn1 : bool) : Result Decrypted :=
  privateKeyInteger <- utils.hexToNumber privateKey ;;
  '(c1, c2, c3) <- parseCipher encryptData cipherMode asn1 ;;
  let msg := hexToArray c2 in
  p <- ProjectivePoint.multiply c1 privateKeyInteger ;;
  let x2 := coordBytes (ProjectivePoint.x p) in
  let y2 := coordBytes (ProjectivePoint.y p) in
  let msg := xorCipherStream x2 y2 msg in
  let checkC3 := arrayToHex (sm3 (utils.concatBytes [x2; msg; y2])) in
  if ascii_eqb_list checkC3 (toLowerCase c3) then
    match output with
    | OutputArray => Ok (DecArray msg)
    | OutputString => s <- arrayToUtf8 msg ;; Ok (DecString s)
    end
  else
    Ok (match output with
        | OutputArray => DecEmptyArray
        | OutputString => DecString []
        end).

(** [getZ(publicKey, userId = "1234567812345678")]. *)
Definition getZ (publicKey : list ascii) (userId : option Text)
  : Result (list byte) :=
  let userId := match userId with
                | Some u => u
                | None => text "1234567812345678"
                end in
  let userId := utf8ToHex userId in
  let a := leftPad (utils.numberToHexUnpadded CURVE.a) 64 in
  let b := leftPad (utils.numberToHexUnpadded CURVE.b) 64 in
  let gx := leftPad (utils.numberToHexUnpadded (ProjectivePoint.x ProjectivePoint.BASE)) 64 in
  let gy := leftPad (utils.numberToHexUnpadded (ProjectivePoint.y ProjectivePoint.BASE)) 64 in
  '(px, py) <-
    (if (length publicKey =? 128)%nat
     then Ok (substring publicKey 0 64, substring publicKey 64 128)
     else
       point <- ProjectivePoint.fromHex publicKey ;;
       Ok (leftPad (utils.numberToHexUnpadded (ProjectivePoint.x point)) 64,
           leftPad (utils.numberToHexUnpadded (ProjectivePoint.y point)) 64)) ;;
  let data := hexToArray (userId ++ a ++ b ++ gx ++ gy ++ px ++ py) in
  let entl := Z.of_nat (length userId) * 4 in
  let z := sm3 (utils.concatBytes
                  [ [ toUint8 (Z.land (Z.shiftr (toInt32 entl) 8) 255);
                      toUint8 (Z.land (toInt32 entl) 255) ];
                    data ]) in
  Ok z.

(** [getHash(hashHex, publicKey, userId = "1234567812345678")]. *)
Definition getHash (hashHex : HexOrBytes) (publicKey : list ascii)
    (userId : option Text) : Result (list ascii) :=
  z <- getZ publicKey userId ;;
  Ok (bytesToHex
        (sm3 (utils.concatBytes
                [ z;
                  match hashHex with
                  | AsHex hex => hexToArray hex
                  | AsBytes bytes => bytes
                  end ]))).

(** [getPublicKeyFromPrivateKey(privateKey)]. *)
Definition getPublicKeyFromPrivateKey (privateKey : list ascii)
  : Result (list ascii) :=
  pubKey <- sm2Curve.getPublicKey privateKey false ;;
  let pubPad := leftPad (utils.bytesToHex pubKey) 64 in
  Ok pubPad.

(** [getPoint()], with the private key [rnd] that [generateKeyPairHex]
    draws. *)
Definition getPoint (rnd : Z) : Result SignaturePoint :=
  keypair <- generateKeyPairHex rnd ;;
  PA <- ProjectivePoint.fromHex keypair.(keypair_publicKey) ;;
  k <- utils.hexToNumber keypair.(keypair_privateKey) ;;
  Ok {| k := k; x1 := ProjectivePoint.x PA |}.

(** The digest that [doSignature] and [doVerifySignature] start from
    when [hash] is not set. *)
Definition messageHex (msg : Message) : list ascii :=
  match msg with
  | MsgString s => utf8ToHex s
  | MsgBytes bytes => arrayToHex bytes
  end.

(** The point of one turn of the signing loop:
    [pointPool && pointPool.length ? pointPool.pop() : getPoint()]. *)
Definition takePoint (rng : nat -> Z) (st : SignerState)
  : Result (SignaturePoint * SignerState) :=
  match pointPool st with
  | Some ((_ :: _) as pool) =>
      Ok (last pool {| k := 0; x1 := 0 |},
          {| pointPool := Some (removelast pool); rngNext := rngNext st |})
  | _ =>
      point <- getPoint (rng (rngNext st)) ;;
      Ok (point, {| pointPool := pointPool st; rngNext := S (rngNext st) |})
  end.

(** The inner [do ... while (r === ZERO || r + k === sm2Curve.CURVE.n)]. *)
Fixpoint pickR (fuel : nat) (rng : nat -> Z) (e : Z) (st : SignerState)
  : Result (Z * Z * SignerState) :=
  match fuel with
  | O => Throw OutOfFuel
  | S fuel' =>
      '(point, st') <- takePoint rng st ;;
      let k := point.(k) in
      let r := field.add e point.(x1) in
      if (r =? ZERO) || (r + k =? CURVE.n)
      then pickR fuel' rng e st'
      else Ok (k, r, st')
  end.

(** The outer [do ... while (s === ZERO)]. *)
Fixpoint signLoop (fuel : nat) (rng : nat -> Z) (dA e : Z) (st : SignerState)
  : Result (Signed * SignerState) :=
  match fuel with
  | O => Throw OutOfFuel
  | S fuel' =>
      '(k, r, st') <- pickR (S fuel') rng e st ;;
      dInv <- field.inv (field.addN dA ONE) ;;
      let s := field.mul dInv (field.subN k (field.mulN r dA)) in
      if s =? ZERO
      then signLoop fuel' rng dA e st'
      else Ok ({| sig_k := k; sig_r := r; sig_s := s |}, st')
  end.

(** The digest [e] of [doSignature]. *)
Definition signDigest (msg : Message) (privateKey : list ascii)
    (options : SignOptions) : Result (list ascii) :=
  let hashHex := messageHex msg in
  if options.(hash) then
    publicKey <-
      match options.(optPublicKey) with
      | Some ((_ :: _) as publicKey) => Ok publicKey
      | _ => getPublicKeyFromPrivateKey privateKey
      end ;;
    getHash (AsHex hashHex) publicKey options.(userId)
  else Ok hashHex.

(** [doSignature(msg, privateKey, options)] up to the end of the loop. *)
Definition signCore (fuel : nat) (rng : nat -> Z) (msg : Message)
    (privateKey : list ascii) (options : SignOptions) (st : SignerState)
  : Result (Signed * SignerState) :=
  hashHex <- signDigest msg privateKey options ;;
  dA <- utils.hexToNumber privateKey ;;
  e <- utils.hexToNumber hashHex ;;
  signLoop fuel rng dA e st.

Definition signatureHex (options : SignOptions) (sg : Signed) : list ascii :=
  if options.(der) then encodeDer sg.(sig_r) sg.(sig_s)
  else leftPad (utils.numberToHexUnpadded sg.(sig_r)) 64
       ++ leftPad (utils.numberToHexUnpadded sg.(sig_s)) 64.

(** [doSignature(msg, privateKey, options)]: the signature, and the
    pool and generator as it leaves them. *)
Definition doSignature (fuel : nat) (rng : nat -> Z) (msg : Message)
    (privateKey : list ascii) (options : SignOptions) (st : SignerState)
  : Result (list ascii * SignerState) :=
  '(sg, st') <- signCore fuel rng msg privateKey options st ;;
  Ok (signatureHex options sg, st').

(** The components [(r, s)] as [doVerifySignature] reads them. *)
Definition parseSignature (signHex : list ascii) (der : bool) : Result (Z * Z) :=
  if der then decodeDer signHex
  else
    r <- utils.hexToNumber (substring signHex 0 64) ;;
    s <- utils.hexToNumber (substringFrom signHex 64) ;;
    Ok (r, s).

(** The digest [hashHex] of [doVerifySignature]. *)
Definition verifyDigest (msg : Message) (publicKey : PublicKey)
    (options : VerifyOptions) : Result (list ascii) :=
  publicKeyHex <-
    match publicKey with
    | KeyHex hex => Ok hex
    | KeyPoint P => ProjectivePoint.toHex P false
    end ;;
  if options.(vhash) then
    getHash (match msg with
             | MsgString s => AsHex (utf8ToHex s)
             | MsgBytes bytes => AsBytes bytes
             end) publicKeyHex options.(vuserId)
  else Ok (messageHex msg).

(** The equations of [doVerifySignature], from [(r, s)], [PA] and [e]. *)
Definition verifyEquation (r s : Z) (PA : ProjPointType) (e : Z) : Result bool :=
  let t := field.add r s in
  if t =? ZERO then Ok false
  else
    sG <- ProjectivePoint.multiply ProjectivePoint.BASE s ;;
    tP <- ProjectivePoint.multiply PA t ;;
    let x1y1 := ProjectivePoint.add sG tP in
    let R := field.add e (ProjectivePoint.x x1y1) in
    Ok (r =? R).

(** [doVerifySignature(msg, signHex, publicKey, options)]. *)
Definition doVerifySignature (msg : Message) (signHex : list ascii)
    (publicKey : PublicKey) (options : VerifyOptions) : Result bool :=
  hashHex <- verifyDigest msg publicKey options ;;
  '(r, s) <- parseSignature signHex options.(vder) ;;
  PA <- keyPoint publicKey ;;
  e <- utils.hexToNumber hashHex ;;
  verifyEquation r s PA e.

(** [precomputePublicKey(publicKey, windowSize?)], called without a
    window. *)
Definition precomputePublicKey (publicKey : list ascii) : Result ProjPointType :=
  point <- ProjectivePoint.fromHex publicKey ;;
  sm2Curve.precompute point.

(** ** Notions that the statements use *)

(** A string of hexadecimal digits in lower case. *)
Definition isLowerHex (s : list ascii) : Prop :=
  Forall (fun c => exists d, 0 <= d < 16 /\ c = hexDigit d) s.


(** The key derivation stream in the words of the spec: block [i], counted
    from 0, is SM3(x2 || y2 || ct) for the counter [ct = i + 1] as a 32-bit
    big-endian integer, and byte [j] of the stream is byte [j mod 32] of
    block [j / 32]. *)
Definition kdfBlock (x2 y2 : list byte) (i : nat) : list byte :=
  sm3 (x2 ++ y2 ++ bytesBE 4 (Z.of_nat i + 1)).

Definition kdfByte (x2 y2 : list byte) (j : nat) : byte :=
  nth (j mod 32) (kdfBlock x2 y2 (j / 32)) Byte.x00.

(** The bytes [msg], XORed with the stream from position [pos] on. *)
Fixpoint xorFrom (x2 y2 : list byte) (pos : nat) (msg : list byte) : list byte :=
  match msg with
  | [] => []
  | m :: rest =>
      toUint8 (Z.lxor (byteToZ m) (byteToZ (kdfByte x2 y2 pos)))
      :: xorFrom x2 y2 (S pos) rest
  end.

(** The state of [xorCipherStream] when block [b] is the current one and
    [o] of its bytes are used. *)
Definition streamAfter (x2 y2 : list byte) (b o : nat) : StreamState :=
  {| ct := Z.of_nat b + 2; offset := o; t := kdfBlock x2 y2 b |}.

(** How often [xorCipherStream] calls [sm3]: [ct] was 1 before the first
    call and counts every call. *)
Definition blocksHashed (x2 y2 msg : list byte) : Z :=
  ct (snd (xorLoop x2 y2 (streamInit x2 y2) msg)) - 1.

(** The three fields of a ciphertext, for the ephemeral point [K = k G],
    the shared point [Q = k P] and the bytes [M] of the message:
    C1 = x1 || y1 on 64 digits each, C3 = SM3(x2 || M || y2) and C2, the
    message XORed with the key stream. *)
Definition fieldC1 (K : ProjPointType) : list ascii :=
  hexFixed 64 (ProjectivePoint.x K) ++ hexFixed 64 (ProjectivePoint.y K).

Definition fieldC3 (Q : ProjPointType) (M : list byte) : list ascii :=
  bytesToHex
    (sm3 (utils.concatBytes
            [coordBytes (ProjectivePoint.x Q); M; coordBytes (ProjectivePoint.y Q)])).

Definition fieldC2 (Q : ProjPointType) (M : list byte) : list ascii :=
  bytesToHex
    (xorCipherStream (coordBytes (ProjectivePoint.x Q))
                     (coordBytes (ProjectivePoint.y Q)) M).

(** What [doDecrypt] does for the plaintext bytes [M] when the hashes
    match: it returns them, or the string that [arrayToUtf8] makes of
    them, and throws what [arrayToUtf8] throws; and what it returns when
    they do not match. *)
Definition recovered (output : Output) (M : list byte) : Result Decrypted :=
  match output with
  | OutputArray => Ok (DecArray M)
  | OutputString => s <- arrayToUtf8 M ;; Ok (DecString s)
  end.

Definition emptyResult (output : Output) : Decrypted :=
  match output with
  | OutputArray => DecEmptyArray
  | OutputString => DecString []
  end.

(** Equality of two strings up to the case of their letters. *)
Definition equalIgnoringCase (s u : list ascii) : Prop :=
  toLowerCase s = toLowerCase u.


(** The next [count] points that the signing loop takes, from the pool
    first and then from [getPoint]. *)
Fixpoint takePoints (count : nat) (rng : nat -> Z) (st : SignerState)
  : Result (list SignaturePoint * SignerState) :=
  match count with
  | O => Ok ([], st)
  | S count' =>
      '(point, st1) <- takePoint rng st ;;
      '(points, st2) <- takePoints count' rng st1 ;;
      Ok (point :: points, st2)
  end.

(** The candidates [r = (e + x1) mod n] and
    [s = ((1 + dA)^-1 (k - r dA)) mod n] of a point, with [dInv] for the
    inverse of [1 + dA]. *)
Definition candidateR (e : Z) (point : SignaturePoint) : Z :=
  (e + point.(x1)) mod CURVE.n.

Definition candidateS (dA dInv e : Z) (point : SignaturePoint) : Z :=
  (dInv * (point.(k) - candidateR e point * dA)) mod CURVE.n.

(** The conditions under which the loop drops a point. *)
Definition discarded (dA dInv e : Z) (point : SignaturePoint) : Prop :=
  candidateR e point = 0
  \/ candidateR e point + point.(k) = CURVE.n
  \/ candidateS dA dInv e point = 0.

(** The bytes of the user identity, with its default. *)
Definition userIdBytes (userId : option Text) : list byte :=
  utf8ToBytes (match userId with
               | Some u => u
               | None => text "1234567812345678"
               end).

(** The input of the identity hash in the words of the spec:
    ENTL || userId || a || b || gx || gy || px || py, with ENTL the length
    of the identity in bits on 2 bytes and every other number on 32 bytes,
    most significant byte first. *)
Definition identityInput (uid : list byte) (P : ProjPointType) : list byte :=
  bytesBE 2 (8 * Z.of_nat (length uid)) ++ uid
  ++ bytesBE 32 CURVE.a ++ bytesBE 32 CURVE.b
  ++ bytesBE 32 CURVE.Gx ++ bytesBE 32 CURVE.Gy
  ++ bytesBE 32 (ProjectivePoint.x P) ++ bytesBE 32 (ProjectivePoint.y P).

(** The strings that [getZ] takes for the public key [P]: X || Y on 128
    hexadecimal characters, or any string of another length that [fromHex]
    decodes to [P], such as [04 || X || Y]. *)
Definition keyHexOf (hex : list ascii) (P : ProjPointType) : Prop :=
  hex = fieldC1 P
  \/ (length hex <> 128%nat /\ ProjectivePoint.fromHex hex = Ok P).

Definition hashInputBytes (hashHex : HexOrBytes) : list byte :=
  match hashHex with
  | AsHex hex => hexToArray hex
  | AsBytes bytes => bytes
  end.

(** A point [(k, x1)] that belongs to its scalar: [k] is in [1, n-1] and
    [x1] is the first coordinate of [k G]. *)
Definition ephemeral (point : SignaturePoint) : Prop :=
  exists K, ProjectivePoint.multiply ProjectivePoint.BASE point.(k) = Ok K
            /\ point.(x1) = ProjectivePoint.x K.

Definition poolValid (st : SignerState) : Prop :=
  match pointPool st with
  | Some pool => Forall ephemeral pool
  | None => True
  end.

(** One instance of the group law of the curve: for [P = d G],
    [a G + b P = ((a + b d) mod n) G]. *)
Definition groupLaw (d : Z) (P : ProjPointType) (a b : Z) : Prop :=
  ProjectivePoint.add
    (ProjectivePoint.multiplyPos (Z.to_pos a) ProjectivePoint.BASE)
    (ProjectivePoint.multiplyPos (Z.to_pos b) P)
  = ProjectivePoint.multiplyPos (Z.to_pos ((a + b * d) mod CURVE.n)) ProjectivePoint.BASE.

(** The options of the verifier that match those of the signer. *)
Definition matching (options : SignOptions) : VerifyOptions :=
  {| vder := options.(der); vhash := options.(hash); vuserId := options.(userId) |}.

(** Two byte strings XORed byte by byte, as far as the shorter one goes. *)
Fixpoint xorBytes (a b : list byte) : list byte :=
  match a, b with
  | x :: a', y :: b' => toUint8 (Z.lxor (byteToZ x) (byteToZ y)) :: xorBytes a' b'
  | _, _ => []
  end.
(** * Properties *)

(** ** Bytes *)

Lemma byteToZ_range (b : byte) : 0 <= byteToZ b < 256.
Proof.
  unfold byteToZ. pose proof (Byte.to_N_bounded b). lia.
Qed.

Lemma toUint8_byteToZ (b : byte) : toUint8 (byteToZ b) = b.
Proof.
  unfold toUint8. pose proof (byteToZ_range b) as Hb.
  rewrite Z.mod_small by lia. unfold byteToZ.
  rewrite N2Z.id, Byte.of_to_N. reflexivity.
Qed.

Lemma byteToZ_toUint8 (z : Z) : byteToZ (toUint8 z) = z mod 256.
Proof.
  unfold toUint8, byteToZ.
  pose proof (Z.mod_pos_bound z 256 ltac:(lia)) as Hz.
  destruct (Byte.of_N (Z.to_N (z mod 256))) as [b|] eqn:E.
  - apply Byte.to_of_N in E. rewrite E. lia.
  - apply Byte.of_N_None_iff in E. lia.
Qed.

Lemma toUint8_mod (z : Z) : toUint8 (z mod 256) = toUint8 z.
Proof.
  unfold toUint8. rewrite Z.mod_mod by lia. reflexivity.
Qed.

Lemma toUint8_inj (y z : Z) :
  0 <= y < 256 -> 0 <= z < 256 -> toUint8 y = toUint8 z -> y = z.
Proof.
  intros Hy Hz E. apply (f_equal byteToZ) in E.
  rewrite !byteToZ_toUint8, !Z.mod_small in E by lia. exact E.
Qed.

(** ** Hexadecimal digits *)

Lemma hexValue_hexDigit (d : Z) : 0 <= d < 16 -> hexValue (hexDigit d) = Some d.
Proof.
  intros Hd.
  assert (Hcases : d = 0 \/ d = 1 \/ d = 2 \/ d = 3 \/ d = 4 \/ d = 5 \/ d = 6
                   \/ d = 7 \/ d = 8 \/ d = 9 \/ d = 10 \/ d = 11 \/ d = 12
                   \/ d = 13 \/ d = 14 \/ d = 15) by lia.
  repeat (destruct Hcases as [-> | Hcases]; [reflexivity|]).
  subst d. reflexivity.
Qed.

Lemma lowerChar_hexDigit (d : Z) : 0 <= d < 16 -> lowerChar (hexDigit d) = hexDigit d.
Proof.
  intros Hd.
  assert (Hcases : d = 0 \/ d = 1 \/ d = 2 \/ d = 3 \/ d = 4 \/ d = 5 \/ d = 6
                   \/ d = 7 \/ d = 8 \/ d = 9 \/ d = 10 \/ d = 11 \/ d = 12
                   \/ d = 13 \/ d = 14 \/ d = 15) by lia.
  repeat (destruct Hcases as [-> | Hcases]; [reflexivity|]).
  subst d. reflexivity.
Qed.

Lemma isSpace_hexDigit (d : Z) : 0 <= d < 16 -> isSpace (hexDigit d) = false.
Proof.
  intros Hd.
  assert (Hcases : d = 0 \/ d = 1 \/ d = 2 \/ d = 3 \/ d = 4 \/ d = 5 \/ d = 6
                   \/ d = 7 \/ d = 8 \/ d = 9 \/ d = 10 \/ d = 11 \/ d = 12
                   \/ d = 13 \/ d = 14 \/ d = 15) by lia.
  repeat (destruct Hcases as [-> | Hcases]; [reflexivity|]).
  subst d. reflexivity.
Qed.

Lemma isLowerHex_app (s u : list ascii) :
  isLowerHex s -> isLowerHex u -> isLowerHex (s ++ u).
Proof. unfold isLowerHex. intros; apply Forall_app; auto. Qed.

Lemma toLowerCase_lowerHex (s : list ascii) : isLowerHex s -> toLowerCase s = s.
Proof.
  induction 1 as [|c s [d [Hd ->]] _ IH]; simpl; [reflexivity|].
  rewrite lowerChar_hexDigit by exact Hd. f_equal. exact IH.
Qed.

Lemma trimEnd_lowerHex (s : list ascii) : isLowerHex s -> trimEnd s = s.
Proof.
  induction 1 as [|c s [d [Hd ->]] _ IH]; simpl; [reflexivity|].
  rewrite IH. destruct s; [|reflexivity].
  rewrite isSpace_hexDigit by exact Hd. reflexivity.
Qed.

Lemma byteHex_lowerHex (b : byte) : isLowerHex (byteHex b).
Proof.
  pose proof (byteToZ_range b) as Hb. unfold byteHex.
  repeat constructor.
  - exists (byteToZ b / 16). split; [|reflexivity].
    split; [apply Z.div_pos; lia | apply Z.div_lt_upper_bound; lia].
  - exists (byteToZ b mod 16). split; [|reflexivity].
    apply Z.mod_pos_bound. lia.
Qed.

Lemma bytesToHex_lowerHex (bytes : list byte) : isLowerHex (bytesToHex bytes).
Proof.
  induction bytes as [|b bytes IH]; simpl.
  - constructor.
  - apply (isLowerHex_app (byteHex b)); [apply byteHex_lowerHex | exact IH].
Qed.

Lemma bytesToHex_length (bytes : list byte) :
  length (bytesToHex bytes) = (2 * length bytes)%nat.
Proof.
  induction bytes as [|b bytes IH]; [reflexivity|].
  change (bytesToHex (b :: bytes)) with (byteHex b ++ bytesToHex bytes).
  rewrite length_app, IH. simpl. lia.
Qed.

Lemma bytesToHex_app (a b : list byte) :
  bytesToHex (a ++ b) = bytesToHex a ++ bytesToHex b.
Proof. unfold bytesToHex. apply flat_map_app. Qed.

Lemma sign_hexDigit (d : Z) :
  0 <= d < 16 ->
  Ascii.eqb (hexDigit d) "+" = false /\ Ascii.eqb (hexDigit d) "-" = false.
Proof.
  intros Hd.
  assert (Hcases : d = 0 \/ d = 1 \/ d = 2 \/ d = 3 \/ d = 4 \/ d = 5 \/ d = 6
                   \/ d = 7 \/ d = 8 \/ d = 9 \/ d = 10 \/ d = 11 \/ d = 12
                   \/ d = 13 \/ d = 14 \/ d = 15) by lia.
  repeat (destruct Hcases as [-> | Hcases]; [split; reflexivity|]).
  subst d. split; reflexivity.
Qed.

(** On two hexadecimal digits in lower case [parseInt] reads the byte. *)
Lemma parseIntPair_hexDigit (h l : Z) :
  0 <= h < 16 -> 0 <= l < 16 ->
  parseIntPair (hexDigit h) (hexDigit l) = Some (16 * h + l).
Proof.
  intros Hh Hl. unfold parseIntPair.
  rewrite (isSpace_hexDigit h Hh).
  destruct (sign_hexDigit h Hh) as [-> ->].
  rewrite (hexValue_hexDigit h Hh), (hexValue_hexDigit l Hl). reflexivity.
Qed.

Lemma hexPairs_byteHex (b : byte) (rest : list ascii) :
  hexPairs (byteHex b ++ rest) = b :: hexPairs rest.
Proof.
  pose proof (byteToZ_range b) as Hb. unfold byteHex. cbn [app hexPairs].
  rewrite parseIntPair_hexDigit.
  - cbn [storeNumber]. rewrite <- Z.div_mod by lia.
    rewrite toUint8_byteToZ. reflexivity.
  - split; [apply Z.div_pos; lia | apply Z.div_lt_upper_bound; lia].
  - apply Z.mod_pos_bound. lia.
Qed.

Lemma hexPairs_bytesToHex (bytes : list byte) : hexPairs (bytesToHex bytes) = bytes.
Proof.
  induction bytes as [|b bytes IH]; [reflexivity|].
  change (bytesToHex (b :: bytes)) with (byteHex b ++ bytesToHex bytes).
  rewrite hexPairs_byteHex, IH. reflexivity.
Qed.

Lemma odd_double (m : nat) : Nat.odd (2 * m) = false.
Proof.
  rewrite <- Nat.negb_even, Nat.even_mul. reflexivity.
Qed.

(** [hexToArray] undoes [bytesToHex]. *)
Lemma hexToArray_bytesToHex (bytes : list byte) :
  hexToArray (bytesToHex bytes) = bytes.
Proof.
  unfold hexToArray. rewrite bytesToHex_length, odd_double.
  apply hexPairs_bytesToHex.
Qed.

(** ** The key stream *)

Lemma land_255 (z : Z) : Z.land z 255 = z mod 256.
Proof. change 255 with (Z.ones 8). rewrite Z.land_ones by lia. reflexivity. Qed.

Lemma lxor_byte_range (a b : Z) :
  0 <= a < 256 -> 0 <= b < 256 -> 0 <= Z.lxor a b < 256.
Proof.
  intros Ha Hb.
  assert (Hnn : 0 <= Z.lxor a b) by (apply Z.lxor_nonneg; lia).
  split; [exact Hnn|].
  destruct (Z.eq_dec (Z.lxor a b) 0) as [E|E]; [lia|].
  change 256 with (2 ^ 8). apply Z.log2_lt_pow2; [lia|].
  pose proof (Z.log2_lxor a b ltac:(lia) ltac:(lia)) as Hl.
  assert (Hla : Z.log2 a < 8).
  { destruct (Z.eq_dec a 0) as [->|]; [simpl; lia|].
    apply Z.log2_lt_pow2; lia. }
  assert (Hlb : Z.log2 b < 8).
  { destruct (Z.eq_dec b 0) as [->|]; [simpl; lia|].
    apply Z.log2_lt_pow2; lia. }
  lia.
Qed.

(** [msg[i] ^= key] twice with the same key byte gives [msg[i]] back. *)
Lemma xor_byte_twice (m : byte) (key : Z) :
  0 <= key < 256 ->
  toUint8 (Z.lxor (byteToZ (toUint8 (Z.lxor (byteToZ m) key))) key) = m.
Proof.
  intros Hk. pose proof (byteToZ_range m) as Hm.
  rewrite byteToZ_toUint8.
  rewrite Z.mod_small by (apply lxor_byte_range; assumption).
  rewrite Z.lxor_assoc, Z.lxor_nilpotent, Z.lxor_0_r.
  apply toUint8_byteToZ.
Qed.

Lemma streamByte_range (st : StreamState) : 0 <= streamByte st < 256.
Proof.
  unfold streamByte. rewrite land_255. apply Z.mod_pos_bound. lia.
Qed.

Lemma xorLoop_length (x2 y2 : list byte) (msg : list byte) :
  forall st, length (fst (xorLoop x2 y2 st msg)) = length msg.
Proof.
  induction msg as [|m rest IH]; intros st; [reflexivity|].
  cbn [xorLoop].
  set (st1 := if (offset st =? length (t st))%nat then nextT x2 y2 st else st).
  set (st2 := {| t := t st1; ct := ct st1; offset := S (offset st1) |}).
  specialize (IH st2). destruct (xorLoop x2 y2 st2 rest) as [out st3].
  simpl in *. rewrite IH. reflexivity.
Qed.

(** The state of the stream does not depend on the bytes it is applied
    to, so a second pass from the same state undoes the first. *)
Lemma xorLoop_twice (x2 y2 : list byte) (msg : list byte) :
  forall st, fst (xorLoop x2 y2 st (fst (xorLoop x2 y2 st msg))) = msg.
Proof.
  induction msg as [|m rest IH]; intros st; [reflexivity|].
  cbn [xorLoop].
  set (st1 := if (offset st =? length (t st))%nat then nextT x2 y2 st else st).
  set (st2 := {| t := t st1; ct := ct st1; offset := S (offset st1) |}).
  specialize (IH st2). destruct (xorLoop x2 y2 st2 rest) as [out st3].
  cbn [fst xorLoop]. fold st1. fold st2.
  cbn [fst] in IH. destruct (xorLoop x2 y2 st2 out) as [back st4].
  cbn [fst] in *. rewrite IH.
  rewrite xor_byte_twice by apply streamByte_range. reflexivity.
Qed.

Lemma xorCipherStream_length (x2 y2 msg : list byte) :
  length (xorCipherStream x2 y2 msg) = length msg.
Proof. apply xorLoop_length. Qed.

Lemma xorCipherStream_twice (x2 y2 msg : list byte) :
  xorCipherStream x2 y2 (xorCipherStream x2 y2 msg) = msg.
Proof. apply xorLoop_twice. Qed.

(** *** The counter *)

Lemma toInt32_congr (z : Z) : exists q, toInt32 z = z + q * 2 ^ 32.
Proof.
  exists (- ((z + 2 ^ 31) / 2 ^ 32)). unfold toInt32.
  rewrite Z.mod_eq by lia. lia.
Qed.

Lemma toInt32_byte (z : Z) (sh : Z) :
  0 <= sh <= 24 ->
  toUint8 (Z.land (Z.shiftr (toInt32 z) sh) 255) = toUint8 (z / 2 ^ sh).
Proof.
  intros Hsh. rewrite land_255, toUint8_mod, Z.shiftr_div_pow2 by lia.
  destruct (toInt32_congr z) as [q ->].
  replace (q * 2 ^ 32) with ((q * 2 ^ (32 - sh)) * 2 ^ sh).
  2:{ rewrite <- Z.mul_assoc, <- Z.pow_add_r by lia. do 2 f_equal. lia. }
  rewrite Z.div_add by (apply Z.pow_nonzero; lia).
  rewrite <- (toUint8_mod (_ + _)).
  replace (q * 2 ^ (32 - sh)) with ((q * 2 ^ (24 - sh)) * 256).
  2:{ rewrite <- Z.mul_assoc. f_equal. change 256 with (2 ^ 8).
      rewrite <- Z.pow_add_r by lia. f_equal. lia. }
  rewrite Z.mod_add by lia. apply toUint8_mod.
Qed.

Lemma bytesBE_length (w : nat) (z : Z) : length (bytesBE w z) = w.
Proof.
  revert z. induction w as [|w IH]; intros z; [reflexivity|].
  cbn [bytesBE]. rewrite length_app, IH. simpl. lia.
Qed.

Lemma bytesValue_app (a b : list byte) (acc : Z) :
  bytesValue acc (a ++ b) = bytesValue (bytesValue acc a) b.
Proof.
  revert acc. induction a as [|c a IH]; intros acc; [reflexivity|].
  simpl. apply IH.
Qed.

(** [bytesBE w z] is the big-endian form of [z] modulo [256^w]. *)
Lemma bytesValue_bytesBE (w : nat) (z : Z) :
  bytesValue 0 (bytesBE w z) = z mod 256 ^ Z.of_nat w.
Proof.
  revert z. induction w as [|w IH]; intros z.
  - simpl. rewrite Z.mod_1_r. reflexivity.
  - cbn [bytesBE]. rewrite bytesValue_app, IH. cbn [bytesValue].
    rewrite byteToZ_toUint8.
    rewrite Nat2Z.inj_succ, Z.pow_succ_r by lia.
    assert (Hp : 0 < 256 ^ Z.of_nat w) by (apply Z.pow_pos_nonneg; lia).
    rewrite Z.rem_mul_r by lia. lia.
Qed.

(** The four bytes of [ctShift] are the counter as a 32-bit big-endian
    integer. *)
Lemma ctShift_bytesBE (c : Z) : ctShift c = bytesBE 4 c.
Proof.
  unfold ctShift. cbn [bytesBE app].
  rewrite !toInt32_byte by lia.
  rewrite <- (Z.shiftr_0_r (toInt32 c)) at 1.
  rewrite toInt32_byte, Z.pow_0_r, Z.div_1_r by lia.
  rewrite !Z.div_div by lia. reflexivity.
Qed.


(** *** The blocks *)

Hypothesis sm3_length : forall m, length (sm3 m) = 32%nat.

Lemma streamInit_streamAfter (x2 y2 : list byte) :
  streamInit x2 y2 = streamAfter x2 y2 0 0.
Proof.
  unfold streamInit, nextT, streamAfter, kdfBlock, utils.concatBytes.
  cbn [ct concat]. rewrite ctShift_bytesBE, app_nil_r. reflexivity.
Qed.

Lemma nextT_streamAfter (x2 y2 : list byte) (b o : nat) :
  nextT x2 y2 (streamAfter x2 y2 b o) = streamAfter x2 y2 (S b) 0.
Proof.
  unfold nextT, streamAfter, kdfBlock, utils.concatBytes.
  cbn [ct concat]. rewrite ctShift_bytesBE, app_nil_r.
  rewrite Nat2Z.inj_succ. f_equal; [lia|].
  do 4 f_equal. lia.
Qed.

Lemma position_mod (b o : nat) : (o < 32)%nat -> ((32 * b + o) mod 32)%nat = o.
Proof. intros Ho. symmetry. apply (Nat.mod_unique _ _ b); lia. Qed.

Lemma position_div (b o : nat) : (o < 32)%nat -> ((32 * b + o) / 32)%nat = b.
Proof. intros Ho. symmetry. apply (Nat.div_unique _ _ b o); lia. Qed.

Lemma streamByte_streamAfter (x2 y2 : list byte) (b o : nat) :
  (o < 32)%nat ->
  streamByte (streamAfter x2 y2 b o) = byteToZ (kdfByte x2 y2 (32 * b + o)).
Proof.
  intros Ho. unfold streamByte, streamAfter, kdfByte. cbn [t offset].
  rewrite position_mod, position_div by exact Ho.
  rewrite (nth_error_nth' _ Byte.x00) by (unfold kdfBlock; rewrite sm3_length; exact Ho).
  rewrite land_255. apply Z.mod_small. apply byteToZ_range.
Qed.

(** One turn of the loop inside a block, and one at the end of a block. *)
Lemma xorLoop_inside (x2 y2 : list byte) (b o : nat) (m : byte) (rest : list byte) :
  (o < 32)%nat ->
  xorLoop x2 y2 (streamAfter x2 y2 b o) (m :: rest) =
  (toUint8 (Z.lxor (byteToZ m) (byteToZ (kdfByte x2 y2 (32 * b + o))))
     :: fst (xorLoop x2 y2 (streamAfter x2 y2 b (S o)) rest),
   snd (xorLoop x2 y2 (streamAfter x2 y2 b (S o)) rest)).
Proof.
  intros Ho. cbn [xorLoop].
  replace (offset (streamAfter x2 y2 b o) =? length (t (streamAfter x2 y2 b o)))%nat
    with false.
  2:{ symmetry. apply Nat.eqb_neq. cbn [offset t streamAfter].
      unfold kdfBlock. rewrite sm3_length. lia. }
  rewrite streamByte_streamAfter by exact Ho.
  change {| t := t (streamAfter x2 y2 b o); ct := ct (streamAfter x2 y2 b o);
            offset := S (offset (streamAfter x2 y2 b o)) |}
    with (streamAfter x2 y2 b (S o)).
  destruct (xorLoop x2 y2 (streamAfter x2 y2 b (S o)) rest). reflexivity.
Qed.

Lemma xorLoop_exhausted (x2 y2 : list byte) (b : nat) (m : byte) (rest : list byte) :
  xorLoop x2 y2 (streamAfter x2 y2 b 32) (m :: rest) =
  xorLoop x2 y2 (streamAfter x2 y2 (S b) 0) (m :: rest).
Proof.
  cbn [xorLoop].
  replace (offset (streamAfter x2 y2 b 32) =? length (t (streamAfter x2 y2 b 32)))%nat
    with true.
  2:{ symmetry. apply Nat.eqb_eq. cbn [offset t streamAfter].
      unfold kdfBlock. rewrite sm3_length. reflexivity. }
  replace (offset (streamAfter x2 y2 (S b) 0)
           =? length (t (streamAfter x2 y2 (S b) 0)))%nat with false.
  2:{ symmetry. apply Nat.eqb_neq. cbn [offset t streamAfter].
      unfold kdfBlock. rewrite sm3_length. lia. }
  rewrite nextT_streamAfter. reflexivity.
Qed.

Lemma xorLoop_blocks (x2 y2 : list byte) (msg : list byte) :
  forall b o, (o <= 32)%nat ->
  fst (xorLoop x2 y2 (streamAfter x2 y2 b o) msg) = xorFrom x2 y2 (32 * b + o) msg.
Proof.
  induction msg as [|m rest IH]; intros b o Ho; [reflexivity|].
  assert (Hcase : (o < 32 \/ o = 32)%nat) by lia.
  destruct Hcase as [Hlt | ->].
  - rewrite xorLoop_inside by exact Hlt. cbn [fst xorFrom].
    rewrite IH by lia. do 2 f_equal. lia.
  - rewrite xorLoop_exhausted, xorLoop_inside by lia. cbn [fst xorFrom].
    rewrite IH by lia. f_equal; [do 4 f_equal; lia | f_equal; lia].
Qed.

Lemma xorLoop_final (x2 y2 : list byte) (msg : list byte) :
  forall b o, (o <= 32)%nat -> msg <> [] ->
  snd (xorLoop x2 y2 (streamAfter x2 y2 b o) msg) =
  streamAfter x2 y2 ((32 * b + o + length msg - 1) / 32)
                    ((32 * b + o + length msg - 1) mod 32 + 1).
Proof.
  induction msg as [|m rest IH]; intros b o Ho Hne; [congruence|].
  assert (Hstep : forall b' o', (o' < 32)%nat -> (32 * b' + o' = 32 * b + o)%nat ->
            snd (xorLoop x2 y2 (streamAfter x2 y2 b' o') (m :: rest)) =
            streamAfter x2 y2 ((32 * b + o + length (m :: rest) - 1) / 32)
                              ((32 * b + o + length (m :: rest) - 1) mod 32 + 1)).
  { intros b' o' Ho' Hpos. rewrite xorLoop_inside by exact Ho'. cbn [snd length].
    destruct rest as [|m' rest'].
    - cbn [xorLoop snd length].
      replace (32 * b + o + 1 - 1)%nat with (32 * b' + o')%nat by lia.
      rewrite position_mod, position_div by exact Ho'.
      f_equal; lia.
    - rewrite IH by (try lia; congruence).
      replace (32 * b' + S o' + length (m' :: rest') - 1)%nat
        with (32 * b + o + S (length (m' :: rest')) - 1)%nat by lia.
      reflexivity. }
  assert (Hcase : (o < 32 \/ o = 32)%nat) by lia.
  destruct Hcase as [Hlt | ->].
  - apply Hstep; [exact Hlt | reflexivity].
  - rewrite xorLoop_exhausted. apply Hstep; lia.
Qed.

Lemma nth_xorFrom (x2 y2 : list byte) (msg : list byte) :
  forall pos j, (j < length msg)%nat ->
  nth j (xorFrom x2 y2 pos msg) Byte.x00 =
  toUint8 (Z.lxor (byteToZ (nth j msg Byte.x00)) (byteToZ (kdfByte x2 y2 (pos + j)))).
Proof.
  induction msg as [|m rest IH]; intros pos j Hj; [simpl in Hj; lia|].
  destruct j as [|j]; cbn [xorFrom nth].
  - rewrite Nat.add_0_r. reflexivity.
  - rewrite IH by (simpl in Hj; lia). do 4 f_equal. lia.
Qed.

(** ** Numbers in hexadecimal *)

Lemma hexFixed_length (w : nat) (z : Z) : length (hexFixed w z) = w.
Proof.
  revert z. induction w as [|w IH]; intros z; [reflexivity|].
  cbn [hexFixed]. rewrite length_app, IH. simpl. lia.
Qed.

Lemma hexFixed_lowerHex (w : nat) (z : Z) : isLowerHex (hexFixed w z).
Proof.
  revert z. induction w as [|w IH]; intros z; [constructor|].
  cbn [hexFixed]. apply isLowerHex_app; [apply IH|].
  repeat constructor. exists (z mod 16). split; [|reflexivity].
  apply Z.mod_pos_bound. lia.
Qed.

Lemma hexDigitsValue_app (s u : list ascii) :
  forall acc,
  hexDigitsValue acc (s ++ u) =
  match hexDigitsValue acc s with
  | Some v => hexDigitsValue v u
  | None => None
  end.
Proof.
  induction s as [|c s IH]; intros acc; [reflexivity|].
  cbn [app hexDigitsValue]. destruct (hexValue c); [apply IH | reflexivity].
Qed.

Lemma hexDigitsValue_hexFixed (w : nat) :
  forall z acc,
  hexDigitsValue acc (hexFixed w z) = Some (acc * 16 ^ Z.of_nat w + z mod 16 ^ Z.of_nat w).
Proof.
  induction w as [|w IH]; intros z acc.
  - simpl. rewrite Z.mod_1_r. f_equal. lia.
  - cbn [hexFixed]. rewrite hexDigitsValue_app, IH. cbn [hexDigitsValue].
    rewrite hexValue_hexDigit by (apply Z.mod_pos_bound; lia).
    f_equal. rewrite Nat2Z.inj_succ, Z.pow_succ_r by lia.
    assert (Hp : 0 < 16 ^ Z.of_nat w) by (apply Z.pow_pos_nonneg; lia).
    rewrite Z.rem_mul_r by lia. lia.
Qed.

Lemma hexToNumber_lowerHex (s : list ascii) :
  isLowerHex s -> s <> [] ->
  utils.hexToNumber s =
  match hexDigitsValue 0 s with
  | Some z => Ok z
  | None => Throw SyntaxError
  end.
Proof.
  intros Hs Hne. destruct s as [|c s]; [congruence|].
  unfold utils.hexToNumber. rewrite trimEnd_lowerHex by exact Hs. reflexivity.
Qed.

(** [hexToNumber] reads a field of [w] digits back. *)
Lemma hexToNumber_hexFixed (w : nat) (z : Z) :
  (0 < w)%nat -> utils.hexToNumber (hexFixed w z) = Ok (z mod 16 ^ Z.of_nat w).
Proof.
  intros Hw. rewrite hexToNumber_lowerHex.
  - rewrite hexDigitsValue_hexFixed. reflexivity.
  - apply hexFixed_lowerHex.
  - intros E. apply (f_equal (@length ascii)) in E.
    rewrite hexFixed_length in E. simpl in E. lia.
Qed.

Lemma hexFixed_zero (w : nat) : hexFixed w 0 = repeat "0"%char w.
Proof.
  induction w as [|w IH]; [reflexivity|].
  cbn [hexFixed]. change (0 / 16) with 0. rewrite IH.
  change [hexDigit (0 mod 16)] with (repeat "0"%char 1).
  rewrite <- repeat_app. f_equal. lia.
Qed.

(** More digits than the number needs are zeros in front. *)
Lemma hexFixed_pad (w : nat) :
  forall j z, 0 <= z < 16 ^ Z.of_nat w ->
  hexFixed (j + w) z = repeat "0"%char j ++ hexFixed w z.
Proof.
  induction w as [|w IH]; intros j z Hz.
  - simpl in Hz. replace z with 0 by lia.
    rewrite Nat.add_0_r, app_nil_r. apply hexFixed_zero.
  - replace (j + S w)%nat with (S (j + w)) by lia. cbn [hexFixed].
    rewrite IH, app_assoc; [reflexivity|].
    rewrite Nat2Z.inj_succ, Z.pow_succ_r in Hz by lia.
    split; [apply Z.div_pos; lia | apply Z.div_lt_upper_bound; lia].
Qed.

Lemma hexWidth_bound (z : Z) : 0 <= z -> z < 16 ^ Z.of_nat (hexWidth z).
Proof.
  intros Hz. unfold hexWidth.
  destruct (Z.eq_dec z 0) as [->|Hnz]; [reflexivity|].
  pose proof (Z.log2_nonneg z) as Hl.
  assert (Hq : 0 <= Z.log2 z / 4) by (apply Z.div_pos; lia).
  rewrite Nat2Z.inj_succ, Z2Nat.id by exact Hq.
  change 16 with (2 ^ 4). rewrite <- Z.pow_mul_r by lia.
  apply Z.log2_lt_pow2; [lia|].
  pose proof (Z.mul_div_le (Z.log2 z) 4 ltac:(lia)).
  pose proof (Z.mod_pos_bound (Z.log2 z) 4 ltac:(lia)).
  pose proof (Z.div_mod (Z.log2 z) 4 ltac:(lia)). lia.
Qed.

Lemma hexWidth_le (z : Z) (w : nat) :
  0 <= z < 16 ^ Z.of_nat w -> (0 < w)%nat -> (hexWidth z <= w)%nat.
Proof.
  intros Hz Hw. unfold hexWidth.
  destruct (Z.eq_dec z 0) as [->|Hnz]; [simpl; lia|].
  assert (Hl : Z.log2 z < 4 * Z.of_nat w).
  { apply Z.log2_lt_pow2; [lia|].
    rewrite Z.pow_mul_r by lia. exact (proj2 Hz). }
  assert (Hq : Z.log2 z / 4 < Z.of_nat w) by (apply Z.div_lt_upper_bound; lia).
  pose proof (Z.log2_nonneg z).
  assert (0 <= Z.log2 z / 4) by (apply Z.div_pos; lia).
  lia.
Qed.

(** [numberToHexUnpadded] gives an even number of digits that hold the
    number. *)
Lemma numberToHexUnpadded_fixed (z : Z) (w : nat) :
  0 <= z < 16 ^ Z.of_nat w -> (0 < w)%nat -> Nat.even w = true ->
  exists v, utils.numberToHexUnpadded z = hexFixed v z
            /\ (v <= w)%nat /\ (0 < v)%nat /\ z < 16 ^ Z.of_nat v.
Proof.
  intros Hz Hw Hev. unfold utils.numberToHexUnpadded, toString16.
  rewrite hexFixed_length.
  pose proof (hexWidth_bound z (proj1 Hz)) as Hb.
  pose proof (hexWidth_le z w Hz Hw) as Hle.
  destruct (Nat.odd (hexWidth z)) eqn:Hodd.
  - exists (S (hexWidth z)). split; [|split; [|split]].
    + change (S (hexWidth z)) with (1 + hexWidth z)%nat.
      rewrite hexFixed_pad by lia. reflexivity.
    + assert (hexWidth z <> w).
      { intros E. rewrite E, <- Nat.negb_even, Hev in Hodd. discriminate. }
      lia.
    + lia.
    + rewrite Nat2Z.inj_succ, Z.pow_succ_r by lia. lia.
  - exists (hexWidth z). split; [reflexivity|]. split; [exact Hle|].
    split; [unfold hexWidth; lia | exact Hb].
Qed.

Lemma leftPad_hexFixed (v w : nat) (z : Z) :
  (v <= w)%nat -> 0 <= z < 16 ^ Z.of_nat v ->
  leftPad (hexFixed v z) w = hexFixed w z.
Proof.
  intros Hv Hz. unfold leftPad. rewrite hexFixed_length.
  destruct (w <=? v)%nat eqn:E.
  - apply Nat.leb_le in E. replace w with v by lia. reflexivity.
  - replace w with ((w - v) + v)%nat at 2 by lia.
    rewrite hexFixed_pad by exact Hz. reflexivity.
Qed.

(** A 256-bit number, padded to 64 digits, is the fixed field of 64
    digits. *)
Lemma leftPad_number (z : Z) :
  0 <= z < 2 ^ 256 ->
  leftPad (utils.numberToHexUnpadded z) 64 = hexFixed 64 z.
Proof.
  intros Hz.
  destruct (numberToHexUnpadded_fixed z 64) as [v [-> [Hv [_ Hb]]]]; try reflexivity.
  - exact Hz.
  - lia.
  - apply leftPad_hexFixed; [exact Hv | lia].
Qed.

Lemma hexFixed_bytesBE (w : nat) :
  forall z, hexFixed (2 * w) z = bytesToHex (bytesBE w z).
Proof.
  induction w as [|w IH]; intros z; [reflexivity|].
  replace (2 * S w)%nat with (S (S (2 * w))) by lia.
  cbn [hexFixed bytesBE]. rewrite bytesToHex_app, <- IH.
  rewrite Z.div_div by lia. rewrite <- app_assoc. f_equal.
  cbn [bytesToHex flat_map app]. unfold byteHex. rewrite byteToZ_toUint8.
  rewrite app_nil_r. f_equal; [|f_equal].
  - f_equal. change 256 with (16 * 16).
    rewrite Z.rem_mul_r by lia.
    rewrite Z.mul_comm, Z.div_add by lia.
    rewrite (Z.div_small (z mod 16)) by (apply Z.mod_pos_bound; lia). lia.
  - f_equal. change 256 with (16 * 16).
    rewrite Z.rem_mul_r by lia.
    rewrite Z.mul_comm, Z.mod_add by lia. rewrite Z.mod_mod by lia. reflexivity.
Qed.

(** The bytes that [doEncrypt] and [doDecrypt] make of a coordinate are
    its 32 bytes, most significant first. *)
Lemma coordBytes_bytesBE (v : Z) : 0 <= v < 2 ^ 256 -> coordBytes v = bytesBE 32 v.
Proof.
  intros Hv. unfold coordBytes. rewrite leftPad_number by exact Hv.
  change 64%nat with (2 * 32)%nat. rewrite hexFixed_bytesBE.
  apply hexToArray_bytesToHex.
Qed.

(** ** Substrings *)

Lemma substring_firstn_skipn (s : list ascii) (i j : nat) :
  (i <= j <= length s)%nat ->
  substring s (Z.of_nat i) (Z.of_nat j) = firstn (j - i) (skipn i s).
Proof.
  intros H. unfold substring, clampIndex. cbv zeta.
  replace (Z.max 0 (Z.min (Z.of_nat i) (Z.of_nat (length s)))) with (Z.of_nat i) by lia.
  replace (Z.max 0 (Z.min (Z.of_nat j) (Z.of_nat (length s)))) with (Z.of_nat j) by lia.
  replace (Z.min (Z.of_nat i) (Z.of_nat j)) with (Z.of_nat i) by lia.
  replace (Z.max (Z.of_nat i) (Z.of_nat j)) with (Z.of_nat j) by lia.
  replace (Z.to_nat (Z.of_nat j - Z.of_nat i)) with (j - i)%nat by lia.
  rewrite Nat2Z.id. reflexivity.
Qed.

Lemma substring_head (a b : list ascii) :
  substring (a ++ b) 0 (Z.of_nat (length a)) = a.
Proof.
  rewrite (substring_firstn_skipn _ 0) by (rewrite length_app; lia).
  cbn [skipn]. rewrite Nat.sub_0_r, firstn_app, Nat.sub_diag, firstn_all.
  cbn [firstn]. apply app_nil_r.
Qed.

Lemma substringFrom_tail (a b : list ascii) :
  substringFrom (a ++ b) (Z.of_nat (length a)) = b.
Proof.
  unfold substringFrom.
  rewrite substring_firstn_skipn by (rewrite length_app; lia).
  rewrite skipn_app, skipn_all, Nat.sub_diag. cbn [skipn app].
  rewrite length_app. apply firstn_all2. lia.
Qed.

Lemma substring_middle (a b c : list ascii) :
  substring (a ++ b ++ c) (Z.of_nat (length a)) (Z.of_nat (length a + length b)) = b.
Proof.
  rewrite substring_firstn_skipn by (rewrite !length_app; lia).
  rewrite skipn_app, skipn_all, Nat.sub_diag. cbn [skipn app].
  replace (length a + length b - length a)%nat with (length b) by lia.
  rewrite firstn_app, Nat.sub_diag, firstn_all. cbn [firstn]. apply app_nil_r.
Qed.

(** ** Modular arithmetic *)

Lemma jsMod_mod (a b : Z) : 0 < b -> jsMod a b = a mod b.
Proof.
  intros Hb. unfold jsMod.
  pose proof (Z.quot_rem' a b) as Hq.
  pose proof (Z.rem_bound_abs a b ltac:(lia)) as Hr.
  destruct (0 <=? Z.rem a b) eqn:E.
  - apply Z.leb_le in E. apply (Z.mod_unique a b (Z.quot a b)); lia.
  - apply Z.leb_gt in E. apply (Z.mod_unique a b (Z.quot a b - 1)); lia.
Qed.

Lemma n_positive : 0 < CURVE.n.
Proof. reflexivity. Qed.

Lemma p_positive : 0 < CURVE.p.
Proof. reflexivity. Qed.

Lemma n_below_2_256 : CURVE.n < 2 ^ 256.
Proof. reflexivity. Qed.

Lemma p_below_2_256 : CURVE.p < 2 ^ 256.
Proof. reflexivity. Qed.

Lemma field_add_mod (a b : Z) : field.add a b = (a + b) mod CURVE.n.
Proof. apply jsMod_mod, n_positive. Qed.

Lemma field_mul_mod (a b : Z) : field.mul a b = (a * b) mod CURVE.n.
Proof. apply jsMod_mod, n_positive. Qed.

Lemma field_add_range (a b : Z) : 0 <= field.add a b < CURVE.n.
Proof. rewrite field_add_mod. apply Z.mod_pos_bound, n_positive. Qed.

Lemma field_mul_range (a b : Z) : 0 <= field.mul a b < CURVE.n.
Proof. rewrite field_mul_mod. apply Z.mod_pos_bound, n_positive. Qed.

(** The loop of [invert] keeps the two Bezout equations. *)
Lemma invertLoop_bezout (N M : Z) (fuel : nat) :
  forall a b x y u v g c,
  b = x * N + y * M -> a = u * N + v * M ->
  invertLoop fuel a b x y u v = Ok (g, c) ->
  exists c', g = c * N + c' * M.
Proof.
  induction fuel as [|fuel IH]; intros a b x y u v g c Hb Ha Hrun; [discriminate|].
  cbn [invertLoop] in Hrun.
  destruct (a =? 0) eqn:Ea.
  - injection Hrun as <- <-. exists y. exact Hb.
  - pose proof (Z.quot_rem' b a) as Hqr.
    unfold Z.quot, Z.rem in Hqr.
    destruct (Z.quotrem b a) as [q r]. cbn [fst snd] in Hqr.
    apply (IH r a u v (x - u * q) (y - v * q) g c); [exact Ha | | exact Hrun].
    rewrite Hb, Ha in Hqr. lia.
Qed.

(** What [invert] returns is an inverse. *)
Lemma invert_sound (number modulo r : Z) :
  invert number modulo = Ok r ->
  0 <= r < modulo /\ (number * r) mod modulo = 1 mod modulo.
Proof.
  unfold invert.
  destruct ((number =? 0) || (modulo <=? 0)) eqn:E; [discriminate|].
  apply orb_false_elim in E. destruct E as [_ Hm]. apply Z.leb_gt in Hm.
  destruct (invertLoop (invertFuel modulo) (jsMod number modulo) modulo 0 1 1 0)
    as [[g c]|] eqn:Hrun; [|discriminate].
  cbn [bind]. destruct (g =? 1) eqn:Eg; [|discriminate].
  apply Z.eqb_eq in Eg. subst g. intros Hr. injection Hr as <-.
  rewrite jsMod_mod by exact Hm.
  split; [apply Z.mod_pos_bound; exact Hm|].
  destruct (invertLoop_bezout (jsMod number modulo) modulo (invertFuel modulo)
              (jsMod number modulo) modulo 0 1 1 0 1 c
              ltac:(lia) ltac:(lia) Hrun) as [c' Hbez].
  rewrite jsMod_mod in Hbez by exact Hm.
  rewrite Z.mul_mod_idemp_r by lia.
  rewrite <- (Z.mul_mod_idemp_l number) by lia.
  replace (number mod modulo * c) with (1 + (- c') * modulo) by lia.
  apply Z.mod_add. lia.
Qed.

(** The loop of [invert] ends within its fuel: the product [a b] halves
    at every step at least. *)
Lemma invertLoop_ends (fuel : nat) :
  forall a b x y u v,
  0 <= a < b -> a * b < 2 ^ (Z.of_nat fuel - 1) ->
  exists g c, invertLoop fuel a b x y u v = Ok (g, c).
Proof.
  induction fuel as [|fuel IH]; intros a b x y u v Hab Hprod.
  - cbn in Hprod. nia.
  - cbn [invertLoop]. destruct (a =? 0) eqn:Ea; [eauto|].
    apply Z.eqb_neq in Ea.
    pose proof (Z.quot_rem' b a) as Hqr.
    pose proof (Z.rem_bound_pos b a ltac:(lia) ltac:(lia)) as Hr.
    pose proof (Z.quot_pos b a ltac:(lia) ltac:(lia)) as Hq0.
    assert (Hq : 1 <= Z.quot b a).
    { destruct (Z.eq_dec (Z.quot b a) 0) as [E|E]; [|lia]. rewrite E in Hqr. lia. }
    unfold Z.quot, Z.rem in Hqr, Hr, Hq.
    destruct (Z.quotrem b a) as [q r]. cbn [fst snd] in Hqr, Hr, Hq.
    apply IH; [lia|].
    assert (Hf : (1 <= fuel)%nat).
    { destruct fuel; [|lia]. cbn in Hprod. nia. }
    replace (Z.of_nat (S fuel) - 1) with (Z.succ (Z.of_nat fuel - 1)) in Hprod by lia.
    rewrite Z.pow_succ_r in Hprod by lia.
    nia.
Qed.

(** [invert] does not run out of fuel. *)
Lemma invert_ends (number modulo : Z) :
  invert number modulo <> Throw OutOfFuel.
Proof.
  unfold invert.
  destruct ((number =? 0) || (modulo <=? 0)) eqn:E; [discriminate|].
  apply orb_false_elim in E. destruct E as [_ Hm]. apply Z.leb_gt in Hm.
  pose proof (Z.mod_pos_bound number modulo Hm) as Ha.
  rewrite <- (jsMod_mod number modulo Hm) in Ha.
  destruct (invertLoop_ends (invertFuel modulo) (jsMod number modulo) modulo 0 1 1 0 Ha)
    as [g [c Hrun]].
  - unfold invertFuel.
    pose proof (Z.log2_spec modulo Hm) as Hlog.
    pose proof (Z.log2_nonneg modulo) as Hl.
    replace (Z.of_nat (2 * Z.to_nat (Z.log2 modulo) + 3) - 1)
      with (Z.succ (Z.log2 modulo) + Z.succ (Z.log2 modulo)) by lia.
    rewrite Z.pow_add_r by lia. nia.
  - rewrite Hrun. cbn [bind]. destruct (g =? 1); discriminate.
Qed.

(** ** Points and their encoding *)

Lemma strictPairs_bytesToHex (bytes : list byte) :
  utils.strictPairs (utils.bytesToHex bytes) = Some bytes.
Proof.
  induction bytes as [|b bytes IH]; [reflexivity|].
  pose proof (byteToZ_range b) as Hb.
  change (utils.bytesToHex (b :: bytes)) with (byteHex b ++ utils.bytesToHex bytes).
  unfold byteHex. cbn [app utils.strictPairs].
  rewrite !hexValue_hexDigit, IH.
  - rewrite <- Z.div_mod by lia. rewrite toUint8_byteToZ. reflexivity.
  - apply Z.mod_pos_bound. lia.
  - split; [apply Z.div_pos; lia | apply Z.div_lt_upper_bound; lia].
Qed.

Lemma isValid_range (v : Z) : Fp.isValid v = true -> 0 <= v < CURVE.p.
Proof.
  unfold Fp.isValid, Fp.ORDER. intros H. apply andb_prop in H.
  destruct H as [H1 H2]. apply Z.leb_le in H1. apply Z.ltb_lt in H2. lia.
Qed.

(** A valid point has its coordinates in the field, and is not (0, 0). *)
Lemma isValidPoint_affine (P : ProjPointType) :
  ProjectivePoint.isValidPoint P = true ->
  exists px py, P = Affine px py /\ 0 <= px < CURVE.p /\ 0 <= py < CURVE.p
                /\ (px =? 0) && (py =? 0) = false.
Proof.
  destruct P as [|px py]; [discriminate|]. cbn [ProjectivePoint.isValidPoint].
  intros H. apply andb_prop in H. destruct H as [H Hcurve].
  apply andb_prop in H. destruct H as [Hx Hy].
  exists px, py. split; [reflexivity|].
  split; [apply isValid_range, Hx|]. split; [apply isValid_range, Hy|].
  destruct (px =? 0) eqn:Ex; [|reflexivity].
  destruct (py =? 0) eqn:Ey; [|reflexivity].
  apply Z.eqb_eq in Ex, Ey. subst px py.
  vm_compute in Hcurve. discriminate.
Qed.

Lemma bytesValue_small (w : nat) (z : Z) :
  0 <= z < 256 ^ Z.of_nat w -> bytesValue 0 (bytesBE w z) = z.
Proof.
  intros Hz. rewrite bytesValue_bytesBE. apply Z.mod_small. exact Hz.
Qed.

(** The uncompressed encoding of a valid point: [04], then the two
    coordinates on 32 bytes each. *)
Lemma toRawBytes_valid (P : ProjPointType) :
  ProjectivePoint.isValidPoint P = true ->
  ProjectivePoint.toRawBytes P false =
  Ok (Byte.x04 :: bytesBE 32 (ProjectivePoint.x P) ++ bytesBE 32 (ProjectivePoint.y P)).
Proof.
  intros Hv. unfold ProjectivePoint.toRawBytes, ProjectivePoint.assertValidity.
  rewrite Hv. cbn [bind]. unfold utils.concatBytes, utils.numberToBytesBE, CURVE.BYTES.
  cbn [concat app]. rewrite app_nil_r. reflexivity.
Qed.

Lemma toHex_valid (P : ProjPointType) :
  ProjectivePoint.isValidPoint P = true ->
  ProjectivePoint.toHex P false =
  Ok (str "04" ++ hexFixed 64 (ProjectivePoint.x P) ++ hexFixed 64 (ProjectivePoint.y P)).
Proof.
  intros Hv. unfold ProjectivePoint.toHex. rewrite toRawBytes_valid by exact Hv.
  cbn [bind]. f_equal.
  change (utils.bytesToHex ?l) with (bytesToHex l).
  change (Byte.x04 :: ?l) with ([Byte.x04] ++ l).
  rewrite !bytesToHex_app. change 64%nat with (2 * 32)%nat.
  rewrite !hexFixed_bytesBE. reflexivity.
Qed.

(** [fromHex] reads the uncompressed encoding of a valid point back. *)
Lemma fromHex_uncompressed (P : ProjPointType) :
  ProjectivePoint.isValidPoint P = true ->
  ProjectivePoint.fromHex
    (str "04" ++ hexFixed 64 (ProjectivePoint.x P) ++ hexFixed 64 (ProjectivePoint.y P))
  = Ok P.
Proof.
  intros Hv.
  destruct (isValidPoint_affine P Hv) as [px [py [-> [Hx [Hy Hnz]]]]].
  cbn [ProjectivePoint.x ProjectivePoint.y].
  pose proof p_below_2_256 as Hp.
  replace (str "04" ++ hexFixed 64 px ++ hexFixed 64 py)
    with (utils.bytesToHex (Byte.x04 :: bytesBE 32 px ++ bytesBE 32 py)).
  2:{ change (utils.bytesToHex ?l) with (bytesToHex l).
      change (Byte.x04 :: ?l) with ([Byte.x04] ++ l).
      rewrite !bytesToHex_app. change 64%nat with (2 * 32)%nat.
      rewrite !hexFixed_bytesBE. reflexivity. }
  unfold ProjectivePoint.fromHex, utils.hexToBytes.
  rewrite strictPairs_bytesToHex. cbn [bind].
  unfold ProjectivePoint.fromBytes.
  replace (length (Byte.x04 :: bytesBE 32 px ++ bytesBE 32 py)) with 65%nat
    by (cbn [length]; rewrite length_app, !bytesBE_length; reflexivity).
  change (byteToZ Byte.x04) with 4. unfold CURVE.BYTES.
  cbn [Nat.eqb Nat.mul Nat.add andb orb Z.eqb Pos.eqb bind].
  rewrite firstn_app, bytesBE_length, Nat.sub_diag, firstn_all2
    by (rewrite bytesBE_length; lia).
  cbn [firstn]. rewrite app_nil_r.
  rewrite skipn_app, bytesBE_length, Nat.sub_diag, skipn_all2
    by (rewrite bytesBE_length; lia).
  cbn [skipn app]. unfold utils.bytesToNumberBE.
  change (2 ^ 256) with (256 ^ Z.of_nat 32) in Hp.
  rewrite !bytesValue_small by lia.
  unfold ProjectivePoint.fromAffine.
  replace (Fp.isValid px) with true
    by (symmetry; unfold Fp.isValid, Fp.ORDER; apply andb_true_intro; split;
        [apply Z.leb_le | apply Z.ltb_lt]; lia).
  replace (Fp.isValid py) with true
    by (symmetry; unfold Fp.isValid, Fp.ORDER; apply andb_true_intro; split;
        [apply Z.leb_le | apply Z.ltb_lt]; lia).
  cbn [negb orb]. rewrite Hnz. cbn [bind].
  unfold ProjectivePoint.assertValidity. rewrite Hv. reflexivity.
Qed.

Lemma hexToBytes_hexFixed (w : nat) (z : Z) :
  utils.hexToBytes (hexFixed (2 * w) z) = Ok (bytesBE w z).
Proof.
  unfold utils.hexToBytes. rewrite hexFixed_bytesBE.
  change (bytesToHex ?l) with (utils.bytesToHex l).
  rewrite strictPairs_bytesToHex. reflexivity.
Qed.

(** [sm2Curve.getPublicKey] on the 64 digits of a scalar [d]: the
    uncompressed encoding of [d G]. *)
Lemma getPublicKey_scalar (d : Z) (P : ProjPointType) :
  ProjectivePoint.multiply ProjectivePoint.BASE d = Ok P ->
  ProjectivePoint.isValidPoint P = true ->
  sm2Curve.getPublicKey (hexFixed 64 d) false =
  Ok (Byte.x04 :: bytesBE 32 (ProjectivePoint.x P) ++ bytesBE 32 (ProjectivePoint.y P)).
Proof.
  intros Hmul Hv. unfold sm2Curve.getPublicKey.
  change 64%nat with (2 * 32)%nat. rewrite hexToBytes_hexFixed.
  rewrite bytesBE_length. unfold CURVE.BYTES. cbn [Nat.eqb negb].
  assert (Hd : 1 <= d < CURVE.n).
  { unfold ProjectivePoint.multiply in Hmul.
    destruct ((1 <=? d) && (d <? CURVE.n)) eqn:E; [|discriminate].
    apply andb_prop in E. destruct E as [E1 E2].
    apply Z.leb_le in E1. apply Z.ltb_lt in E2. lia. }
  unfold utils.bytesToNumberBE. rewrite bytesValue_small.
  - rewrite Hmul. cbn [bind]. apply toRawBytes_valid, Hv.
  - pose proof n_below_2_256. change (256 ^ Z.of_nat 32) with (2 ^ 256). lia.
Qed.

Lemma leftPad_long (s : list ascii) (num : nat) :
  (num <= length s)%nat -> leftPad s num = s.
Proof.
  intros H. unfold leftPad. apply Nat.leb_le in H. rewrite H. reflexivity.
Qed.

Lemma uncompressed_hex (x y : Z) :
  utils.bytesToHex (Byte.x04 :: bytesBE 32 x ++ bytesBE 32 y) =
  str "04" ++ hexFixed 64 x ++ hexFixed 64 y.
Proof.
  change (utils.bytesToHex ?l) with (bytesToHex l).
  change (Byte.x04 :: ?l) with ([Byte.x04] ++ l).
  rewrite !bytesToHex_app. change 64%nat with (2 * 32)%nat.
  rewrite !hexFixed_bytesBE. reflexivity.
Qed.

Lemma uncompressed_hex_length (x y : Z) :
  length (str "04" ++ hexFixed 64 x ++ hexFixed 64 y) = 130%nat.
Proof. rewrite !length_app, !hexFixed_length. reflexivity. Qed.

(** ** Encryption *)

Lemma multiply_range (P Q : ProjPointType) (sc : Z) :
  ProjectivePoint.multiply P sc = Ok Q -> 1 <= sc < CURVE.n.
Proof.
  unfold ProjectivePoint.multiply.
  destruct ((1 <=? sc) && (sc <? CURVE.n)) eqn:E; [|discriminate].
  apply andb_prop in E. destruct E as [E1 E2].
  apply Z.leb_le in E1. apply Z.ltb_lt in E2. lia.
Qed.

Lemma multiply_in_range (P : ProjPointType) (sc : Z) :
  1 <= sc < CURVE.n ->
  ProjectivePoint.multiply P sc = Ok (ProjectivePoint.multiplyPos (Z.to_pos sc) P).
Proof.
  intros H. unfold ProjectivePoint.multiply.
  replace ((1 <=? sc) && (sc <? CURVE.n)) with true; [reflexivity|].
  symmetry. apply andb_true_intro. split; [apply Z.leb_le | apply Z.ltb_lt]; lia.
Qed.

Lemma hexToNumber_scalar (v : Z) :
  0 <= v < 2 ^ 256 -> utils.hexToNumber (hexFixed 64 v) = Ok v.
Proof.
  intros Hv. rewrite hexToNumber_hexFixed by lia.
  f_equal. apply Z.mod_small. change (16 ^ Z.of_nat 64) with (2 ^ 256). exact Hv.
Qed.

(** The key pair for the random scalar [rnd]. *)
Lemma generateKeyPairHex_valid (rnd : Z) (K : ProjPointType) :
  ProjectivePoint.multiply ProjectivePoint.BASE rnd = Ok K ->
  ProjectivePoint.isValidPoint K = true ->
  generateKeyPairHex rnd =
  Ok {| keypair_privateKey := hexFixed 64 rnd;
        keypair_publicKey := str "04" ++ fieldC1 K |}.
Proof.
  intros Hmul Hv. unfold generateKeyPairHex, utils.numberToBytesBE, CURVE.BYTES.
  change (utils.bytesToHex (bytesBE 32 rnd)) with (bytesToHex (bytesBE 32 rnd)).
  rewrite <- (hexFixed_bytesBE 32). change (2 * 32)%nat with 64%nat.
  rewrite (getPublicKey_scalar rnd K Hmul Hv). cbn [bind].
  rewrite uncompressed_hex.
  rewrite !leftPad_long;
    [reflexivity | rewrite uncompressed_hex_length; lia | rewrite hexFixed_length; lia].
Qed.

Lemma fieldC1_length (K : ProjPointType) : length (fieldC1 K) = 128%nat.
Proof. unfold fieldC1. rewrite length_app, !hexFixed_length. reflexivity. Qed.

(** What [doEncrypt] returns for a recipient point [P] and a random scalar
    [rnd] with a valid point [K = rnd G]. *)
Lemma doEncrypt_fields (rnd : Z) (msg : Message) (publicKey : PublicKey)
    (cipherMode : Z) (asn1 : bool) (P K : ProjPointType) :
  keyPoint publicKey = Ok P ->
  ProjectivePoint.multiply ProjectivePoint.BASE rnd = Ok K ->
  ProjectivePoint.isValidPoint K = true ->
  let Q := ProjectivePoint.multiplyPos (Z.to_pos rnd) P in
  let c1 := fieldC1 K in
  let c2 := fieldC2 Q (messageBytes msg) in
  let c3 := fieldC3 Q (messageBytes msg) in
  doEncrypt rnd msg publicKey cipherMode asn1 =
  Ok (if asn1 then
        if cipherMode =? C1C2C3
        then encodeEnc (ProjectivePoint.x K) (ProjectivePoint.y K) c2 c3
        else encodeEnc (ProjectivePoint.x K) (ProjectivePoint.y K) c3 c2
      else
        if cipherMode =? C1C2C3 then c1 ++ c2 ++ c3 else c1 ++ c3 ++ c2).
Proof.
  intros Hkey Hmul Hv Q c1 c2 c3. unfold doEncrypt.
  pose proof (multiply_range _ _ _ Hmul) as Hr. pose proof n_below_2_256 as Hn.
  rewrite Hkey. cbn [bind].
  rewrite (generateKeyPairHex_valid rnd K Hmul Hv). cbn [bind keypair_privateKey keypair_publicKey].
  rewrite hexToNumber_scalar by lia. cbn [bind].
  rewrite multiply_in_range by exact Hr. cbn [bind].
  replace (128 <? length (str "04" ++ fieldC1 K))%nat with true
    by (rewrite length_app, fieldC1_length; reflexivity).
  replace (Z.of_nat (length (str "04" ++ fieldC1 K)) - 128)
    with (Z.of_nat (length (str "04")))
    by (rewrite length_app, fieldC1_length; reflexivity).
  rewrite substringFrom_tail.
  destruct asn1.
  - unfold fieldC1. rewrite (fromHex_uncompressed K Hv). cbn [bind]. reflexivity.
  - reflexivity.
Qed.

Lemma fieldC3_length (Q : ProjPointType) (M : list byte) :
  length (fieldC3 Q M) = 64%nat.
Proof. unfold fieldC3. rewrite bytesToHex_length, sm3_length. reflexivity. Qed.

Lemma fieldC2_length (Q : ProjPointType) (M : list byte) :
  length (fieldC2 Q M) = (2 * length M)%nat.
Proof.
  unfold fieldC2. rewrite bytesToHex_length, xorCipherStream_length. reflexivity.
Qed.

(** ** Decryption *)

Lemma ascii_eqb_list_true (s u : list ascii) :
  ascii_eqb_list s u = true <-> s = u.
Proof.
  unfold ascii_eqb_list. destruct (list_eq_dec ascii_dec s u); split; congruence.
Qed.

Lemma ascii_eqb_list_false (s u : list ascii) :
  ascii_eqb_list s u = false <-> s <> u.
Proof.
  unfold ascii_eqb_list. destruct (list_eq_dec ascii_dec s u); split; congruence.
Qed.

(** [doDecrypt] after its parsing steps. *)
Lemma doDecrypt_parsed (encryptData privateKey : list ascii) (cipherMode : Z)
    (output : Output) (asn1 : bool) (d : Z) (c1 p : ProjPointType)
    (c2 c3 : list ascii) :
  utils.hexToNumber privateKey = Ok d ->
  parseCipher encryptData cipherMode asn1 = Ok (c1, c2, c3) ->
  ProjectivePoint.multiply c1 d = Ok p ->
  let x2 := coordBytes (ProjectivePoint.x p) in
  let y2 := coordBytes (ProjectivePoint.y p) in
  let M := xorCipherStream x2 y2 (hexToArray c2) in
  let checkC3 := arrayToHex (sm3 (utils.concatBytes [x2; M; y2])) in
  doDecrypt encryptData privateKey cipherMode output asn1 =
  if ascii_eqb_list checkC3 (toLowerCase c3)
  then recovered output M else Ok (emptyResult output).
Proof.
  intros Hd Hparse Hmul x2 y2 M checkC3. unfold doDecrypt.
  rewrite Hd. cbn [bind]. rewrite Hparse. cbn [bind]. rewrite Hmul. cbn [bind].
  fold x2 y2. fold M. fold checkC3.
  destruct (ascii_eqb_list checkC3 (toLowerCase c3)); destruct output; reflexivity.
Qed.

Lemma substring_head_at (a b : list ascii) (j : Z) :
  j = Z.of_nat (length a) -> substring (a ++ b) 0 j = a.
Proof. intros ->. apply substring_head. Qed.

Lemma substring_middle_at (a b c : list ascii) (i j : Z) :
  i = Z.of_nat (length a) -> j = Z.of_nat (length a + length b) ->
  substring (a ++ b ++ c) i j = b.
Proof. intros -> ->. apply substring_middle. Qed.

Lemma substringFrom_tail_at (a b : list ascii) (i : Z) :
  i = Z.of_nat (length a) -> substringFrom (a ++ b) i = b.
Proof. intros ->. apply substringFrom_tail. Qed.



Lemma toLowerCase_bytesToHex (bytes : list byte) :
  toLowerCase (arrayToHex bytes) = arrayToHex bytes.
Proof. apply toLowerCase_lowerHex, (bytesToHex_lowerHex bytes). Qed.



(** ** The signing loop *)

Lemma Ok_pair (A B : Type) (a c : A) (b d : B) :
  Ok (a, b) = Ok (c, d) -> a = c /\ b = d.
Proof. intros H. split; congruence. Qed.

Lemma takePoints_app (rng : nat -> Z) (a b : nat) :
  forall st st1 st2 l1 l2,
  takePoints a rng st = Ok (l1, st1) ->
  takePoints b rng st1 = Ok (l2, st2) ->
  takePoints (a + b) rng st = Ok (l1 ++ l2, st2).
Proof.
  induction a as [|a IH]; intros st st1 st2 l1 l2 H1 H2.
  - cbn [takePoints] in H1. injection H1 as <- <-. exact H2.
  - cbn [takePoints Nat.add] in *.
    destruct (takePoint rng st) as [[point st']|]; [|discriminate].
    cbn [bind] in *.
    destruct (takePoints a rng st') as [[points st'']|] eqn:E; [|discriminate].
    cbn [bind] in H1. injection H1 as <- <-.
    rewrite (IH st' st'' st2 points l2 E H2). reflexivity.
Qed.

Lemma takePoints_one (rng : nat -> Z) (st st' : SignerState) (point : SignaturePoint) :
  takePoint rng st = Ok (point, st') ->
  takePoints 1 rng st = Ok ([point], st').
Proof. intros H. cbn [takePoints]. rewrite H. reflexivity. Qed.

(** The inner loop returns the first point whose [r] is neither 0 nor
    [n - k]. *)
Lemma pickR_trace (rng : nat -> Z) (e : Z) (fuel : nat) :
  forall st k0 r st',
  pickR fuel rng e st = Ok (k0, r, st') ->
  exists points point,
    takePoints (S (length points)) rng st = Ok (points ++ [point], st')
    /\ Forall (fun q => candidateR e q = 0 \/ candidateR e q + q.(k) = CURVE.n) points
    /\ candidateR e point <> 0
    /\ candidateR e point + point.(k) <> CURVE.n
    /\ k0 = point.(k) /\ r = candidateR e point.
Proof.
  induction fuel as [|fuel IH]; intros st k0 r st' Hrun; [discriminate|].
  cbn [pickR] in Hrun.
  destruct (takePoint rng st) as [[point st1]|] eqn:Etake; [|discriminate].
  cbn [bind] in Hrun. rewrite field_add_mod in Hrun.
  fold (candidateR e point) in Hrun. unfold ZERO in Hrun.
  destruct ((candidateR e point =? 0) || (candidateR e point + k point =? CURVE.n)) eqn:Ebad.
  - destruct (IH st1 k0 r st' Hrun) as [points [last [Htake [Hall Hrest]]]].
    exists (point :: points), last. split; [|split; [|exact Hrest]].
    + change (S (length (point :: points))) with (1 + S (length points))%nat.
      apply (takePoints_app rng 1 (S (length points)) st st1 st' [point] (points ++ [last])).
      * apply takePoints_one, Etake.
      * exact Htake.
    + constructor; [|exact Hall].
      apply orb_prop in Ebad. destruct Ebad as [E|E]; apply Z.eqb_eq in E; auto.
  - injection Hrun as <- <- <-. apply orb_false_elim in Ebad.
    destruct Ebad as [E1 E2]. apply Z.eqb_neq in E1, E2.
    exists [], point. cbn [length app]. split; [apply takePoints_one, Etake|].
    repeat split; auto.
Qed.

(** The signing loop returns the first point that passes the three checks;
    every point before it was dropped by one of them. *)
Lemma signLoop_trace (rng : nat -> Z) (dA e : Z) (fuel : nat) :
  forall st sg st',
  signLoop fuel rng dA e st = Ok (sg, st') ->
  exists dInv points point,
    field.inv (dA + 1) = Ok dInv
    /\ takePoints (S (length points)) rng st = Ok (points ++ [point], st')
    /\ Forall (discarded dA dInv e) points
    /\ ~ discarded dA dInv e point
    /\ sg = {| sig_k := point.(k); sig_r := candidateR e point;
               sig_s := candidateS dA dInv e point |}.
Proof.
  induction fuel as [|fuel IH]; intros st sg st' Hrun; [discriminate|].
  cbn [signLoop] in Hrun.
  destruct (pickR (S fuel) rng e st) as [[[k0 r] st1]|] eqn:Epick; [|discriminate].
  cbn [bind] in Hrun. unfold field.addN, ONE in Hrun.
  destruct (field.inv (dA + 1)) as [dInv|] eqn:Einv; [|discriminate].
  cbn [bind] in Hrun.
  destruct (pickR_trace rng e (S fuel) st k0 r st1 Epick)
    as [points [point [Htake [Hall [Hr0 [Hrk [-> ->]]]]]]].
  rewrite field_mul_mod in Hrun. unfold field.subN, field.mulN, ZERO in Hrun.
  fold (candidateS dA dInv e point) in Hrun.
  assert (Hdrop : Forall (discarded dA dInv e) points).
  { eapply Forall_impl; [|exact Hall]. intros q [H|H]; unfold discarded; auto. }
  destruct (candidateS dA dInv e point =? 0) eqn:Es.
  - apply Z.eqb_eq in Es.
    destruct (IH st1 sg st' Hrun) as [dInv' [points' [last [Einv' [Htake' [Hall' Hrest]]]]]].
    injection Einv' as <-.
    exists dInv, ((points ++ [point]) ++ points'), last.
    split; [reflexivity|]. split; [|split; [|exact Hrest]].
    + replace (((points ++ [point]) ++ points') ++ [last])
        with ((points ++ [point]) ++ (points' ++ [last]))
        by (rewrite <- !app_assoc; reflexivity).
      replace (S (length ((points ++ [point]) ++ points')))
        with (S (length points) + S (length points'))%nat
        by (rewrite !length_app; cbn [length]; lia).
      apply (takePoints_app rng _ _ st st1 st' _ _ Htake Htake').
    + apply Forall_app. split; [|exact Hall'].
      apply Forall_app. split; [exact Hdrop|].
      constructor; [|constructor]. unfold discarded. auto.
  - apply Z.eqb_neq in Es. injection Hrun as <- <-.
    exists dInv, points, point. split; [reflexivity|]. split; [exact Htake|].
    split; [exact Hdrop|]. split; [|reflexivity].
    unfold discarded. intros [H|[H|H]]; contradiction.
Qed.

Lemma takePoints_length (rng : nat -> Z) (count : nat) :
  forall st l st', takePoints count rng st = Ok (l, st') -> length l = count.
Proof.
  induction count as [|count IH]; intros st l st' H; cbn [takePoints] in H.
  - apply Ok_pair in H. destruct H as [<- _]. reflexivity.
  - destruct (takePoint rng st) as [[point st1]|]; [|discriminate].
    cbn [bind] in H.
    destruct (takePoints count rng st1) as [[points st2]|] eqn:E; [|discriminate].
    cbn [bind] in H. apply Ok_pair in H. destruct H as [<- _].
    cbn [length]. f_equal. apply (IH st1 points st2 E).
Qed.

Lemma takePoints_split (rng : nat -> Z) (a b : nat) :
  forall st l1 l2 st2,
  length l1 = a ->
  takePoints (a + b) rng st = Ok (l1 ++ l2, st2) ->
  exists st1, takePoints a rng st = Ok (l1, st1)
              /\ takePoints b rng st1 = Ok (l2, st2).
Proof.
  induction a as [|a IH]; intros st l1 l2 st2 Hlen H.
  - destruct l1; [|discriminate]. exists st. split; [reflexivity | exact H].
  - destruct l1 as [|p l1]; [discriminate|]. injection Hlen as Hlen.
    cbn [takePoints Nat.add] in *.
    destruct (takePoint rng st) as [[point st1]|]; [|discriminate].
    cbn [bind] in *.
    destruct (takePoints (a + b) rng st1) as [[points st']|] eqn:E; [|discriminate].
    cbn [bind] in H. apply Ok_pair in H. destruct H as [Hl <-].
    cbn [app] in Hl. injection Hl as -> ->.
    destruct (IH st1 l1 l2 st' Hlen E) as [st0 [H1 H2]].
    exists st0. rewrite H1. cbn [bind]. split; [reflexivity | exact H2].
Qed.

(** The inner loop passes over the points whose [r] is 0 or [n - k] and
    returns the first one after them, when its fuel covers them. *)
Lemma pickR_returns (rng : nat -> Z) (e : Z) (points : list SignaturePoint) :
  forall fuel st st' point,
  takePoints (S (length points)) rng st = Ok (points ++ [point], st') ->
  Forall (fun q => candidateR e q = 0 \/ candidateR e q + q.(k) = CURVE.n) points ->
  candidateR e point <> 0 ->
  candidateR e point + point.(k) <> CURVE.n ->
  (length points < fuel)%nat ->
  pickR fuel rng e st = Ok (point.(k), candidateR e point, st').
Proof.
  induction points as [|q points IH]; intros fuel st st' point Htake Hall Hr Hrk Hfuel;
    (destruct fuel as [|fuel]; [cbn [length] in Hfuel; lia|]);
    cbn [takePoints length app] in Htake; cbn [pickR];
    destruct (takePoint rng st) as [[p0 st1]|]; try discriminate;
    cbn [bind] in Htake |- *.
  - apply Ok_pair in Htake. destruct Htake as [Hp <-]. injection Hp as ->.
    rewrite field_add_mod. fold (candidateR e point). unfold ZERO.
    apply Z.eqb_neq in Hr, Hrk. rewrite Hr, Hrk. reflexivity.
  - destruct (takePoint rng st1) as [[p1 st2]|] eqn:E1; [|discriminate].
    cbn [bind] in Htake.
    destruct (takePoints (length points) rng st2) as [[rest st3]|] eqn:E2; [|discriminate].
    cbn [bind] in Htake. apply Ok_pair in Htake. destruct Htake as [Hl <-].
    injection Hl as -> Hl.
    inversion Hall as [|? ? Hq Hrest]; subst.
    rewrite field_add_mod. fold (candidateR e q). unfold ZERO.
    replace ((candidateR e q =? 0) || (candidateR e q + k q =? CURVE.n)) with true.
    + apply IH; [|assumption..|cbn [length] in Hfuel; lia].
      cbn [takePoints]. rewrite E1. cbn [bind]. rewrite E2. cbn [bind].
      rewrite Hl. reflexivity.
    + symmetry. apply orb_true_iff.
      destruct Hq as [Hq|Hq]; [left | right]; apply Z.eqb_eq; exact Hq.
Qed.

(** Among points that the loop drops, either every one fails a check on
    [r], or a first one passes them and fails on [s]. *)
Lemma discarded_first (dA dInv e : Z) (points : list SignaturePoint) :
  Forall (discarded dA dInv e) points ->
  Forall (fun q => candidateR e q = 0 \/ candidateR e q + q.(k) = CURVE.n) points
  \/ exists pre q post,
       points = pre ++ q :: post
       /\ Forall (fun q => candidateR e q = 0 \/ candidateR e q + q.(k) = CURVE.n) pre
       /\ candidateR e q <> 0
       /\ candidateR e q + q.(k) <> CURVE.n
       /\ candidateS dA dInv e q = 0.
Proof.
  induction points as [|q points IH]; intros Hall; [left; constructor|].
  inversion Hall as [|? ? Hq Hrest]; subst.
  destruct (Z.eq_dec (candidateR e q) 0) as [E0|E0].
  - destruct (IH Hrest) as [Hbad | [pre [q' [post [-> [Hpre Hq']]]]]].
    + left. constructor; auto.
    + right. exists (q :: pre), q', post. split; [reflexivity|].
      split; [constructor; auto | exact Hq'].
  - destruct (Z.eq_dec (candidateR e q + k q) CURVE.n) as [E1|E1].
    + destruct (IH Hrest) as [Hbad | [pre [q' [post [-> [Hpre Hq']]]]]].
      * left. constructor; auto.
      * right. exists (q :: pre), q', post. split; [reflexivity|].
        split; [constructor; auto | exact Hq'].
    + right. exists [], q, points. split; [reflexivity|]. split; [constructor|].
      split; [exact E0|]. split; [exact E1|].
      destruct Hq as [H|[H|H]]; [contradiction | contradiction | exact H].
Qed.

(** The signing loop passes over the points that fail a check and returns
    the first one that passes the three, when its fuel covers them. *)
Lemma signLoop_returns (rng : nat -> Z) (dA e dInv : Z) :
  field.inv (dA + 1) = Ok dInv ->
  forall fuel points point st st',
  takePoints (S (length points)) rng st = Ok (points ++ [point], st') ->
  Forall (discarded dA dInv e) points ->
  ~ discarded dA dInv e point ->
  (length points < fuel)%nat ->
  signLoop fuel rng dA e st
  = Ok ({| sig_k := point.(k); sig_r := candidateR e point;
           sig_s := candidateS dA dInv e point |}, st').
Proof.
  intros Hinv.
  induction fuel as [|fuel IH]; intros points point st st' Htake Hall Hkeep Hfuel; [lia|].
  assert (Hr : candidateR e point <> 0)
    by (intros H; apply Hkeep; left; exact H).
  assert (Hrk : candidateR e point + point.(k) <> CURVE.n)
    by (intros H; apply Hkeep; right; left; exact H).
  assert (Hs : candidateS dA dInv e point <> 0)
    by (intros H; apply Hkeep; right; right; exact H).
  cbn [signLoop].
  destruct (discarded_first dA dInv e points Hall)
    as [Hbad | [pre [q [post [-> [Hpre [Hq [Hqk Hqs]]]]]]]].
  - rewrite (pickR_returns rng e points (S fuel) st st' point Htake Hbad Hr Hrk Hfuel).
    cbn [bind]. unfold field.addN, ONE. rewrite Hinv. cbn [bind].
    rewrite field_mul_mod. unfold field.subN, field.mulN, ZERO.
    fold (candidateS dA dInv e point).
    apply Z.eqb_neq in Hs. rewrite Hs. reflexivity.
  - rewrite length_app in Hfuel. cbn [length] in Hfuel.
    replace (S (length (pre ++ q :: post)))
      with (S (length pre) + S (length post))%nat in Htake
      by (rewrite length_app; cbn [length]; lia).
    replace ((pre ++ q :: post) ++ [point])
      with ((pre ++ [q]) ++ (post ++ [point])) in Htake
      by (rewrite <- !app_assoc; reflexivity).
    assert (Hlen : length (pre ++ [q]) = S (length pre))
      by (rewrite length_app; cbn [length]; lia).
    destruct (takePoints_split rng (S (length pre)) (S (length post)) st
                (pre ++ [q]) (post ++ [point]) st' Hlen Htake) as [st1 [H1 H2]].
    rewrite (pickR_returns rng e pre (S fuel) st st1 q H1 Hpre Hq Hqk ltac:(lia)).
    cbn [bind]. unfold field.addN, ONE. rewrite Hinv. cbn [bind].
    rewrite field_mul_mod. unfold field.subN, field.mulN, ZERO.
    fold (candidateS dA dInv e q). rewrite Hqs. cbn [Z.eqb].
    apply (IH post point st1 st' H2).
    + apply Forall_app in Hall. destruct Hall as [_ Hall].
      inversion Hall; assumption.
    + exact Hkeep.
    + lia.
Qed.

(** ** The identity hash *)

Lemma fromHex_valid (hex : list ascii) (P : ProjPointType) :
  ProjectivePoint.fromHex hex = Ok P -> ProjectivePoint.isValidPoint P = true.
Proof.
  unfold ProjectivePoint.fromHex.
  destruct (utils.hexToBytes hex) as [bytes|]; [|discriminate]. cbn [bind].
  destruct (ProjectivePoint.fromBytes bytes) as [[px py]|]; [|discriminate].
  cbn [bind].
  destruct (ProjectivePoint.fromAffine px py) as [P'|]; [|discriminate].
  cbn [bind]. unfold ProjectivePoint.assertValidity.
  destruct (ProjectivePoint.isValidPoint P') eqn:E; [|discriminate].
  intros H. injection H as <-. exact E.
Qed.

Lemma valid_coordinates (P : ProjPointType) :
  ProjectivePoint.isValidPoint P = true ->
  0 <= ProjectivePoint.x P < 2 ^ 256 /\ 0 <= ProjectivePoint.y P < 2 ^ 256.
Proof.
  intros Hv. destruct (isValidPoint_affine P Hv) as [px [py [-> [Hx [Hy _]]]]].
  pose proof p_below_2_256. cbn [ProjectivePoint.x ProjectivePoint.y]. lia.
Qed.

Lemma entl_bytes (entl : Z) :
  [ toUint8 (Z.land (Z.shiftr (toInt32 entl) 8) 255);
    toUint8 (Z.land (toInt32 entl) 255) ] = bytesBE 2 entl.
Proof.
  cbn [bytesBE app]. rewrite toInt32_byte by lia.
  rewrite <- (Z.shiftr_0_r (toInt32 entl)) at 1.
  rewrite toInt32_byte, Z.pow_0_r, Z.div_1_r by lia. reflexivity.
Qed.

(** The two coordinates as [getZ] takes them from the key string. *)
Lemma getZ_key_fields (publicKey : list ascii) (P : ProjPointType) :
  keyHexOf publicKey P -> ProjectivePoint.isValidPoint P = true ->
  (if (length publicKey =? 128)%nat
   then Ok (substring publicKey 0 64, substring publicKey 64 128)
   else
     point <- ProjectivePoint.fromHex publicKey ;;
     Ok (leftPad (utils.numberToHexUnpadded (ProjectivePoint.x point)) 64,
         leftPad (utils.numberToHexUnpadded (ProjectivePoint.y point)) 64))
  = Ok (hexFixed 64 (ProjectivePoint.x P), hexFixed 64 (ProjectivePoint.y P)).
Proof.
  intros [-> | [Hlen Hfrom]] Hv.
  - rewrite fieldC1_length. cbn [Nat.eqb]. unfold fieldC1.
    rewrite substring_head_at by (rewrite hexFixed_length; reflexivity).
    rewrite <- (app_nil_r (hexFixed 64 (ProjectivePoint.y P))) at 1.
    rewrite substring_middle_at by (rewrite !hexFixed_length; reflexivity).
    reflexivity.
  - apply Nat.eqb_neq in Hlen. rewrite Hlen, Hfrom. cbn [bind].
    destruct (valid_coordinates P Hv) as [Hx Hy].
    rewrite !leftPad_number by assumption. reflexivity.
Qed.

Lemma constant_256_bits (v : Z) :
  (0 <=? v) && (v <? 2 ^ 256) = true -> 0 <= v < 2 ^ 256.
Proof.
  intros H. apply andb_prop in H. destruct H as [H1 H2].
  apply Z.leb_le in H1. apply Z.ltb_lt in H2. lia.
Qed.

(** [getZ] is the hash of ENTL || userId || a || b || gx || gy || px || py. *)
Lemma getZ_value (publicKey : list ascii) (userId : option Text) (P : ProjPointType) :
  keyHexOf publicKey P -> ProjectivePoint.isValidPoint P = true ->
  getZ publicKey userId = Ok (sm3 (identityInput (userIdBytes userId) P)).
Proof.
  intros Hkey Hv. unfold getZ.
  rewrite (getZ_key_fields publicKey P Hkey Hv). cbn [bind]. f_equal. f_equal.
  unfold utf8ToHex. change (utils.bytesToHex ?l) with (bytesToHex l).
  rewrite (leftPad_number CURVE.a) by (apply constant_256_bits; reflexivity).
  rewrite (leftPad_number CURVE.b) by (apply constant_256_bits; reflexivity).
  rewrite (leftPad_number (ProjectivePoint.x ProjectivePoint.BASE))
    by (apply constant_256_bits; reflexivity).
  rewrite (leftPad_number (ProjectivePoint.y ProjectivePoint.BASE))
    by (apply constant_256_bits; reflexivity).
  change 64%nat with (2 * 32)%nat. rewrite !hexFixed_bytesBE.
  rewrite <- !bytesToHex_app, hexToArray_bytesToHex.
  rewrite entl_bytes, bytesToHex_length.
  unfold utils.concatBytes, identityInput, userIdBytes. cbn [concat].
  rewrite app_nil_r.
  match goal with
  | |- context [Z.of_nat (2 * length ?u) * 4] =>
      replace (Z.of_nat (2 * length u) * 4) with (8 * Z.of_nat (length u)) by lia
  end.
  reflexivity.
Qed.

Lemma getHash_value (hashHex : HexOrBytes) (publicKey : list ascii)
    (userId : option Text) (P : ProjPointType) :
  keyHexOf publicKey P -> ProjectivePoint.isValidPoint P = true ->
  getHash hashHex publicKey userId =
  Ok (bytesToHex (sm3 (sm3 (identityInput (userIdBytes userId) P)
                       ++ hashInputBytes hashHex))).
Proof.
  intros Hkey Hv. unfold getHash. rewrite (getZ_value publicKey userId P Hkey Hv).
  cbn [bind]. unfold utils.concatBytes. cbn [concat]. rewrite app_nil_r.
  reflexivity.
Qed.

Lemma keyHexOf_plain (P : ProjPointType) : keyHexOf (fieldC1 P) P.
Proof. left. reflexivity. Qed.

Lemma keyHexOf_prefixed (P : ProjPointType) :
  ProjectivePoint.isValidPoint P = true -> keyHexOf (str "04" ++ fieldC1 P) P.
Proof.
  intros Hv. right. split.
  - rewrite length_app, fieldC1_length. discriminate.
  - unfold fieldC1. apply fromHex_uncompressed. exact Hv.
Qed.

Lemma substring_firstn (s : list ascii) (j : nat) :
  substring s 0 (Z.of_nat j) = firstn j s.
Proof.
  destruct (Nat.le_gt_cases j (length s)) as [H|H].
  - replace (substring s 0 (Z.of_nat j)) with (substring s (Z.of_nat 0) (Z.of_nat j))
      by reflexivity.
    rewrite (substring_firstn_skipn s 0 j) by lia.
    cbn [skipn]. rewrite Nat.sub_0_r. reflexivity.
  - unfold substring, clampIndex. cbv zeta.
    replace (Z.max 0 (Z.min 0 (Z.of_nat (length s)))) with 0 by lia.
    replace (Z.max 0 (Z.min (Z.of_nat j) (Z.of_nat (length s))))
      with (Z.of_nat (length s)) by lia.
    replace (Z.min 0 (Z.of_nat (length s))) with 0 by lia.
    replace (Z.max 0 (Z.of_nat (length s))) with (Z.of_nat (length s)) by lia.
    rewrite Z.sub_0_r, Nat2Z.id. cbn [Z.to_nat skipn].
    rewrite !firstn_all2 by lia. reflexivity.
Qed.

Lemma substringFrom_skipn (s : list ascii) (i : nat) :
  substringFrom s (Z.of_nat i) = skipn i s.
Proof.
  unfold substringFrom.
  destruct (Nat.le_gt_cases i (length s)) as [H|H].
  - rewrite substring_firstn_skipn by lia.
    apply firstn_all2. rewrite length_skipn. lia.
  - unfold substring, clampIndex. cbv zeta.
    replace (Z.max 0 (Z.min (Z.of_nat i) (Z.of_nat (length s))))
      with (Z.of_nat (length s)) by lia.
    replace (Z.max 0 (Z.min (Z.of_nat (length s)) (Z.of_nat (length s))))
      with (Z.of_nat (length s)) by lia.
    rewrite Z.min_id, Z.max_id, Z.sub_diag. cbn [Z.to_nat firstn].
    rewrite skipn_all2 by lia. reflexivity.
Qed.

(** ** Points of the signing loop *)

Lemma toRawBytes_inv (P : ProjPointType) (raw : list byte) :
  ProjectivePoint.toRawBytes P false = Ok raw ->
  ProjectivePoint.isValidPoint P = true.
Proof.
  unfold ProjectivePoint.toRawBytes, ProjectivePoint.assertValidity.
  destruct (ProjectivePoint.isValidPoint P); [reflexivity | discriminate].
Qed.

Lemma getPublicKey_inv (privateKey : list ascii) (raw : list byte) :
  sm2Curve.getPublicKey privateKey false = Ok raw ->
  exists bytes P,
    utils.hexToBytes privateKey = Ok bytes
    /\ length bytes = 32%nat
    /\ ProjectivePoint.multiply ProjectivePoint.BASE (utils.bytesToNumberBE bytes) = Ok P
    /\ ProjectivePoint.isValidPoint P = true
    /\ raw = Byte.x04 :: bytesBE 32 (ProjectivePoint.x P) ++ bytesBE 32 (ProjectivePoint.y P).
Proof.
  unfold sm2Curve.getPublicKey.
  destruct (utils.hexToBytes privateKey) as [bytes|]; [|discriminate].
  destruct (length bytes =? CURVE.BYTES)%nat eqn:Elen; [|discriminate].
  apply Nat.eqb_eq in Elen. cbn [negb].
  destruct (ProjectivePoint.multiply ProjectivePoint.BASE (utils.bytesToNumberBE bytes))
    as [P|] eqn:Emul; [|discriminate].
  cbn [bind]. intros Hraw.
  pose proof (toRawBytes_inv P raw Hraw) as Hv.
  rewrite (toRawBytes_valid P Hv) in Hraw. injection Hraw as <-.
  exists bytes, P. repeat split; assumption.
Qed.

(** What [getPoint] returns belongs to its scalar. *)
Lemma getPoint_ephemeral (rnd : Z) (point : SignaturePoint) :
  getPoint rnd = Ok point -> ephemeral point.
Proof.
  unfold getPoint, generateKeyPairHex, utils.numberToBytesBE, CURVE.BYTES.
  change (utils.bytesToHex (bytesBE 32 rnd)) with (bytesToHex (bytesBE 32 rnd)).
  rewrite <- (hexFixed_bytesBE 32).
  unfold sm2Curve.getPublicKey. rewrite hexToBytes_hexFixed, bytesBE_length.
  unfold CURVE.BYTES. rewrite Nat.eqb_refl. cbn [negb].
  unfold utils.bytesToNumberBE. rewrite bytesValue_bytesBE.
  destruct (ProjectivePoint.multiply ProjectivePoint.BASE (rnd mod 256 ^ Z.of_nat 32))
    as [K|] eqn:Hmul; [|discriminate].
  cbn [bind].
  destruct (ProjectivePoint.toRawBytes K false) as [raw|] eqn:Eraw; [|discriminate].
  pose proof (toRawBytes_inv K raw Eraw) as Hv.
  rewrite (toRawBytes_valid K Hv) in Eraw.
  assert (Er : raw = Byte.x04 :: bytesBE 32 (ProjectivePoint.x K) ++ bytesBE 32 (ProjectivePoint.y K)) by congruence.
  subst raw. clear Eraw.
  cbn [bind keypair_publicKey keypair_privateKey].
  rewrite uncompressed_hex.
  rewrite (leftPad_long (str "04" ++ _)) by (rewrite uncompressed_hex_length; lia).
  rewrite (fromHex_uncompressed K Hv). cbn [bind].
  rewrite leftPad_long by (rewrite hexFixed_length; lia).
  rewrite (hexToNumber_hexFixed (2 * 32)) by lia. cbn [bind].
  replace (16 ^ Z.of_nat (2 * 32)) with (256 ^ Z.of_nat 32) by (vm_compute; reflexivity).
  intros H. exists K. 
  assert (Ep : point = {| k := rnd mod 256 ^ Z.of_nat 32; x1 := ProjectivePoint.x K |}) by congruence.
  subst point. cbn [k x1].
  split; [exact Hmul | reflexivity].
Qed.

Lemma Forall_last (A : Type) (Q : A -> Prop) (l : list A) (d : A) :
  l <> [] -> Forall Q l -> Q (last l d).
Proof.
  intros Hne Hall. induction l as [|a [|b l] IH].
  - congruence.
  - inversion Hall. assumption.
  - inversion Hall as [|? ? ? Hrest]. apply IH; [discriminate | exact Hrest].
Qed.

Lemma Forall_removelast (A : Type) (Q : A -> Prop) (l : list A) :
  Forall Q l -> Forall Q (removelast l).
Proof.
  intros Hall. induction l as [|a [|b l] IH].
  - constructor.
  - constructor.
  - inversion Hall as [|? ? Ha Hrest]. cbn [removelast].
    constructor; [exact Ha | apply IH, Hrest].
Qed.

Lemma takePoint_ephemeral (rng : nat -> Z) (st st' : SignerState)
    (point : SignaturePoint) :
  poolValid st -> takePoint rng st = Ok (point, st') ->
  ephemeral point /\ poolValid st'.
Proof.
  unfold takePoint, poolValid. intros Hpool.
  destruct (pointPool st) as [[|a pool]|] eqn:Epool.
  - destruct (getPoint (rng (rngNext st))) as [q|] eqn:Eq; [|discriminate].
    cbn [bind]. intros H. apply Ok_pair in H. destruct H as [E1 E2].
    subst point st'. cbn [pointPool].
    split; [apply (getPoint_ephemeral _ _ Eq) | constructor].
  - intros H. apply Ok_pair in H. destruct H as [E1 E2].
    subst point st'. cbn [pointPool]. split.
    + apply Forall_last; [discriminate | exact Hpool].
    + apply Forall_removelast, Hpool.
  - destruct (getPoint (rng (rngNext st))) as [q|] eqn:Eq; [|discriminate].
    cbn [bind]. intros H. apply Ok_pair in H. destruct H as [E1 E2].
    subst point st'. cbn [pointPool].
    split; [apply (getPoint_ephemeral _ _ Eq) | exact I].
Qed.

Lemma takePoints_ephemeral (rng : nat -> Z) (count : nat) :
  forall st st' points,
  poolValid st -> takePoints count rng st = Ok (points, st') ->
  Forall ephemeral points.
Proof.
  induction count as [|count IH]; intros st st' points Hpool Hrun.
  - injection Hrun as <- <-. constructor.
  - cbn [takePoints] in Hrun.
    destruct (takePoint rng st) as [[point st1]|] eqn:E1; [|discriminate].
    cbn [bind] in Hrun.
    destruct (takePoints count rng st1) as [[rest st2]|] eqn:E2; [|discriminate].
    cbn [bind] in Hrun. injection Hrun as <- <-.
    destruct (takePoint_ephemeral rng st st1 point Hpool E1) as [Hp Hpool1].
    constructor; [exact Hp | apply (IH st1 st2 rest Hpool1 E2)].
Qed.

(** ** The equations of signing and verifying *)

(** From [s = (1 + d)^-1 (k - r d)] and [t = r + s]: [s + t d = k], all
    modulo [n]. *)
Lemma signature_equation (n d dInv k0 r s t0 : Z) :
  0 < n ->
  ((d + 1) * dInv) mod n = 1 ->
  s = (dInv * (k0 - r * d)) mod n ->
  t0 = (r + s) mod n ->
  (s + t0 * d) mod n = k0 mod n.
Proof.
  intros Hn Hinv Hs Ht.
  pose proof (Z.div_mod ((d + 1) * dInv) n ltac:(lia)) as H2. rewrite Hinv in H2.
  pose proof (Z.div_mod (dInv * (k0 - r * d)) n ltac:(lia)) as H1. rewrite <- Hs in H1.
  pose proof (Z.div_mod (r + s) n ltac:(lia)) as H3. rewrite <- Ht in H3.
  set (q2 := (d + 1) * dInv / n) in *.
  set (q1 := dInv * (k0 - r * d) / n) in *.
  set (q3 := (r + s) / n) in *.
  assert (E : (k0 - r * d) * ((d + 1) * dInv - n * q2 - 1) = 0)
    by (rewrite H2; ring).
  assert (E1 : (1 + d) * (dInv * (k0 - r * d)) = (1 + d) * (n * q1 + s))
    by (rewrite H1; reflexivity).
  replace (s + t0 * d)
    with (k0 + (q2 * (k0 - r * d) - q1 * (1 + d) - q3 * d) * n).
  - apply Z.mod_add. lia.
  - assert (E3 : t0 * d = (r + s - n * q3) * d) by (rewrite H3; ring).
    rewrite E3. clear - E E1. lia.
Qed.

Lemma multiple_between (n v : Z) : 0 < v < 2 * n -> v mod n = 0 -> v = n.
Proof.
  intros Hv Hm. pose proof (Z.div_mod v n ltac:(lia)) as H. rewrite Hm in H.
  assert (v / n = 1) by nia. nia.
Qed.

(** The verification equations accept what the loop has kept. *)
Lemma verifyEquation_accepts (d dInv e : Z) (P : ProjPointType)
    (point : SignaturePoint) :
  ((d + 1) * dInv) mod CURVE.n = 1 ->
  ephemeral point ->
  ~ discarded d dInv e point ->
  groupLaw d P (candidateS d dInv e point)
    ((candidateR e point + candidateS d dInv e point) mod CURVE.n) ->
  verifyEquation (candidateR e point) (candidateS d dInv e point) P e = Ok true.
Proof.
  intros Hinv [K [HK Hx1]] Hkeep Hlaw.
  pose proof n_positive as Hn.
  pose proof (multiply_range _ _ _ HK) as Hk.
  set (r := candidateR e point) in *. set (s := candidateS d dInv e point) in *.
  assert (Hr : 0 <= r < CURVE.n) by (apply Z.mod_pos_bound; exact Hn).
  assert (Hs : 0 <= s < CURVE.n) by (apply Z.mod_pos_bound; exact Hn).
  assert (Hr0 : r <> 0) by (intros E; apply Hkeep; left; exact E).
  assert (Hrk : r + k point <> CURVE.n)
    by (intros E; apply Hkeep; right; left; exact E).
  assert (Hs0 : s <> 0) by (intros E; apply Hkeep; right; right; exact E).
  set (t0 := (r + s) mod CURVE.n) in *.
  assert (Ht : 0 <= t0 < CURVE.n) by (apply Z.mod_pos_bound; exact Hn).
  assert (Heq : (s + t0 * d) mod CURVE.n = k point).
  { rewrite (signature_equation CURVE.n d dInv (k point) r s t0 Hn Hinv eq_refl eq_refl).
    apply Z.mod_small. lia. }
  assert (Ht0 : t0 <> 0).
  { intros E. rewrite E, Z.mul_0_l, Z.add_0_r, Z.mod_small in Heq by exact Hs.
    apply Hrk. rewrite <- Heq. apply multiple_between; [lia | exact E]. }
  unfold verifyEquation. rewrite field_add_mod. fold t0.
  replace (t0 =? ZERO) with false by (symmetry; apply Z.eqb_neq; exact Ht0).
  rewrite !multiply_in_range by lia. cbn [bind].
  unfold groupLaw in Hlaw. rewrite Hlaw, Heq.
  rewrite multiply_in_range in HK by exact Hk.
  assert (EK : ProjectivePoint.multiplyPos (Z.to_pos (k point)) ProjectivePoint.BASE = K)
    by congruence.
  rewrite EK, <- Hx1, field_add_mod. fold (candidateR e point). fold r.
  rewrite Z.eqb_refl. reflexivity.
Qed.

(** The 64 + 64 hexadecimal digits of a signature are read back. *)
Lemma parseSignature_hex (r s : Z) :
  0 <= r < CURVE.n -> 0 <= s < CURVE.n ->
  parseSignature (leftPad (utils.numberToHexUnpadded r) 64
                  ++ leftPad (utils.numberToHexUnpadded s) 64) false
  = Ok (r, s).
Proof.
  intros Hr Hs. pose proof n_below_2_256 as Hn.
  rewrite !leftPad_number by lia. unfold parseSignature.
  rewrite substring_head_at by (rewrite hexFixed_length; reflexivity).
  rewrite substringFrom_tail_at by (rewrite hexFixed_length; reflexivity).
  rewrite !hexToNumber_scalar by lia. reflexivity.
Qed.

(** ** The digest on both sides *)

Lemma hexValue_facts (c : ascii) :
  match hexValue c with
  | Some d => (0 <=? d) && (d <? 16) && negb (isSpace c)
  | None => true
  end = true.
Proof.
  destruct c as [[] [] [] [] [] [] [] []]; vm_compute; reflexivity.
Qed.

Lemma hexValue_some (c : ascii) (d : Z) :
  hexValue c = Some d -> 0 <= d < 16 /\ isSpace c = false.
Proof.
  intros H. pose proof (hexValue_facts c) as F. rewrite H in F.
  apply andb_prop in F. destruct F as [F Hsp].
  apply andb_prop in F. destruct F as [F1 F2].
  apply Z.leb_le in F1. apply Z.ltb_lt in F2.
  split; [lia|]. destruct (isSpace c); [discriminate | reflexivity].
Qed.

Lemma trimEnd_cons (c : ascii) (s : list ascii) :
  isSpace c = false -> trimEnd s = s -> trimEnd (c :: s) = c :: s.
Proof.
  intros Hc Hs. cbn [trimEnd]. rewrite Hs, Hc. destruct s; reflexivity.
Qed.

(** A string that [hexToBytes] accepts is read as the same number by
    [hexToNumber]. *)
Lemma strictPairs_value (bytes : list byte) :
  forall s, utils.strictPairs s = Some bytes ->
  trimEnd s = s
  /\ length s = (2 * length bytes)%nat
  /\ forall acc, hexDigitsValue acc s = Some (bytesValue acc bytes).
Proof.
  induction bytes as [|b bytes IH]; intros s Hs.
  - destruct s as [|hi [|lo rest]]; cbn [utils.strictPairs] in Hs.
    + repeat split; reflexivity.
    + discriminate.
    + destruct (hexValue hi), (hexValue lo), (utils.strictPairs rest); discriminate.
  - destruct s as [|hi [|lo rest]]; cbn [utils.strictPairs] in Hs; try discriminate.
    destruct (hexValue hi) as [h|] eqn:Eh; [|discriminate].
    destruct (hexValue lo) as [l|] eqn:El; [|discriminate].
    destruct (utils.strictPairs rest) as [bs|] eqn:Er; [|discriminate].
    assert (Eb : b = toUint8 (16 * h + l)) by congruence.
    assert (Ebs : bs = bytes) by congruence. subst bs b.
    destruct (hexValue_some hi h Eh) as [Hh Hsh].
    destruct (hexValue_some lo l El) as [Hl Hsl].
    destruct (IH rest Er) as [Ht [Hlen Hval]].
    split; [|split].
    + apply trimEnd_cons; [exact Hsh|]. apply trimEnd_cons; [exact Hsl | exact Ht].
    + cbn [length]. rewrite Hlen. lia.
    + intros acc. cbn [hexDigitsValue bytesValue]. rewrite Eh, El, Hval.
      rewrite byteToZ_toUint8, Z.mod_small by lia. do 2 f_equal. lia.
Qed.

Lemma hexToBytes_hexToNumber (s : list ascii) (bytes : list byte) :
  utils.hexToBytes s = Ok bytes -> bytes <> [] ->
  utils.hexToNumber s = Ok (utils.bytesToNumberBE bytes).
Proof.
  unfold utils.hexToBytes. intros H Hne.
  destruct (utils.strictPairs s) as [bs|] eqn:E; [|discriminate].
  assert (Eb : bs = bytes) by congruence. subst bs.
  destruct (strictPairs_value bytes s E) as [Ht [Hlen Hval]].
  unfold utils.hexToNumber, utils.bytesToNumberBE.
  destruct s as [|c s'].
  - destruct bytes; [congruence | simpl in Hlen; lia].
  - rewrite Ht, Hval. reflexivity.
Qed.

Lemma fromHex_length (hex : list ascii) (P : ProjPointType) :
  ProjectivePoint.fromHex hex = Ok P -> length hex <> 128%nat.
Proof.
  unfold ProjectivePoint.fromHex, utils.hexToBytes.
  destruct (utils.strictPairs hex) as [bytes|] eqn:E; [|discriminate].
  destruct (strictPairs_value bytes hex E) as [_ [Hlen _]].
  cbn [bind]. unfold ProjectivePoint.fromBytes, CURVE.BYTES.
  destruct bytes as [|head tail]; [discriminate|].
  destruct (length (head :: tail) =? 33)%nat eqn:E33.
  - apply Nat.eqb_eq in E33. intros _. lia.
  - cbn [andb].
    destruct (length (head :: tail) =? S (2 * 32))%nat eqn:E65.
    + apply Nat.eqb_eq in E65. intros _. lia.
    + cbn [andb]. discriminate.
Qed.

Lemma keyPoint_keyHexOf (publicKey : PublicKey) (P : ProjPointType) :
  keyPoint publicKey = Ok P -> ProjectivePoint.isValidPoint P = true ->
  exists publicKeyHex,
    match publicKey with
    | KeyHex hex => Ok hex
    | KeyPoint Q => ProjectivePoint.toHex Q false
    end = Ok publicKeyHex
    /\ keyHexOf publicKeyHex P.
Proof.
  intros Hkey Hv. destruct publicKey as [hex|Q]; cbn [keyPoint] in Hkey.
  - exists hex. split; [reflexivity|]. right.
    split; [apply (fromHex_length hex P Hkey) | exact Hkey].
  - assert (Q = P) by congruence. subst Q.
    exists (str "04" ++ fieldC1 P). split; [apply toHex_valid, Hv|].
    apply keyHexOf_prefixed, Hv.
Qed.

(** The key string that the signer hashes is one of the key [d G]. *)
Lemma signer_key (privateKey : list ascii) (dA : Z) (P : ProjPointType)
    (publicKeyHex : list ascii) :
  utils.hexToNumber privateKey = Ok dA ->
  ProjectivePoint.multiply ProjectivePoint.BASE dA = Ok P ->
  getPublicKeyFromPrivateKey privateKey = Ok publicKeyHex ->
  keyHexOf publicKeyHex P /\ ProjectivePoint.isValidPoint P = true.
Proof.
  intros Hd HP. unfold getPublicKeyFromPrivateKey.
  destruct (sm2Curve.getPublicKey privateKey false) as [raw|] eqn:Eraw; [|discriminate].
  cbn [bind]. intros H.
  destruct (getPublicKey_inv _ _ Eraw) as [bytes [P' [Hbytes [Hlen [Hmul [Hv ->]]]]]].
  assert (Hne : bytes <> []) by (intros ->; discriminate).
  rewrite (hexToBytes_hexToNumber _ _ Hbytes Hne) in Hd.
  assert (Ed : utils.bytesToNumberBE bytes = dA) by congruence.
  rewrite Ed, HP in Hmul. assert (P' = P) by congruence. subst P'.
  rewrite uncompressed_hex, leftPad_long in H
    by (rewrite uncompressed_hex_length; lia).
  assert (E : publicKeyHex = str "04" ++ fieldC1 P) by (unfold fieldC1; congruence).
  subst publicKeyHex. split; [apply keyHexOf_prefixed, Hv | exact Hv].
Qed.

(** With matching options and keys, the verifier computes the digest of
    the signer. *)
Lemma verifyDigest_matches (msg : Message) (privateKey : list ascii)
    (options : SignOptions) (dA : Z) (P : ProjPointType) (publicKey : PublicKey)
    (hashHex : list ascii) :
  utils.hexToNumber privateKey = Ok dA ->
  ProjectivePoint.multiply ProjectivePoint.BASE dA = Ok P ->
  ProjectivePoint.isValidPoint P = true ->
  keyPoint publicKey = Ok P ->
  (forall pk, options.(optPublicKey) = Some pk -> pk <> [] -> keyHexOf pk P) ->
  signDigest msg privateKey options = Ok hashHex ->
  verifyDigest msg publicKey (matching options) = Ok hashHex.
Proof.
  intros Hd HP Hv Hkey Hopt Hsign. unfold verifyDigest.
  destruct (keyPoint_keyHexOf publicKey P Hkey Hv) as [vk [-> Hvk]].
  cbn [bind matching vhash vuserId]. unfold signDigest in Hsign.
  destruct (hash options); [|exact Hsign].
  assert (Hsk : exists sk,
    match optPublicKey options with
    | Some ((_ :: _) as pk) => Ok pk
    | _ => getPublicKeyFromPrivateKey privateKey
    end = Ok sk /\ keyHexOf sk P).
  { destruct (optPublicKey options) as [[|c pk]|] eqn:Eopt.
    - destruct (getPublicKeyFromPrivateKey privateKey) as [sk|] eqn:Esk; [|discriminate].
      exists sk. split; [reflexivity | apply (signer_key _ _ _ _ Hd HP Esk)].
    - exists (c :: pk). split; [reflexivity|]. apply Hopt; [reflexivity | discriminate].
    - destruct (getPublicKeyFromPrivateKey privateKey) as [sk|] eqn:Esk; [|discriminate].
      exists sk. split; [reflexivity | apply (signer_key _ _ _ _ Hd HP Esk)]. }
  destruct Hsk as [sk [Esk Hsk]]. rewrite Esk in Hsign. cbn [bind] in Hsign.
  rewrite (getHash_value _ sk _ P Hsk Hv) in Hsign.
  rewrite (getHash_value _ vk _ P Hvk Hv).
  rewrite <- Hsign. do 4 f_equal.
  destruct msg as [s|bytes]; cbn [hashInputBytes messageHex]; [reflexivity|].
  change (arrayToHex bytes) with (bytesToHex bytes).
  rewrite hexToArray_bytesToHex. reflexivity.
Qed.

(** * The claims *)

(** C5: the key stream that [xorCipherStream] XORs into the message is made
    block by block as SM3(x2 || y2 || ct), with [ct] a 32-bit big-endian
    counter that starts at 1 and grows by one per block; byte [j] of the
    message meets byte [j mod 32] of block [j / 32], so that a block is
    hashed when, and only when, the one before is used up: one block for
    the empty message, [ceil(len / 32)] otherwise.  Applying the function
    twice with the same [(x2, y2)] gives the bytes back. *)
Theorem C5_key_stream (x2 y2 msg : list byte) :
  (forall c, length (ctShift c) = 4%nat
             /\ utils.bytesToNumberBE (ctShift c) = c mod 2 ^ 32)
  /\ length (xorCipherStream x2 y2 msg) = length msg
  /\ (forall j, (j < length msg)%nat ->
        nth j (xorCipherStream x2 y2 msg) Byte.x00 =
        toUint8 (Z.lxor (byteToZ (nth j msg Byte.x00))
                   (byteToZ (nth (j mod 32)
                               (sm3 (x2 ++ y2 ++ ctShift (Z.of_nat (j / 32) + 1)))
                               Byte.x00))))
  /\ blocksHashed x2 y2 msg = Z.max 1 ((Z.of_nat (length msg) + 31) / 32)
  /\ xorCipherStream x2 y2 (xorCipherStream x2 y2 msg) = msg.
Proof.
  split; [|split; [|split; [|split]]].
  - intros c. rewrite ctShift_bytesBE. split; [apply bytesBE_length|].
    unfold utils.bytesToNumberBE. rewrite bytesValue_bytesBE. reflexivity.
  - apply xorCipherStream_length.
  - intros j Hj. unfold xorCipherStream.
    rewrite streamInit_streamAfter, xorLoop_blocks by lia.
    rewrite nth_xorFrom by exact Hj. cbn [Nat.mul Nat.add].
    unfold kdfByte, kdfBlock. rewrite ctShift_bytesBE. reflexivity.
  - unfold blocksHashed. rewrite streamInit_streamAfter.
    destruct msg as [|m rest].
    + reflexivity.
    + rewrite xorLoop_final by (try lia; congruence).
      cbn [ct streamAfter Nat.mul Nat.add length].
      replace (S (length rest) - 1)%nat with (length rest) by lia.
      rewrite Nat2Z.inj_div.
      change (Z.of_nat 32) with 32.
      replace (Z.of_nat (S (length rest)) + 31)
        with (Z.of_nat (length rest) + 1 * 32) by lia.
      rewrite Z.div_add by lia.
      assert (0 <= Z.of_nat (length rest) / 32) by (apply Z.div_pos; lia).
      lia.
  - apply xorCipherStream_twice.
Qed.

(** C9, as the code has it: for a private key [d] whose point [d G] is a
    point of the curve, [getPublicKeyFromPrivateKey] returns 130
    hexadecimal characters: the prefix [04], then X and Y, each on 64
    digits, zero-padded, most significant first. *)
Theorem C9_public_key_hex (d : Z) (P : ProjPointType) :
  ProjectivePoint.multiply ProjectivePoint.BASE d = Ok P ->
  ProjectivePoint.isValidPoint P = true ->
  getPublicKeyFromPrivateKey (hexFixed 64 d) =
    Ok (str "04" ++ hexFixed 64 (ProjectivePoint.x P)
                 ++ hexFixed 64 (ProjectivePoint.y P))
  /\ length (str "04" ++ hexFixed 64 (ProjectivePoint.x P)
                      ++ hexFixed 64 (ProjectivePoint.y P)) = 130%nat.
Proof.
  intros Hmul Hv. split; [|apply uncompressed_hex_length].
  unfold getPublicKeyFromPrivateKey.
  rewrite (getPublicKey_scalar d P Hmul Hv). cbn [bind].
  rewrite uncompressed_hex, leftPad_long; [reflexivity|].
  rewrite uncompressed_hex_length. lia.
Qed.

(** C8: without ASN.1, the ciphertext that [doEncrypt] returns is made of
    three fields and nothing else: C1 = x1 || y1 of the ephemeral point on
    128 hexadecimal characters, without the [04]; C3 on 64; C2 on twice
    the number of bytes of the message; in the order C1 C3 C2, or
    C1 C2 C3 in mode 0; 192 + 2 L characters in all. *)
Theorem C8_ciphertext_layout (rnd : Z) (msg : Message) (publicKey : PublicKey)
    (cipherMode : Z) (P K : ProjPointType) :
  keyPoint publicKey = Ok P ->
  ProjectivePoint.multiply ProjectivePoint.BASE rnd = Ok K ->
  ProjectivePoint.isValidPoint K = true ->
  let Q := ProjectivePoint.multiplyPos (Z.to_pos rnd) P in
  let L := length (messageBytes msg) in
  let c1 := hexFixed 64 (ProjectivePoint.x K) ++ hexFixed 64 (ProjectivePoint.y K) in
  let c2 := fieldC2 Q (messageBytes msg) in
  let c3 := fieldC3 Q (messageBytes msg) in
  exists ciphertext,
    doEncrypt rnd msg publicKey cipherMode false = Ok ciphertext
    /\ ciphertext = (if cipherMode =? C1C2C3 then c1 ++ c2 ++ c3 else c1 ++ c3 ++ c2)
    /\ length c1 = 128%nat /\ length c3 = 64%nat /\ length c2 = (2 * L)%nat
    /\ length ciphertext = (192 + 2 * L)%nat.
Proof.
  intros Hkey Hmul Hv Q L c1 c2 c3.
  pose proof (fieldC1_length K) as H1.
  pose proof (fieldC3_length Q (messageBytes msg)) as H3.
  pose proof (fieldC2_length Q (messageBytes msg)) as H2.
  eexists. split; [apply (doEncrypt_fields rnd msg publicKey cipherMode false P K Hkey Hmul Hv)|].
  cbv zeta. fold Q. fold c2 c3. change (fieldC1 K) with c1 in *.
  fold L in H2. split; [reflexivity|].
  repeat split; try assumption.
  change (length c3 = 64%nat) in H3. change (length c2 = (2 * L)%nat) in H2.
  clearbody c1 c2 c3 L.
  destruct (cipherMode =? C1C2C3); rewrite !length_app; lia.
Qed.

(** C6, as the code has it: once [doDecrypt] has parsed the ciphertext,
    it compares C3' = SM3(x2 || M || y2) with the field C3 without regard
    to case.  When they are equal it returns the plaintext [M] under the
    output "array", and under the output "string" what [arrayToUtf8]
    makes of [M]: the string, or the error that [arrayToUtf8] throws.
    When they are not equal it returns the empty plain array or the empty
    string, and raises no error. *)
Theorem C6_integrity_check (encryptData privateKey : list ascii) (cipherMode : Z)
    (asn1 : bool) (d : Z) (c1 p : ProjPointType) (c2 c3 : list ascii) :
  utils.hexToNumber privateKey = Ok d ->
  parseCipher encryptData cipherMode asn1 = Ok (c1, c2, c3) ->
  ProjectivePoint.multiply c1 d = Ok p ->
  let x2 := coordBytes (ProjectivePoint.x p) in
  let y2 := coordBytes (ProjectivePoint.y p) in
  let M := xorCipherStream x2 y2 (hexToArray c2) in
  let checkC3 := arrayToHex (sm3 (x2 ++ M ++ y2)) in
  (equalIgnoringCase c3 checkC3 ->
   doDecrypt encryptData privateKey cipherMode OutputArray asn1 = Ok (DecArray M)
   /\ (forall s, arrayToUtf8 M = Ok s ->
       doDecrypt encryptData privateKey cipherMode OutputString asn1
       = Ok (DecString s))
   /\ (forall e, arrayToUtf8 M = Throw e ->
       doDecrypt encryptData privateKey cipherMode OutputString asn1 = Throw e))
  /\ (~ equalIgnoringCase c3 checkC3 ->
      doDecrypt encryptData privateKey cipherMode OutputArray asn1 = Ok DecEmptyArray
      /\ doDecrypt encryptData privateKey cipherMode OutputString asn1
         = Ok (DecString []))
  /\ (forall c3', equalIgnoringCase c3' c3 ->
      (equalIgnoringCase c3' checkC3 <-> equalIgnoringCase c3 checkC3)).
Proof.
  intros Hd Hparse Hmul x2 y2 M checkC3.
  assert (Hrun : forall output,
    doDecrypt encryptData privateKey cipherMode output asn1 =
    if ascii_eqb_list checkC3 (toLowerCase c3)
    then recovered output M else Ok (emptyResult output)).
  { intros output.
    pose proof (doDecrypt_parsed _ _ _ output _ d c1 p _ _ Hd Hparse Hmul) as Hrun.
    cbv zeta in Hrun. fold x2 y2 in Hrun. fold M in Hrun.
    replace (utils.concatBytes [x2; M; y2]) with (x2 ++ M ++ y2) in Hrun
      by (unfold utils.concatBytes; cbn [concat]; rewrite app_nil_r; reflexivity).
    exact Hrun. }
  assert (Hlow : toLowerCase checkC3 = checkC3) by apply toLowerCase_bytesToHex.
  unfold equalIgnoringCase. rewrite Hlow.
  split; [|split].
  - intros E.
    assert (Htrue : ascii_eqb_list checkC3 (toLowerCase c3) = true)
      by (apply ascii_eqb_list_true; congruence).
    split; [|split].
    + rewrite Hrun, Htrue. reflexivity.
    + intros s Hs. rewrite Hrun, Htrue. cbn [recovered]. rewrite Hs. reflexivity.
    + intros e He. rewrite Hrun, Htrue. cbn [recovered]. rewrite He. reflexivity.
  - intros E.
    assert (Hfalse : ascii_eqb_list checkC3 (toLowerCase c3) = false)
      by (apply ascii_eqb_list_false; congruence).
    split; rewrite Hrun, Hfalse; reflexivity.
  - intros c3' E. rewrite E. reflexivity.
Qed.


(** C7: for a public key [P], given as X || Y or as 04 || X || Y, and a
    user identity, [getZ] is
    Z = SM3(ENTL || userId || a || b || gx || gy || px || py): ENTL is the
    number of bits of the UTF-8 identity on 2 bytes, most significant
    first (for an identity of 8192 bytes or more, its 16 low bits); a, b,
    gx, gy, px and py are on 32 bytes each, most significant first; the
    identity defaults to "1234567812345678"; and [getHash] is
    e = SM3(Z || M).  Both are functions of their arguments. *)
Theorem C7_identity_hash (publicKey : list ascii) (userId : option Text)
    (P : ProjPointType) (hashHex : HexOrBytes) :
  keyHexOf publicKey P ->
  ProjectivePoint.isValidPoint P = true ->
  let uid := userIdBytes userId in
  let ENTL := bytesBE 2 (8 * Z.of_nat (length uid)) in
  let Zvalue :=
    sm3 (ENTL ++ uid ++ bytesBE 32 CURVE.a ++ bytesBE 32 CURVE.b
         ++ bytesBE 32 CURVE.Gx ++ bytesBE 32 CURVE.Gy
         ++ bytesBE 32 (ProjectivePoint.x P) ++ bytesBE 32 (ProjectivePoint.y P)) in
  getZ publicKey userId = Ok Zvalue
  /\ getHash hashHex publicKey userId
     = Ok (bytesToHex (sm3 (Zvalue ++ hashInputBytes hashHex)))
  /\ length ENTL = 2%nat
  /\ utils.bytesToNumberBE ENTL = (8 * Z.of_nat (length uid)) mod 2 ^ 16
  /\ Forall (fun v => length (bytesBE 32 v) = 32%nat
                      /\ utils.bytesToNumberBE (bytesBE 32 v) = v)
       [CURVE.a; CURVE.b; CURVE.Gx; CURVE.Gy;
        ProjectivePoint.x P; ProjectivePoint.y P]
  /\ userIdBytes None = utf8ToBytes (text "1234567812345678")
  /\ keyHexOf (fieldC1 P) P
  /\ keyHexOf (str "04" ++ fieldC1 P) P.
Proof.
  intros Hkey Hv uid ENTL Zvalue.
  destruct (valid_coordinates P Hv) as [Hx Hy].
  split; [apply (getZ_value publicKey userId P Hkey Hv)|].
  split; [apply (getHash_value hashHex publicKey userId P Hkey Hv)|].
  split; [apply bytesBE_length|].
  split; [unfold utils.bytesToNumberBE, ENTL; apply bytesValue_bytesBE|].
  split.
  - assert (Hfield : forall v, 0 <= v < 2 ^ 256 ->
              length (bytesBE 32 v) = 32%nat
              /\ utils.bytesToNumberBE (bytesBE 32 v) = v).
    { intros v Hr. split; [apply bytesBE_length|].
      unfold utils.bytesToNumberBE. apply bytesValue_small.
      change (256 ^ Z.of_nat 32) with (2 ^ 256). exact Hr. }
    repeat constructor; apply Hfield;
      solve [assumption | apply constant_256_bits; reflexivity].
  - split; [reflexivity|].
    split; [apply keyHexOf_plain | apply keyHexOf_prefixed, Hv].
Qed.

(** C4: a signature that [doSignature] returns comes from the first point,
    of the pool or of [getPoint], that passes the three checks: with
    r = (e + x1) mod n and s = ((1 + d)^-1 (k - r d)) mod n for that point,
    r is not 0, r + k is not n and s is not 0; every point taken before it
    was dropped because it failed one of them.  And the loop does pass
    over such points: when the points it takes are dropped up to one that
    passes the three checks, it returns the signature of that one. *)
Theorem C4_signature_conditions (fuel : nat) (rng : nat -> Z) (msg : Message)
    (privateKey : list ascii) (options : SignOptions) (st st' : SignerState)
    (signature : list ascii) :
  (doSignature fuel rng msg privateKey options st = Ok (signature, st') ->
   exists dA hashHex e dInv points point r s,
     utils.hexToNumber privateKey = Ok dA
     /\ signDigest msg privateKey options = Ok hashHex
     /\ utils.hexToNumber hashHex = Ok e
     /\ field.inv (dA + 1) = Ok dInv
     /\ ((dA + 1) * dInv) mod CURVE.n = 1
     /\ takePoints (S (length points)) rng st = Ok (points ++ [point], st')
     /\ Forall (discarded dA dInv e) points
     /\ r = (e + point.(x1)) mod CURVE.n
     /\ s = (dInv * (point.(k) - r * dA)) mod CURVE.n
     /\ r <> 0 /\ s <> 0 /\ r + point.(k) <> CURVE.n
     /\ signature = signatureHex options {| sig_k := point.(k); sig_r := r; sig_s := s |})
  /\ (forall dA hashHex e dInv points point,
        utils.hexToNumber privateKey = Ok dA ->
        signDigest msg privateKey options = Ok hashHex ->
        utils.hexToNumber hashHex = Ok e ->
        field.inv (dA + 1) = Ok dInv ->
        takePoints (S (length points)) rng st = Ok (points ++ [point], st') ->
        Forall (discarded dA dInv e) points ->
        ~ discarded dA dInv e point ->
        (length points < fuel)%nat ->
        doSignature fuel rng msg privateKey options st
        = Ok (signatureHex options
                {| sig_k := point.(k); sig_r := candidateR e point;
                   sig_s := candidateS dA dInv e point |}, st')).
Proof.
  split.
  - unfold doSignature, signCore. intros Hrun.
    destruct (signDigest msg privateKey options) as [hashHex|]; [|discriminate].
    cbn [bind] in Hrun.
    destruct (utils.hexToNumber privateKey) as [dA|]; [|discriminate].
    cbn [bind] in Hrun.
    destruct (utils.hexToNumber hashHex) as [e|] eqn:He; [|discriminate].
    cbn [bind] in Hrun.
    destruct (signLoop fuel rng dA e st) as [[sg st1]|] eqn:Hloop; [|discriminate].
    cbn [bind] in Hrun. injection Hrun as <- <-.
    destruct (signLoop_trace rng dA e fuel st sg st1 Hloop)
      as [dInv [points [point [Hinv [Htake [Hdrop [Hkeep ->]]]]]]].
    exists dA, hashHex, e, dInv, points, point,
      (candidateR e point), (candidateS dA dInv e point).
    destruct (invert_sound _ _ _ Hinv) as [_ Hone].
    unfold field.ORDER in Hone.
    rewrite (Z.mod_small 1) in Hone by (split; [lia | reflexivity]).
    unfold discarded in Hkeep.
    repeat split; try reflexivity; try assumption; intros H; apply Hkeep; auto.
  - intros dA hashHex e dInv points point Hd Hdigest He Hinv Htake Hdrop Hkeep Hfuel.
    unfold doSignature, signCore.
    rewrite Hdigest. cbn [bind]. rewrite Hd. cbn [bind]. rewrite He. cbn [bind].
    rewrite (signLoop_returns rng dA e dInv Hinv fuel points point st st'
               Htake Hdrop Hkeep Hfuel).
    reflexivity.
Qed.

(** C10: without DER, [doVerifySignature] reads [r] from the first 64
    characters of [signHex] and [s] from all that follows, whatever the
    length of [signHex], and decides by these two numbers: it returns
    [false] when [(r + s) mod n] is 0 and else whether
    [r = (e + x(s G + t P)) mod n].  No length is checked: a string of 120
    characters is read with an [s] of 56 digits, and gives the result of
    the string of 128 characters with the same numbers. *)
Theorem C10_signature_split (msg : Message) (signHex : list ascii)
    (publicKey : PublicKey) (options : VerifyOptions) :
  options.(vder) = false ->
  doVerifySignature msg signHex publicKey options
  = (hashHex <- verifyDigest msg publicKey options ;;
     r <- utils.hexToNumber (firstn 64 signHex) ;;
     s <- utils.hexToNumber (skipn 64 signHex) ;;
     PA <- keyPoint publicKey ;;
     e <- utils.hexToNumber hashHex ;;
     if (r + s) mod CURVE.n =? 0 then Ok false
     else
       sG <- ProjectivePoint.multiply ProjectivePoint.BASE s ;;
       tP <- ProjectivePoint.multiply PA ((r + s) mod CURVE.n) ;;
       Ok (r =? (e + ProjectivePoint.x (ProjectivePoint.add sG tP)) mod CURVE.n))
  /\ parseSignature signHex false =
     (r <- utils.hexToNumber (firstn 64 signHex) ;;
      s <- utils.hexToNumber (skipn 64 signHex) ;;
      Ok (r, s))
  /\ (forall signHex',
        parseSignature signHex' false = parseSignature signHex false ->
        doVerifySignature msg signHex' publicKey options
        = doVerifySignature msg signHex publicKey options)
  /\ (forall rHex s, length rHex = 64%nat -> 0 <= s < 16 ^ 56 ->
        length (rHex ++ hexFixed 56 s) = 120%nat
        /\ doVerifySignature msg (rHex ++ hexFixed 56 s) publicKey options
           = doVerifySignature msg (rHex ++ hexFixed 64 s) publicKey options)
  /\ (forall r s hashHex PA e,
        0 <= r < 16 ^ 64 -> 0 <= s < 16 ^ 56 ->
        verifyDigest msg publicKey options = Ok hashHex ->
        keyPoint publicKey = Ok PA ->
        utils.hexToNumber hashHex = Ok e ->
        doVerifySignature msg (hexFixed 64 r ++ hexFixed 56 s) publicKey options
        = if (r + s) mod CURVE.n =? 0 then Ok false
          else
            sG <- ProjectivePoint.multiply ProjectivePoint.BASE s ;;
            tP <- ProjectivePoint.multiply PA ((r + s) mod CURVE.n) ;;
            Ok (r =? (e + ProjectivePoint.x (ProjectivePoint.add sG tP))
                     mod CURVE.n)).
Proof.
  intros Hder.
  assert (Hparse : forall hex,
    parseSignature hex false =
    (r <- utils.hexToNumber (firstn 64 hex) ;;
     s <- utils.hexToNumber (skipn 64 hex) ;;
     Ok (r, s))).
  { intros hex. unfold parseSignature.
    change 64 with (Z.of_nat 64).
    rewrite substring_firstn, substringFrom_skipn. reflexivity. }
  assert (Hsame : forall a b,
    parseSignature a false = parseSignature b false ->
    doVerifySignature msg a publicKey options
    = doVerifySignature msg b publicKey options).
  { intros a b E. unfold doVerifySignature. rewrite Hder, E. reflexivity. }
  assert (Hrun : forall hex,
    doVerifySignature msg hex publicKey options
    = (hashHex <- verifyDigest msg publicKey options ;;
       r <- utils.hexToNumber (firstn 64 hex) ;;
       s <- utils.hexToNumber (skipn 64 hex) ;;
       PA <- keyPoint publicKey ;;
       e <- utils.hexToNumber hashHex ;;
       if (r + s) mod CURVE.n =? 0 then Ok false
       else
         sG <- ProjectivePoint.multiply ProjectivePoint.BASE s ;;
         tP <- ProjectivePoint.multiply PA ((r + s) mod CURVE.n) ;;
         Ok (r =? (e + ProjectivePoint.x (ProjectivePoint.add sG tP)) mod CURVE.n))).
  { intros hex. unfold doVerifySignature. rewrite Hder, Hparse.
    destruct (verifyDigest msg publicKey options) as [hashHex|]; [|reflexivity].
    cbn [bind].
    destruct (utils.hexToNumber (firstn 64 hex)) as [r|]; [|reflexivity].
    cbn [bind].
    destruct (utils.hexToNumber (skipn 64 hex)) as [s|]; [|reflexivity].
    cbn [bind].
    destruct (keyPoint publicKey) as [PA|]; [|reflexivity]. cbn [bind].
    destruct (utils.hexToNumber hashHex) as [e|]; [|reflexivity]. cbn [bind].
    unfold verifyEquation. rewrite !field_add_mod. unfold ZERO.
    destruct ((r + s) mod CURVE.n =? 0); [reflexivity|].
    destruct (ProjectivePoint.multiply ProjectivePoint.BASE s) as [sG|];
      [|reflexivity].
    cbn [bind].
    destruct (ProjectivePoint.multiply PA ((r + s) mod CURVE.n)) as [tP|];
      [|reflexivity].
    cbn [bind]. rewrite field_add_mod. reflexivity. }
  split; [apply Hrun|]. split; [apply Hparse|].
  split; [intros signHex' E; apply Hsame, E|]. split.
  - intros rHex s Hlen Hs.
    split; [rewrite length_app, hexFixed_length; lia|].
    apply Hsame. rewrite !Hparse.
    rewrite !firstn_app, !skipn_app, Hlen, Nat.sub_diag.
    rewrite !firstn_all2, !skipn_all2 by lia.
    cbn [firstn skipn app]. rewrite !app_nil_r.
    rewrite !hexToNumber_hexFixed by lia.
    rewrite !Z.mod_small; [reflexivity | |]; lia.
  - intros r s hashHex PA e Hr Hs Hdigest Hkey He.
    rewrite Hrun, Hdigest. cbn [bind].
    rewrite firstn_app, skipn_app, hexFixed_length, Nat.sub_diag.
    rewrite firstn_all2, skipn_all2 by (rewrite hexFixed_length; lia).
    cbn [firstn skipn app]. rewrite app_nil_r.
    rewrite !hexToNumber_hexFixed by lia.
    rewrite !Z.mod_small by lia.
    cbn [bind]. rewrite Hkey. cbn [bind]. rewrite He. reflexivity.
Qed.

(** C2: for a key pair [(d, P)] with [P = d G] and a message,
    [doVerifySignature] returns [true] on what [doSignature] returns, when
    the verifier has the options of the signer: with and without the Z
    pre-hash, with the signature as 64 + 64 hexadecimal digits and in DER,
    for every point [(k, x1)] that the signing loop accepts, from a pool
    of points that belong to their scalars or from [getPoint].  The curve
    enters by one instance of its group law,
    [s G + t P = ((s + t d) mod n) G], and DER by its round trip on the
    signature. *)
Theorem C2_verify_signature (fuel : nat) (rng : nat -> Z) (msg : Message)
    (privateKey : list ascii) (options : SignOptions) (st st' : SignerState)
    (signature : list ascii) (dA : Z) (P : ProjPointType) (publicKey : PublicKey) :
  utils.hexToNumber privateKey = Ok dA ->
  ProjectivePoint.multiply ProjectivePoint.BASE dA = Ok P ->
  ProjectivePoint.isValidPoint P = true ->
  keyPoint publicKey = Ok P ->
  (forall pk, options.(optPublicKey) = Some pk -> pk <> [] -> keyHexOf pk P) ->
  poolValid st ->
  doSignature fuel rng msg privateKey options st = Ok (signature, st') ->
  (options.(der) = true ->
   forall r s, signature = encodeDer r s -> decodeDer signature = Ok (r, s)) ->
  (forall r s, parseSignature signature options.(der) = Ok (r, s) ->
               groupLaw dA P s ((r + s) mod CURVE.n)) ->
  doVerifySignature msg signature publicKey (matching options) = Ok true.
Proof.
  intros Hd HP Hv Hkey Hopt Hpool Hrun Hder Hlaw.
  unfold doSignature, signCore in Hrun.
  destruct (signDigest msg privateKey options) as [hashHex|] eqn:Hdigest; [|discriminate].
  cbn [bind] in Hrun. rewrite Hd in Hrun. cbn [bind] in Hrun.
  destruct (utils.hexToNumber hashHex) as [e|] eqn:He; [|discriminate].
  cbn [bind] in Hrun.
  destruct (signLoop fuel rng dA e st) as [[sg st1]|] eqn:Hloop; [|discriminate].
  cbn [bind] in Hrun. apply Ok_pair in Hrun. destruct Hrun as [Hsig Hst].
  destruct (signLoop_trace rng dA e fuel st sg st1 Hloop)
    as [dInv [points [point [Hinv [Htake [_ [Hkeep Hsg]]]]]]].
  destruct (invert_sound _ _ _ Hinv) as [_ Hone].
  unfold field.ORDER in Hone.
  rewrite (Z.mod_small 1) in Hone by (split; [lia | reflexivity]).
  assert (Heph : ephemeral point).
  { pose proof (takePoints_ephemeral rng _ st st1 _ Hpool Htake) as Hall.
    apply Forall_app in Hall. destruct Hall as [_ Hlast].
    inversion Hlast. assumption. }
  pose proof n_positive as Hn.
  set (r := candidateR e point) in *. set (s := candidateS dA dInv e point) in *.
  assert (Hr : 0 <= r < CURVE.n) by (apply Z.mod_pos_bound; exact Hn).
  assert (Hs : 0 <= s < CURVE.n) by (apply Z.mod_pos_bound; exact Hn).
  assert (Hparse : parseSignature signature (der options) = Ok (r, s)).
  { assert (Eform : signature = signatureHex options sg) by (symmetry; exact Hsig).
    rewrite Hsg in Eform. unfold signatureHex in Eform. cbn [sig_r sig_s] in Eform.
    destruct (der options) eqn:Eder.
    - unfold parseSignature. apply (Hder eq_refl). exact Eform.
    - rewrite Eform. apply parseSignature_hex; assumption. }
  unfold doVerifySignature.
  rewrite (verifyDigest_matches msg privateKey options dA P publicKey hashHex
             Hd HP Hv Hkey Hopt Hdigest).
  cbn [bind matching vder]. rewrite Hparse. cbn [bind].
  rewrite Hkey. cbn [bind]. rewrite He. cbn [bind].
  apply (verifyEquation_accepts dA dInv e P point Hone Heph Hkeep).
  apply (Hlaw r s Hparse).
Qed.

(** C3, as the code has it: [doVerifySignature] checks no range.  With
    the components [(r, s)] that it recovers, it returns [false] when
    [(r + s) mod n] is 0, and when [r] is outside [0, n-1] and [s] is
    in [1, n-1]; an [s] outside [1, n-1] with [(r + s) mod n] not 0 makes
    the scalar multiplication throw; and [r = 0] is not rejected: the
    result is then that of the equation [R = r]. *)
Theorem C3_no_range_check (msg : Message) (signHex : list ascii)
    (publicKey : PublicKey) (options : VerifyOptions) (hashHex : list ascii)
    (r s e : Z) (PA : ProjPointType) :
  verifyDigest msg publicKey options = Ok hashHex ->
  parseSignature signHex options.(vder) = Ok (r, s) ->
  keyPoint publicKey = Ok PA ->
  utils.hexToNumber hashHex = Ok e ->
  ((r + s) mod CURVE.n = 0 ->
   doVerifySignature msg signHex publicKey options = Ok false)
  /\ (~ 0 <= r < CURVE.n -> 1 <= s < CURVE.n ->
      doVerifySignature msg signHex publicKey options = Ok false)
  /\ (~ 1 <= s < CURVE.n -> (r + s) mod CURVE.n <> 0 ->
      doVerifySignature msg signHex publicKey options = Throw InvalidScalar)
  /\ (r = 0 -> 1 <= s < CURVE.n ->
      doVerifySignature msg signHex publicKey options =
      Ok ((e + ProjectivePoint.x
                 (ProjectivePoint.add
                    (ProjectivePoint.multiplyPos (Z.to_pos s) ProjectivePoint.BASE)
                    (ProjectivePoint.multiplyPos (Z.to_pos s) PA)))
          mod CURVE.n =? 0)).
Proof.
  intros Hdigest Hparse Hkey He.
  assert (Hrun : doVerifySignature msg signHex publicKey options
                 = verifyEquation r s PA e).
  { unfold doVerifySignature. rewrite Hdigest. cbn [bind].
    rewrite Hparse. cbn [bind]. rewrite Hkey. cbn [bind]. rewrite He. reflexivity. }
  rewrite Hrun. unfold verifyEquation. rewrite !field_add_mod. unfold ZERO.
  pose proof n_positive as Hn.
  pose proof (Z.mod_pos_bound (r + s) CURVE.n Hn) as Ht.
  split; [|split; [|split]].
  - intros E. rewrite E. reflexivity.
  - intros Hr Hs.
    destruct ((r + s) mod CURVE.n =? 0) eqn:E; [reflexivity|].
    apply Z.eqb_neq in E.
    rewrite !multiply_in_range by lia. cbn [bind]. f_equal.
    rewrite field_add_mod. apply Z.eqb_neq.
    match goal with
    | |- r <> ?R mod CURVE.n => pose proof (Z.mod_pos_bound R CURVE.n Hn)
    end. lia.
  - intros Hs E. apply Z.eqb_neq in E. rewrite E.
    unfold ProjectivePoint.multiply at 1.
    replace ((1 <=? s) && (s <? CURVE.n)) with false; [reflexivity|].
    symmetry. apply andb_false_iff.
    destruct (Z.leb_spec 1 s); [right; apply Z.ltb_ge; lia | left; reflexivity].
  - intros -> Hs. cbn [Z.add].
    rewrite (Z.mod_small s) by lia.
    replace (s =? 0) with false by (symmetry; apply Z.eqb_neq; lia).
    rewrite !multiply_in_range by lia. cbn [bind]. f_equal.
    rewrite field_add_mod. apply Z.eqb_sym.
Qed.

(** * Further properties of [src/sm2/index.ts] *)

(** ** Public keys as strings and as points *)

Lemma fromHex_prefixed_length (s : list ascii) (P : ProjPointType) :
  ProjectivePoint.fromHex (str "04" ++ s) = Ok P -> length s = 128%nat.
Proof.
  unfold ProjectivePoint.fromHex, utils.hexToBytes.
  change (str "04" ++ s) with ("0"%char :: "4"%char :: s).
  cbn [utils.strictPairs].
  change (hexValue "0") with (Some 0). change (hexValue "4") with (Some 4).
  destruct (utils.strictPairs s) as [bs|] eqn:E; [|discriminate].
  destruct (strictPairs_value bs s E) as [_ [Hlen _]].
  cbn [bind]. unfold ProjectivePoint.fromBytes, CURVE.BYTES.
  change (toUint8 (16 * 0 + 4)) with Byte.x04.
  change (byteToZ Byte.x04) with 4. cbn [Z.eqb Pos.eqb orb].
  rewrite andb_false_r.
  destruct (length (Byte.x04 :: bs) =? S (2 * 32))%nat eqn:E65.
  - apply Nat.eqb_eq in E65. cbn [length] in E65. intros _. lia.
  - cbn [andb]. discriminate.
Qed.

Lemma fromHex_unprefixed (hex : list ascii) :
  length hex = 128%nat -> exists e, ProjectivePoint.fromHex hex = Throw e.
Proof.
  intros Hlen. destruct (ProjectivePoint.fromHex hex) as [P|e] eqn:E.
  - exfalso. apply (fromHex_length hex P E Hlen).
  - exists e. reflexivity.
Qed.

(** The point that [precomputePublicKey] returns for a key string can
    take the place of the string: [doEncrypt] and [doVerifySignature]
    return the same with either, also when the verifier hashes the key
    into Z. *)
Theorem precomputed_key_agrees (publicKey : list ascii) (P : ProjPointType) :
  precomputePublicKey publicKey = Ok P ->
  ProjectivePoint.fromHex publicKey = Ok P
  /\ (forall rnd msg cipherMode asn1,
        doEncrypt rnd msg (KeyPoint P) cipherMode asn1
        = doEncrypt rnd msg (KeyHex publicKey) cipherMode asn1)
  /\ (forall msg signHex options,
        doVerifySignature msg signHex (KeyPoint P) options
        = doVerifySignature msg signHex (KeyHex publicKey) options).
Proof.
  unfold precomputePublicKey, sm2Curve.precompute. intros Hpre.
  destruct (ProjectivePoint.fromHex publicKey) as [Q|] eqn:Hkey; [|discriminate].
  cbn [bind] in Hpre.
  destruct (ProjectivePoint.multiply Q 3); [|discriminate].
  cbn [bind] in Hpre. assert (Q = P) by congruence. subst Q.
  pose proof (fromHex_valid _ _ Hkey) as Hv.
  split; [reflexivity|]. split.
  - intros rnd msg cipherMode asn1. unfold doEncrypt. cbn [keyPoint].
    rewrite Hkey. reflexivity.
  - intros msg signHex options. unfold doVerifySignature, verifyDigest.
    cbn [keyPoint]. rewrite Hkey, (toHex_valid P Hv). cbn [bind].
    destruct (vhash options); [|reflexivity].
    rewrite (getHash_value _ (str "04" ++ fieldC1 P) _ P (keyHexOf_prefixed P Hv) Hv).
    rewrite (getHash_value _ publicKey _ P) ; [reflexivity | | exact Hv].
    right. split; [apply (fromHex_length _ _ Hkey) | exact Hkey].
Qed.

(** The strings that decode to one point are one key: two of them, such
    as the compressed and the uncompressed form of a point, give the
    same Z and the same results of [doEncrypt] and
    [doVerifySignature]. *)
Theorem key_strings_of_one_point (first second : list ascii) (P : ProjPointType) :
  ProjectivePoint.fromHex first = Ok P ->
  ProjectivePoint.fromHex second = Ok P ->
  (forall userId, getZ first userId = getZ second userId)
  /\ (forall rnd msg cipherMode asn1,
        doEncrypt rnd msg (KeyHex first) cipherMode asn1
        = doEncrypt rnd msg (KeyHex second) cipherMode asn1)
  /\ (forall msg signHex options,
        doVerifySignature msg signHex (KeyHex first) options
        = doVerifySignature msg signHex (KeyHex second) options).
Proof.
  intros H1 H2. pose proof (fromHex_valid _ _ H1) as Hv.
  assert (K1 : keyHexOf first P)
    by (right; split; [apply (fromHex_length _ _ H1) | exact H1]).
  assert (K2 : keyHexOf second P)
    by (right; split; [apply (fromHex_length _ _ H2) | exact H2]).
  split; [|split].
  - intros userId.
    rewrite (getZ_value first userId P K1 Hv), (getZ_value second userId P K2 Hv).
    reflexivity.
  - intros rnd msg cipherMode asn1. unfold doEncrypt. cbn [keyPoint].
    rewrite H1, H2. reflexivity.
  - intros msg signHex options. unfold doVerifySignature, verifyDigest.
    cbn [keyPoint bind]. rewrite H1, H2.
    destruct (vhash options); [|reflexivity].
    rewrite (getHash_value _ first _ P K1 Hv), (getHash_value _ second _ P K2 Hv).
    reflexivity.
Qed.

Lemma hexToArray_behind_bytes (bytes : list byte) (rest : list ascii) :
  Nat.odd (length rest) = false ->
  hexToArray (bytesToHex bytes ++ rest) = bytes ++ hexToArray rest.
Proof.
  intros Hrest. unfold hexToArray.
  rewrite length_app, bytesToHex_length, Nat.odd_add, odd_double, Hrest.
  cbn [xorb]. induction bytes as [|b bytes IH]; [reflexivity|].
  change (bytesToHex (b :: bytes)) with (byteHex b ++ bytesToHex bytes).
  rewrite <- app_assoc, hexPairs_byteHex, IH. reflexivity.
Qed.

Lemma substring_halves (s : list ascii) :
  length s = 128%nat -> substring s 0 64 ++ substring s 64 128 = s.
Proof.
  intros Hlen.
  change 64 with (Z.of_nat 64). change 128 with (Z.of_nat 128).
  rewrite substring_firstn.
  rewrite substring_firstn_skipn by lia.
  change (128 - 64)%nat with 64%nat.
  rewrite (firstn_all2 (n := 64) (skipn 64 s)) by (rewrite length_skipn; lia).
  apply firstn_skipn.
Qed.

(** A key of 128 characters, X || Y without the [04], is no key for
    [doEncrypt], [doVerifySignature] and [precomputePublicKey]: they
    throw, whatever the other arguments.  [getZ] takes such a key, and
    takes it as it is: the 64 bytes that [hexToArray] makes of the string
    are the last 64 bytes that it hashes, with no decoding of a point. *)
Theorem unprefixed_key_refused (publicKey : list ascii) :
  length publicKey = 128%nat ->
  (forall rnd msg cipherMode asn1,
     exists e, doEncrypt rnd msg (KeyHex publicKey) cipherMode asn1 = Throw e)
  /\ (forall msg signHex options,
        exists e, doVerifySignature msg signHex (KeyHex publicKey) options = Throw e)
  /\ (exists e, precomputePublicKey publicKey = Throw e)
  /\ (forall userId,
        getZ publicKey userId
        = Ok (sm3 (bytesBE 2 (8 * Z.of_nat (length (userIdBytes userId)))
                   ++ userIdBytes userId
                   ++ bytesBE 32 CURVE.a ++ bytesBE 32 CURVE.b
                   ++ bytesBE 32 CURVE.Gx ++ bytesBE 32 CURVE.Gy
                   ++ hexToArray publicKey)))
  /\ length (hexToArray publicKey) = 64%nat.
Proof.
  intros Hlen. destruct (fromHex_unprefixed publicKey Hlen) as [e He].
  split; [|split; [|split; [|split]]].
  - intros rnd msg cipherMode asn1. exists e.
    unfold doEncrypt. cbn [keyPoint]. rewrite He. reflexivity.
  - intros msg signHex options. unfold doVerifySignature.
    destruct (verifyDigest msg (KeyHex publicKey) options) as [hashHex|e1];
      [|exists e1; reflexivity].
    cbn [bind].
    destruct (parseSignature signHex (vder options)) as [[r s]|e2];
      [|exists e2; reflexivity].
    cbn [bind keyPoint]. rewrite He. exists e. reflexivity.
  - exists e. unfold precomputePublicKey. rewrite He. reflexivity.
  - intros userId. unfold getZ. rewrite Hlen. cbn [Nat.eqb bind]. f_equal. f_equal.
    unfold utf8ToHex. change (utils.bytesToHex ?l) with (bytesToHex l).
    rewrite (leftPad_number CURVE.a) by (apply constant_256_bits; reflexivity).
    rewrite (leftPad_number CURVE.b) by (apply constant_256_bits; reflexivity).
    rewrite (leftPad_number (ProjectivePoint.x ProjectivePoint.BASE))
      by (apply constant_256_bits; reflexivity).
    rewrite (leftPad_number (ProjectivePoint.y ProjectivePoint.BASE))
      by (apply constant_256_bits; reflexivity).
    change 64%nat with (2 * 32)%nat. rewrite !hexFixed_bytesBE.
    change (2 * 32)%nat with 64%nat.
    rewrite (substring_halves publicKey Hlen).
    rewrite !app_assoc, <- !bytesToHex_app.
    rewrite hexToArray_behind_bytes by (rewrite Hlen; reflexivity).
    rewrite entl_bytes, bytesToHex_length.
    unfold utils.concatBytes, userIdBytes. cbn [concat].
    rewrite app_nil_r, <- !app_assoc.
    match goal with
    | |- context [Z.of_nat (2 * length ?u) * 4] =>
        replace (Z.of_nat (2 * length u) * 4) with (8 * Z.of_nat (length u)) by lia
    end.
    reflexivity.
  - unfold hexToArray. rewrite Hlen. cbn [Nat.odd Nat.even negb].
    assert (Hpairs : forall (n : nat) (s : list ascii),
              length s = (2 * n)%nat -> length (hexPairs s) = n).
    { induction n as [|n IH]; intros s Hs.
      - destruct s; [reflexivity | discriminate].
      - destruct s as [|hi [|lo rest]]; cbn [length] in Hs; try lia.
        cbn [hexPairs length]. f_equal. apply IH. lia. }
    apply (Hpairs 64%nat). exact Hlen.
Qed.

(** ** What [doDecrypt] needs *)

(** Without ASN.1, [doDecrypt] returns, the empty result included, only
    when the private key is a scalar in [1, n-1] and the ciphertext has
    128 characters at least, the first 128 being the coordinates of a
    point of the curve; in every other case it throws. *)
Theorem decrypt_needs_point (encryptData privateKey : list ascii) (cipherMode : Z)
    (output : Output) (result : Decrypted) :
  doDecrypt encryptData privateKey cipherMode output false = Ok result ->
  (128 <= length encryptData)%nat
  /\ exists d K,
       utils.hexToNumber privateKey = Ok d
       /\ 1 <= d < CURVE.n
       /\ ProjectivePoint.fromHex (str "04" ++ firstn 128 encryptData) = Ok K
       /\ ProjectivePoint.isValidPoint K = true.
Proof.
  unfold doDecrypt, parseCipher. intros Hrun.
  destruct (utils.hexToNumber privateKey) as [d|]; [|discriminate].
  cbn [bind] in Hrun.
  change 128 with (Z.of_nat 128) in Hrun at 1.
  rewrite substring_firstn in Hrun.
  destruct (ProjectivePoint.fromHex (str "04" ++ firstn 128 encryptData))
    as [K|] eqn:HK; [|discriminate].
  cbn [bind] in Hrun.
  assert (Hmul : exists p, ProjectivePoint.multiply K d = Ok p).
  { destruct (cipherMode =? C1C2C3); cbn [bind] in Hrun;
      destruct (ProjectivePoint.multiply K d) as [p|]; try discriminate;
      exists p; reflexivity. }
  destruct Hmul as [p Hmul].
  pose proof (fromHex_prefixed_length _ _ HK) as Hlen.
  split.
  - rewrite length_firstn in Hlen. lia.
  - exists d, K. split; [reflexivity|]. split; [apply (multiply_range _ _ _ Hmul)|].
    split; [reflexivity | apply (fromHex_valid _ _ HK)].
Qed.

(** With an empty C2 the plaintext is empty.  Under the output "string"
    [doDecrypt] then returns the empty string whether the hash matches
    or not, when [arrayToUtf8] makes the empty string of no bytes: a
    success and a failure look the same.  Under the output "array" they
    do not: a success is an empty [Uint8Array], a failure the empty plain
    array. *)
Theorem empty_body_empty_result (encryptData privateKey : list ascii)
    (cipherMode : Z) (asn1 : bool) (d : Z) (c1 p : ProjPointType)
    (c2 c3 : list ascii) :
  utils.hexToNumber privateKey = Ok d ->
  parseCipher encryptData cipherMode asn1 = Ok (c1, c2, c3) ->
  ProjectivePoint.multiply c1 d = Ok p ->
  hexToArray c2 = [] ->
  let x2 := coordBytes (ProjectivePoint.x p) in
  let y2 := coordBytes (ProjectivePoint.y p) in
  (arrayToUtf8 [] = Ok [] ->
   doDecrypt encryptData privateKey cipherMode OutputString asn1 = Ok (DecString []))
  /\ doDecrypt encryptData privateKey cipherMode OutputArray asn1
     = Ok (if ascii_eqb_list (arrayToHex (sm3 (x2 ++ y2))) (toLowerCase c3)
           then DecArray [] else DecEmptyArray).
Proof.
  intros Hd Hparse Hmul Hempty x2 y2.
  assert (Hrun : forall output,
    doDecrypt encryptData privateKey cipherMode output asn1 =
    if ascii_eqb_list (arrayToHex (sm3 (x2 ++ y2))) (toLowerCase c3)
    then recovered output [] else Ok (emptyResult output)).
  { intros output.
    rewrite (doDecrypt_parsed _ _ _ output _ d c1 p c2 c3 Hd Hparse Hmul).
    cbv zeta. rewrite Hempty. fold x2 y2.
    change (xorCipherStream x2 y2 []) with (@nil byte).
    replace (utils.concatBytes [x2; []; y2]) with (x2 ++ y2)
      by (unfold utils.concatBytes; cbn [concat app]; rewrite app_nil_r; reflexivity).
    reflexivity. }
  split.
  - intros Hcodec. rewrite Hrun. cbn [recovered emptyResult]. rewrite Hcodec.
    destruct (ascii_eqb_list _ _); reflexivity.
  - rewrite Hrun. cbn [recovered emptyResult].
    destruct (ascii_eqb_list _ _); reflexivity.
Qed.

(** ** The key stream *)

Lemma xor_byte_swap (m d : byte) (key : Z) :
  0 <= key < 256 ->
  toUint8 (Z.lxor (byteToZ (toUint8 (Z.lxor (byteToZ m) (byteToZ d)))) key)
  = toUint8 (Z.lxor (byteToZ (toUint8 (Z.lxor (byteToZ m) key))) (byteToZ d)).
Proof.
  intros Hk. pose proof (byteToZ_range m) as Hm. pose proof (byteToZ_range d) as Hd.
  rewrite !byteToZ_toUint8.
  rewrite !Z.mod_small by (apply lxor_byte_range; assumption).
  rewrite !Z.lxor_assoc. f_equal. f_equal. apply Z.lxor_comm.
Qed.

Lemma xorLoop_xorBytes (x2 y2 : list byte) (msg : list byte) :
  forall delta st,
  fst (xorLoop x2 y2 st (xorBytes msg delta))
  = xorBytes (fst (xorLoop x2 y2 st msg)) delta.
Proof.
  induction msg as [|m rest IH]; intros delta st; [reflexivity|].
  destruct delta as [|d delta].
  - cbn [xorBytes xorLoop fst].
    destruct (xorLoop x2 y2 _ rest). reflexivity.
  - cbn [xorBytes xorLoop].
    set (st1 := if (offset st =? length (t st))%nat then nextT x2 y2 st else st).
    set (st2 := {| t := t st1; ct := ct st1; offset := S (offset st1) |}).
    specialize (IH delta st2).
    destruct (xorLoop x2 y2 st2 rest) as [out st3].
    destruct (xorLoop x2 y2 st2 (xorBytes rest delta)) as [out' st3'].
    cbn [fst xorBytes] in *. rewrite IH.
    rewrite xor_byte_swap by apply streamByte_range. reflexivity.
Qed.

Lemma xorBytes_zero (msg : list byte) :
  xorBytes (repeat Byte.x00 (length msg)) msg = msg.
Proof.
  induction msg as [|m rest IH]; [reflexivity|].
  cbn [length repeat xorBytes]. rewrite IH.
  change (byteToZ Byte.x00) with 0. rewrite Z.lxor_0_l, toUint8_byteToZ.
  reflexivity.
Qed.

(** [xorCipherStream] is the XOR with a pad that depends on [(x2, y2)]
    and on the length only: what it makes of a message is the message
    XORed with what it makes of as many zero bytes; and a change XORed
    into its input comes out XORed into its output, byte for byte. *)
Theorem key_stream_is_a_pad (x2 y2 msg : list byte) :
  xorCipherStream x2 y2 msg
  = xorBytes (xorCipherStream x2 y2 (repeat Byte.x00 (length msg))) msg
  /\ (forall delta,
        length delta = length msg ->
        xorCipherStream x2 y2 (xorBytes msg delta)
        = xorBytes (xorCipherStream x2 y2 msg) delta
        /\ length (xorBytes msg delta) = length msg).
Proof.
  split.
  - unfold xorCipherStream. rewrite <- xorLoop_xorBytes, xorBytes_zero.
    reflexivity.
  - intros delta Hlen. split; [apply xorLoop_xorBytes|].
    revert delta Hlen. induction msg as [|m rest IH]; intros delta Hlen.
    + reflexivity.
    + destruct delta as [|d delta]; [discriminate|].
      cbn [xorBytes length]. f_equal. apply IH. injection Hlen as Hlen. exact Hlen.
Qed.

(** ** Signatures *)

(** [doSignature] returns numbers [r] and [s] in [1, n-1], in DER or, by
    default, as 128 hexadecimal digits in lower case, 64 for each, which
    [doVerifySignature] reads back as [r] and [s]. *)
Theorem signature_format (fuel : nat) (rng : nat -> Z) (msg : Message)
    (privateKey : list ascii) (options : SignOptions) (st st' : SignerState)
    (signature : list ascii) :
  doSignature fuel rng msg privateKey options st = Ok (signature, st') ->
  exists r s,
    1 <= r < CURVE.n /\ 1 <= s < CURVE.n
    /\ (options.(der) = true -> signature = encodeDer r s)
    /\ (options.(der) = false ->
        signature = hexFixed 64 r ++ hexFixed 64 s
        /\ length signature = 128%nat
        /\ isLowerHex signature
        /\ parseSignature signature false = Ok (r, s)).
Proof.
  unfold doSignature, signCore. intros Hrun.
  destruct (signDigest msg privateKey options) as [hashHex|]; [|discriminate].
  cbn [bind] in Hrun.
  destruct (utils.hexToNumber privateKey) as [dA|]; [|discriminate].
  cbn [bind] in Hrun.
  destruct (utils.hexToNumber hashHex) as [e|]; [|discriminate].
  cbn [bind] in Hrun.
  destruct (signLoop fuel rng dA e st) as [[sg st1]|] eqn:Hloop; [|discriminate].
  cbn [bind] in Hrun. apply Ok_pair in Hrun. destruct Hrun as [Hsig _].
  destruct (signLoop_trace rng dA e fuel st sg st1 Hloop)
    as [dInv [points [point [_ [_ [_ [Hkeep Hsg]]]]]]].
  pose proof n_positive as Hn. pose proof n_below_2_256 as Hn256.
  set (r := candidateR e point) in *. set (s := candidateS dA dInv e point) in *.
  assert (Hr : 0 <= r < CURVE.n) by (apply Z.mod_pos_bound; exact Hn).
  assert (Hs : 0 <= s < CURVE.n) by (apply Z.mod_pos_bound; exact Hn).
  assert (Hr0 : r <> 0) by (intros H; apply Hkeep; left; exact H).
  assert (Hs0 : s <> 0) by (intros H; apply Hkeep; right; right; exact H).
  exists r, s. split; [lia|]. split; [lia|].
  rewrite Hsg in Hsig. unfold signatureHex in Hsig. cbn [sig_r sig_s] in Hsig.
  split; intros Hder; rewrite Hder in Hsig; [symmetry; exact Hsig|].
  assert (Hform : signature = hexFixed 64 r ++ hexFixed 64 s).
  { rewrite <- Hsig, !leftPad_number by lia. reflexivity. }
  split; [exact Hform|]. split; [|split].
  - rewrite Hform, length_app, !hexFixed_length. reflexivity.
  - rewrite Hform. apply isLowerHex_app; apply hexFixed_lowerHex.
  - rewrite <- Hsig. apply parseSignature_hex; assumption.
Qed.

(** The private key [n - 1], and any key [d] with [1 + d] a multiple of
    [n], has no signature: [1 + d] has no inverse, and [doSignature]
    returns nothing, for any message, options, pool and random
    numbers. *)
Theorem no_signature_without_inverse (fuel : nat) (rng : nat -> Z) (msg : Message)
    (privateKey : list ascii) (options : SignOptions) (st : SignerState) (d : Z) :
  utils.hexToNumber privateKey = Ok d ->
  (d + 1) mod CURVE.n = 0 ->
  forall result, doSignature fuel rng msg privateKey options st <> Ok result.
Proof.
  intros Hd Hzero [signature st'] Hrun.
  unfold doSignature, signCore in Hrun.
  destruct (signDigest msg privateKey options) as [hashHex|]; [|discriminate].
  cbn [bind] in Hrun. rewrite Hd in Hrun. cbn [bind] in Hrun.
  destruct (utils.hexToNumber hashHex) as [e|]; [|discriminate].
  cbn [bind] in Hrun.
  destruct (signLoop fuel rng d e st) as [[sg st1]|] eqn:Hloop; [|discriminate].
  destruct (signLoop_trace rng d e fuel st sg st1 Hloop) as [dInv [_ [_ [Hinv _]]]].
  destruct (invert_sound _ _ _ Hinv) as [_ Hone].
  unfold field.ORDER in Hone.
  rewrite <- Z.mul_mod_idemp_l, Hzero in Hone by (pose proof n_positive; lia).
  discriminate Hone.
Qed.

(** What [verifyEquation] accepts. *)
Lemma verifyEquation_true (r s e : Z) (PA : ProjPointType) :
  verifyEquation r s PA e = Ok true ->
  0 <= r < CURVE.n /\ 1 <= s < CURVE.n
  /\ 1 <= (r + s) mod CURVE.n
  /\ r = (e + ProjectivePoint.x
             (ProjectivePoint.add
                (ProjectivePoint.multiplyPos (Z.to_pos s) ProjectivePoint.BASE)
                (ProjectivePoint.multiplyPos (Z.to_pos ((r + s) mod CURVE.n)) PA)))
         mod CURVE.n.
Proof.
  unfold verifyEquation. rewrite !field_add_mod. unfold ZERO.
  pose proof n_positive as Hn.
  pose proof (Z.mod_pos_bound (r + s) CURVE.n Hn) as Ht.
  destruct ((r + s) mod CURVE.n =? 0) eqn:Et; [discriminate|].
  apply Z.eqb_neq in Et.
  destruct (ProjectivePoint.multiply ProjectivePoint.BASE s) as [sG|] eqn:HsG;
    [|discriminate].
  cbn [bind].
  destruct (ProjectivePoint.multiply PA ((r + s) mod CURVE.n)) as [tP|] eqn:HtP;
    [|discriminate].
  cbn [bind]. rewrite field_add_mod. intros Hacc.
  assert (Hr : (r =? (e + ProjectivePoint.x (ProjectivePoint.add sG tP)) mod CURVE.n) = true)
    by congruence.
  apply Z.eqb_eq in Hr.
  pose proof (multiply_range _ _ _ HsG) as Hs.
  rewrite (multiply_in_range _ _ Hs) in HsG.
  rewrite (multiply_in_range _ _ (multiply_range _ _ _ HtP)) in HtP.
  assert (EsG : sG = ProjectivePoint.multiplyPos (Z.to_pos s) ProjectivePoint.BASE)
    by congruence.
  assert (EtP : tP = ProjectivePoint.multiplyPos (Z.to_pos ((r + s) mod CURVE.n)) PA)
    by congruence.
  rewrite <- EsG, <- EtP.
  split; [rewrite Hr; apply Z.mod_pos_bound; exact Hn|].
  split; [exact Hs|]. split; [lia | exact Hr].
Qed.

Lemma doVerifySignature_true (msg : Message) (signHex : list ascii)
    (publicKey : PublicKey) (options : VerifyOptions) :
  doVerifySignature msg signHex publicKey options = Ok true ->
  exists hashHex r s PA e,
    verifyDigest msg publicKey options = Ok hashHex
    /\ parseSignature signHex options.(vder) = Ok (r, s)
    /\ keyPoint publicKey = Ok PA
    /\ utils.hexToNumber hashHex = Ok e
    /\ verifyEquation r s PA e = Ok true.
Proof.
  unfold doVerifySignature. intros Hrun.
  destruct (verifyDigest msg publicKey options) as [hashHex|] eqn:Hdigest;
    [|discriminate].
  cbn [bind] in Hrun.
  destruct (parseSignature signHex (vder options)) as [[r s]|] eqn:Hparse;
    [|discriminate].
  cbn [bind] in Hrun.
  destruct (keyPoint publicKey) as [PA|] eqn:Hkey; [|discriminate].
  cbn [bind] in Hrun.
  destruct (utils.hexToNumber hashHex) as [e|] eqn:He; [|discriminate].
  cbn [bind] in Hrun.
  exists hashHex, r, s, PA, e. repeat split; try reflexivity; assumption.
Qed.

(** [doVerifySignature] checks no range, and yet what it accepts is in
    range but for [r = 0]: when it returns [true], [r] is in [0, n-1],
    [s] in [1, n-1], [t = (r + s) mod n] is not 0, and
    [r = (e + x(s G + t P)) mod n]. *)
Theorem accepted_signature_ranges (msg : Message) (signHex : list ascii)
    (publicKey : PublicKey) (options : VerifyOptions) :
  doVerifySignature msg signHex publicKey options = Ok true ->
  exists hashHex r s PA e,
    verifyDigest msg publicKey options = Ok hashHex
    /\ parseSignature signHex options.(vder) = Ok (r, s)
    /\ keyPoint publicKey = Ok PA
    /\ utils.hexToNumber hashHex = Ok e
    /\ 0 <= r < CURVE.n /\ 1 <= s < CURVE.n
    /\ 1 <= (r + s) mod CURVE.n
    /\ r = (e + ProjectivePoint.x
               (ProjectivePoint.add
                  (ProjectivePoint.multiplyPos (Z.to_pos s) ProjectivePoint.BASE)
                  (ProjectivePoint.multiplyPos (Z.to_pos ((r + s) mod CURVE.n)) PA)))
           mod CURVE.n.
Proof.
  intros Hrun.
  destruct (doVerifySignature_true _ _ _ _ Hrun)
    as [hashHex [r [s [PA [e [Hdigest [Hparse [Hkey [He Heq]]]]]]]]].
  exists hashHex, r, s, PA, e.
  pose proof (verifyEquation_true r s e PA Heq) as [Hr [Hs [Ht HR]]].
  repeat split; try assumption; lia.
Qed.

(** Without DER, a signature of 64 characters or fewer is never accepted:
    its [s] is read from the empty string, as 0. *)
Theorem truncated_signature_not_accepted (msg : Message) (signHex : list ascii)
    (publicKey : PublicKey) (options : VerifyOptions) :
  options.(vder) = false ->
  (length signHex <= 64)%nat ->
  (forall r s, parseSignature signHex false = Ok (r, s) -> s = 0)
  /\ doVerifySignature msg signHex publicKey options <> Ok true.
Proof.
  intros Hder Hlen.
  assert (Hs : forall r s, parseSignature signHex false = Ok (r, s) -> s = 0).
  { intros r s. unfold parseSignature.
    change 64 with (Z.of_nat 64). rewrite substringFrom_skipn.
    rewrite skipn_all2 by exact Hlen.
    destruct (utils.hexToNumber (substring signHex 0 (Z.of_nat 64))) as [r0|];
      [|discriminate].
    cbn [bind utils.hexToNumber]. intros H. apply Ok_pair in H. symmetry. apply H. }
  split; [exact Hs|]. intros Hrun.
  destruct (doVerifySignature_true _ _ _ _ Hrun)
    as [hashHex [r [s [PA [e [_ [Hparse [_ [_ Heq]]]]]]]]].
  rewrite Hder in Hparse. pose proof (Hs r s Hparse) as Hzero.
  pose proof (verifyEquation_true r s e PA Heq) as [_ [Hrange _]]. lia.
Qed.

(** ** Keys *)

(** [getPublicKeyFromPrivateKey] returns for a private key of 64
    hexadecimal digits with a value [d] in [1, n-1] only, and what it
    returns is a key of 130 characters that [fromHex], and so [doEncrypt]
    and [doVerifySignature], decode to the point [d G]. *)
Theorem public_key_decodes (privateKey publicKey : list ascii) :
  getPublicKeyFromPrivateKey privateKey = Ok publicKey ->
  length privateKey = 64%nat
  /\ exists d P,
       utils.hexToNumber privateKey = Ok d
       /\ 1 <= d < CURVE.n
       /\ ProjectivePoint.multiply ProjectivePoint.BASE d = Ok P
       /\ length publicKey = 130%nat
       /\ keyPoint (KeyHex publicKey) = Ok P
       /\ precomputePublicKey publicKey = Ok P.
Proof.
  unfold getPublicKeyFromPrivateKey. intros Hrun.
  destruct (sm2Curve.getPublicKey privateKey false) as [raw|] eqn:Hraw; [|discriminate].
  cbn [bind] in Hrun.
  destruct (getPublicKey_inv privateKey raw Hraw)
    as [bytes [P [Hbytes [Hlen [Hmul [Hv Eraw]]]]]].
  assert (Hpub : publicKey = str "04" ++ fieldC1 P).
  { rewrite Eraw, uncompressed_hex, leftPad_long in Hrun
      by (rewrite uncompressed_hex_length; lia).
    unfold fieldC1. congruence. }
  assert (Hkey : ProjectivePoint.fromHex publicKey = Ok P)
    by (rewrite Hpub; unfold fieldC1; apply fromHex_uncompressed, Hv).
  unfold utils.hexToBytes in Hbytes.
  destruct (utils.strictPairs privateKey) as [bs|] eqn:Hpairs; [|discriminate].
  assert (bs = bytes) by congruence. subst bs.
  destruct (strictPairs_value bytes privateKey Hpairs) as [_ [Hlen2 _]].
  split; [lia|].
  exists (utils.bytesToNumberBE bytes), P.
  split.
  { apply hexToBytes_hexToNumber.
    - unfold utils.hexToBytes. rewrite Hpairs. reflexivity.
    - intros ->. discriminate Hlen. }
  split; [apply (multiply_range _ _ _ Hmul)|]. split; [exact Hmul|].
  split; [rewrite Hpub; unfold fieldC1; apply uncompressed_hex_length|].
  split; [exact Hkey|].
  unfold precomputePublicKey, sm2Curve.precompute. rewrite Hkey. cbn [bind].
  rewrite multiply_in_range by (split; [lia | reflexivity]). reflexivity.
Qed.

(** ** The pool of points *)

(** Points are popped from the end of the pool, and [getPoint] is called
    once the pool is empty only. *)
Lemma takePoints_pool (rng : nat -> Z) (count : nat) :
  forall st points st' pool,
  takePoints count rng st = Ok (points, st') ->
  pointPool st = Some pool ->
  exists pool' taken,
    pointPool st' = Some pool'
    /\ pool = pool' ++ taken
    /\ rev taken = firstn (length taken) points
    /\ (length taken <= count)%nat
    /\ rngNext st' = (rngNext st + (count - length taken))%nat
    /\ ((length taken < count)%nat -> pool' = []).
Proof.
  induction count as [|count IH]; intros st points st' pool Htake Hpool.
  - cbn [takePoints] in Htake. apply Ok_pair in Htake. destruct Htake as [<- <-].
    exists pool, []. rewrite app_nil_r. cbn [length].
    repeat split; try reflexivity; try lia. exact Hpool.
  - cbn [takePoints] in Htake. unfold takePoint in Htake. rewrite Hpool in Htake.
    destruct pool as [|q pool].
    + destruct (getPoint (rng (rngNext st))) as [point|]; [|discriminate].
      cbn [bind] in Htake.
      destruct (takePoints count rng _) as [[rest st2]|] eqn:Hrest; [|discriminate].
      cbn [bind] in Htake. apply Ok_pair in Htake. destruct Htake as [<- <-].
      destruct (IH _ rest st2 [] Hrest eq_refl) as [pool' [taken [H1 [H2 [H3 [H4 [H5 H6]]]]]]].
      symmetry in H2. apply app_eq_nil in H2. destruct H2 as [-> ->].
      exists [], []. cbn [length rngNext] in *.
      repeat split; try reflexivity; try lia. exact H1.
    + cbn [bind] in Htake.
      destruct (takePoints count rng _) as [[rest st2]|] eqn:Hrest; [|discriminate].
      cbn [bind] in Htake. apply Ok_pair in Htake. destruct Htake as [<- <-].
      destruct (IH _ rest st2 (removelast (q :: pool)) Hrest eq_refl)
        as [pool' [taken [H1 [H2 [H3 [H4 [H5 H6]]]]]]].
      exists pool', (taken ++ [last (q :: pool) {| k := 0; x1 := 0 |}]).
      cbn [rngNext] in H5.
      split; [exact H1|]. split.
      { rewrite app_assoc, <- H2. apply app_removelast_last. discriminate. }
      rewrite length_app. cbn [length].
      replace (length taken + 1)%nat with (S (length taken)) by lia.
      split; [rewrite rev_app_distr; cbn [rev app firstn]; rewrite H3; reflexivity|].
      split; [lia|]. split; [lia|]. intros Hlt. apply H6. lia.
Qed.

Lemma takePoints_no_pool (rng : nat -> Z) (count : nat) :
  forall st points st',
  takePoints count rng st = Ok (points, st') ->
  pointPool st = None ->
  pointPool st' = None /\ rngNext st' = (rngNext st + count)%nat.
Proof.
  induction count as [|count IH]; intros st points st' Htake Hpool.
  - cbn [takePoints] in Htake. apply Ok_pair in Htake. destruct Htake as [_ <-].
    split; [exact Hpool | lia].
  - cbn [takePoints] in Htake. unfold takePoint in Htake. rewrite Hpool in Htake.
    destruct (getPoint (rng (rngNext st))) as [point|]; [|discriminate].
    cbn [bind] in Htake.
    destruct (takePoints count rng _) as [[rest st2]|] eqn:Hrest; [|discriminate].
    cbn [bind] in Htake. apply Ok_pair in Htake. destruct Htake as [_ <-].
    destruct (IH _ rest st2 Hrest eq_refl) as [H1 H2].
    cbn [rngNext] in H2. split; [exact H1 | lia].
Qed.

(** [doSignature] uses the pool as a stack of points for one use each:
    it pops its points off the end of the array, one at least when there
    is one, leaves the array shorter by those, and calls the random
    generator only when the pool is empty or missing. *)
Theorem pool_is_consumed (fuel : nat) (rng : nat -> Z) (msg : Message)
    (privateKey : list ascii) (options : SignOptions) (st st' : SignerState)
    (signature : list ascii) :
  doSignature fuel rng msg privateKey options st = Ok (signature, st') ->
  (pointPool st = None ->
   pointPool st' = None /\ (rngNext st < rngNext st')%nat)
  /\ (forall pool, pointPool st = Some pool ->
      exists pool' taken,
        pointPool st' = Some pool'
        /\ pool = pool' ++ taken
        /\ (pool <> [] -> taken <> [])
        /\ (rngNext st <= rngNext st')%nat
        /\ ((rngNext st < rngNext st')%nat -> pool' = [])).
Proof.
  unfold doSignature, signCore. intros Hrun.
  destruct (signDigest msg privateKey options) as [hashHex|]; [|discriminate].
  cbn [bind] in Hrun.
  destruct (utils.hexToNumber privateKey) as [dA|]; [|discriminate].
  cbn [bind] in Hrun.
  destruct (utils.hexToNumber hashHex) as [e|]; [|discriminate].
  cbn [bind] in Hrun.
  destruct (signLoop fuel rng dA e st) as [[sg st1]|] eqn:Hloop; [|discriminate].
  cbn [bind] in Hrun. apply Ok_pair in Hrun. destruct Hrun as [_ Hst]. subst st1.
  destruct (signLoop_trace rng dA e fuel st sg st' Hloop)
    as [dInv [points [point [_ [Htake _]]]]].
  split.
  - intros Hpool.
    destruct (takePoints_no_pool rng _ st _ st' Htake Hpool) as [H1 H2].
    split; [exact H1 | lia].
  - intros pool Hpool.
    destruct (takePoints_pool rng _ st _ st' pool Htake Hpool)
      as [pool' [taken [H1 [H2 [_ [H4 [H5 H6]]]]]]].
    exists pool', taken. split; [exact H1|]. split; [exact H2|].
    split; [|split; [lia|]].
    + intros Hne Hnil. subst taken. rewrite app_nil_r in H2. subst pool'.
      apply Hne, H6. cbn [length]. lia.
    + intros Hlt. apply H6. lia.
Qed.
End SM2.

(** * The stand-in for the UTF-8 codec

    [UTF8.arrayToUtf8] gives back every string in which the surrogates
    come in pairs from the bytes that [UTF8.utf8ToBytes] makes of it. *)

Lemma below_forall (P : Z -> bool) (bound : nat) :
  forallb P (map Z.of_nat (seq 0 bound)) = true ->
  forall m, 0 <= m < Z.of_nat bound -> P m = true.
Proof.
  intros Hall m Hm. rewrite forallb_forall in Hall. apply Hall.
  apply in_map_iff. exists (Z.to_nat m). split; [lia|].
  apply in_seq. lia.
Qed.

Lemma continuation_low6 (v : Z) :
  UTF8.low6 (Some (UTF8.continuation v)) = v mod 64.
Proof.
  unfold UTF8.continuation. change 0x3F with (Z.ones 6).
  rewrite (Z.land_ones v 6) by lia. change (2 ^ 6) with 64.
  pose proof (Z.mod_pos_bound v 64 ltac:(lia)) as Hm.
  apply Z.eqb_eq.
  apply (below_forall
           (fun m => UTF8.low6 (Some (toUint8 (Z.lor 0x80 m))) =? m) 64);
    [vm_compute; reflexivity | exact Hm].
Qed.

Lemma lead_byte (base mask : Z) (bound : nat) (m : Z) :
  forallb (fun m => (byteToZ (toUint8 (Z.lor base m)) =? base + m)
                    && (Z.land (base + m) mask =? m))
          (map Z.of_nat (seq 0 bound)) = true ->
  0 <= m < Z.of_nat bound ->
  byteToZ (toUint8 (Z.lor base m)) = base + m /\ Z.land (base + m) mask = m.
Proof.
  intros Hall Hm.
  pose proof (below_forall _ bound Hall m Hm) as H.
  apply andb_prop in H. destruct H as [H1 H2].
  apply Z.eqb_eq in H1, H2. split; assumption.
Qed.

(** One sequence of [decode], for a code point up to U+10FFFF. *)
Lemma decode_point (cp : Z) (fuel : nat) (rest : list byte) :
  0 <= cp <= 0x10FFFF ->
  UTF8.decode (S fuel) (UTF8.encodePoint cp ++ rest) =
  (chars <- UTF8.fromCodePoint cp ;;
   tail <- UTF8.decode fuel rest ;;
   Ok (chars ++ tail)).
Proof.
  intros Hcp. unfold UTF8.encodePoint.
  destruct (cp <? 0x80) eqn:E1.
  { apply Z.ltb_lt in E1. cbn [app UTF8.decode].
    rewrite byteToZ_toUint8, Z.mod_small by lia.
    replace ((0xF0 <=? cp) && (cp <=? 0xF7)) with false
      by (symmetry; apply andb_false_iff; left; apply Z.leb_gt; lia).
    replace ((0xE0 <=? cp) && (cp <=? 0xEF)) with false
      by (symmetry; apply andb_false_iff; left; apply Z.leb_gt; lia).
    replace ((0xC0 <=? cp) && (cp <=? 0xDF)) with false
      by (symmetry; apply andb_false_iff; left; apply Z.leb_gt; lia).
    reflexivity. }
  apply Z.ltb_ge in E1.
  destruct (cp <? 0x800) eqn:E2.
  { apply Z.ltb_lt in E2. cbn [app UTF8.decode].
    rewrite Z.shiftr_div_pow2 by lia. change (2 ^ 6) with 64.
    assert (Hm : 0 <= cp / 64 < Z.of_nat 32)
      by (split; [apply Z.div_pos; lia | apply Z.div_lt_upper_bound; lia]).
    destruct (lead_byte 0xC0 0x1F 32 (cp / 64) ltac:(vm_compute; reflexivity) Hm)
      as [Hb Hl].
    rewrite Hb.
    replace ((0xF0 <=? 0xC0 + cp / 64) && (0xC0 + cp / 64 <=? 0xF7)) with false
      by (symmetry; apply andb_false_iff; left; apply Z.leb_gt; lia).
    replace ((0xE0 <=? 0xC0 + cp / 64) && (0xC0 + cp / 64 <=? 0xEF)) with false
      by (symmetry; apply andb_false_iff; left; apply Z.leb_gt; lia).
    replace ((0xC0 <=? 0xC0 + cp / 64) && (0xC0 + cp / 64 <=? 0xDF)) with true
      by (symmetry; apply andb_true_iff; split; apply Z.leb_le; lia).
    rewrite Hl. cbn [nth_error skipn]. rewrite continuation_low6.
    rewrite Z.shiftl_mul_pow2 by lia. change (2 ^ 6) with 64.
    replace (cp / 64 * 64 + cp mod 64) with cp
      by (pose proof (Z.div_mod cp 64 ltac:(lia)); lia).
    reflexivity. }
  apply Z.ltb_ge in E2.
  destruct (cp <? 0x10000) eqn:E3.
  { apply Z.ltb_lt in E3. cbn [app UTF8.decode].
    rewrite !Z.shiftr_div_pow2 by lia. change (2 ^ 6) with 64.
    change (2 ^ 12) with 4096.
    assert (Hm : 0 <= cp / 4096 < Z.of_nat 16)
      by (split; [apply Z.div_pos; lia | apply Z.div_lt_upper_bound; lia]).
    destruct (lead_byte 0xE0 0x0F 16 (cp / 4096) ltac:(vm_compute; reflexivity) Hm)
      as [Hb Hl].
    rewrite Hb.
    replace ((0xF0 <=? 0xE0 + cp / 4096) && (0xE0 + cp / 4096 <=? 0xF7)) with false
      by (symmetry; apply andb_false_iff; left; apply Z.leb_gt; lia).
    replace ((0xE0 <=? 0xE0 + cp / 4096) && (0xE0 + cp / 4096 <=? 0xEF)) with true
      by (symmetry; apply andb_true_iff; split; apply Z.leb_le; lia).
    rewrite Hl. cbn [nth_error skipn]. rewrite !continuation_low6.
    rewrite !Z.shiftl_mul_pow2 by lia. change (2 ^ 6) with 64.
    change (2 ^ 12) with 4096.
    replace (cp / 4096 * 4096 + cp / 64 mod 64 * 64 + cp mod 64) with cp
      by (Z.to_euclidean_division_equations; lia).
    reflexivity. }
  apply Z.ltb_ge in E3. cbn [app UTF8.decode].
  rewrite !Z.shiftr_div_pow2 by lia. change (2 ^ 6) with 64.
  change (2 ^ 12) with 4096. change (2 ^ 18) with 262144.
  assert (Hm : 0 <= cp / 262144 < Z.of_nat 8)
    by (split; [apply Z.div_pos; lia | apply Z.div_lt_upper_bound; lia]).
  destruct (lead_byte 0xF0 0x07 8 (cp / 262144) ltac:(vm_compute; reflexivity) Hm)
    as [Hb Hl].
  rewrite Hb.
  replace ((0xF0 <=? 0xF0 + cp / 262144) && (0xF0 + cp / 262144 <=? 0xF7)) with true
    by (symmetry; apply andb_true_iff; split; apply Z.leb_le; lia).
  rewrite Hl. cbn [nth_error skipn]. rewrite !continuation_low6.
  rewrite !Z.shiftl_mul_pow2 by lia. change (2 ^ 6) with 64.
  change (2 ^ 12) with 4096. change (2 ^ 18) with 262144.
  replace (cp / 262144 * 262144 + cp / 4096 mod 64 * 4096
           + cp / 64 mod 64 * 64 + cp mod 64) with cp
    by (Z.to_euclidean_division_equations; lia).
  reflexivity.
Qed.

Lemma encodePoint_length (cp : Z) : (1 <= length (UTF8.encodePoint cp) <= 4)%nat.
Proof.
  unfold UTF8.encodePoint.
  destruct (cp <? 0x80); [cbn [length]; lia|].
  destruct (cp <? 0x800); [cbn [length]; lia|].
  destruct (cp <? 0x10000); cbn [length]; lia.
Qed.

(** [String.fromCodePoint] on the code point of a pair of surrogates. *)
Lemma fromCodePoint_pair (c d : Z) :
  UTF8.isHigh c = true -> UTF8.isLow d = true ->
  UTF8.fromCodePoint (0x10000 + (c - 0xD800) * 0x400 + (d - 0xDC00)) = Ok [c; d].
Proof.
  unfold UTF8.isHigh, UTF8.isLow. intros Hc Hd.
  apply andb_prop in Hc, Hd. destruct Hc as [Hc1 Hc2]. destruct Hd as [Hd1 Hd2].
  apply Z.leb_le in Hc1, Hd1. apply Z.ltb_lt in Hc2, Hd2.
  unfold UTF8.fromCodePoint.
  replace (0x10FFFF <? _) with false by (symmetry; apply Z.ltb_ge; lia).
  replace (_ <? 0x10000) with false by (symmetry; apply Z.ltb_ge; lia).
  rewrite Z.shiftr_div_pow2 by lia. change 0x3FF with (Z.ones 10).
  rewrite Z.land_ones by lia. change (2 ^ 10) with 1024.
  f_equal. f_equal; [|f_equal]; Z.to_euclidean_division_equations; lia.
Qed.

Lemma UTF8_decode_encode (n : nat) :
  forall s fuel,
  (length s <= n)%nat ->
  UTF8.wellFormed s = true ->
  (length (UTF8.utf8ToBytes s) <= fuel)%nat ->
  UTF8.decode fuel (UTF8.utf8ToBytes s) = Ok s.
Proof.
  induction n as [|n IH]; intros s fuel Hn Hwf Hfuel.
  - destruct s; [|cbn [length] in Hn; lia]. destruct fuel; reflexivity.
  - destruct s as [|c rest]; [destruct fuel; reflexivity|].
    cbn [UTF8.utf8ToBytes UTF8.wellFormed] in *.
    destruct (UTF8.isHigh c) eqn:Ehigh.
    + destruct rest as [|d rest']; [discriminate|].
      apply andb_prop in Hwf. destruct Hwf as [Hlow Hwf]. rewrite Hlow in *.
      rewrite length_app in Hfuel.
      pose proof (encodePoint_length (0x10000 + (c - 0xD800) * 0x400 + (d - 0xDC00))).
      destruct fuel as [|fuel]; [lia|].
      rewrite decode_point.
      * rewrite (fromCodePoint_pair c d Ehigh Hlow). cbn [bind].
        rewrite (IH rest' fuel) by (cbn [length] in Hn; try assumption; lia).
        reflexivity.
      * unfold UTF8.isHigh, UTF8.isLow in Ehigh, Hlow.
        apply andb_prop in Ehigh, Hlow. destruct Ehigh as [H1 H2].
        destruct Hlow as [H3 H4].
        apply Z.leb_le in H1, H3. apply Z.ltb_lt in H2, H4. lia.
    + apply andb_prop in Hwf. destruct Hwf as [Hwf Hrest].
      apply andb_prop in Hwf. destruct Hwf as [Hwf Hlt].
      apply andb_prop in Hwf. destruct Hwf as [Hlow Hge].
      apply negb_true_iff in Hlow. rewrite Hlow in *.
      apply Z.leb_le in Hge. apply Z.ltb_lt in Hlt.
      rewrite length_app in Hfuel. pose proof (encodePoint_length c).
      destruct fuel as [|fuel]; [lia|].
      rewrite decode_point by lia.
      unfold UTF8.fromCodePoint.
      replace (0x10FFFF <? c) with false by (symmetry; apply Z.ltb_ge; lia).
      replace (c <? 0x10000) with true by (symmetry; apply Z.ltb_lt; lia).
      cbn [bind].
      rewrite (IH rest fuel) by (cbn [length] in Hn; try assumption; lia).
      reflexivity.
Qed.

(** The codec reads back every string whose surrogates come in pairs. *)
Lemma UTF8_round_trip (s : Text) :
  UTF8.wellFormed s = true -> UTF8.arrayToUtf8 (UTF8.utf8ToBytes s) = Ok s.
Proof.
  intros Hwf. unfold UTF8.arrayToUtf8.
  apply (UTF8_decode_encode (length s)); [apply le_n | exact Hwf | apply le_n].
Qed.

(** * Examples

    The model with the stand-ins for its collaborators, on the values
    above. *)

Lemma SM3_length (m : list byte) : length (SM3.sm3 m) = 32%nat.
Proof.
  unfold SM3.sm3, SM3.digest. rewrite !length_app, !bytesBE_length. reflexivity.
Qed.

(** The two examples of GB/T 32905. *)
Example sm3_abc :
  bytesToHex (SM3.sm3 [Byte.x61; Byte.x62; Byte.x63]) =
  str "66c7f0f462eeedd9d1f2d46bdc10e4e24167c4875cf2f7a2297da02b8f4ba8e0".
Proof. vm_compute. reflexivity. Qed.

Example sm3_abcd16 :
  bytesToHex (SM3.sm3 (concat (repeat [Byte.x61; Byte.x62; Byte.x63; Byte.x64] 16))) =
  str "debe9ff92275b8a138604889c18e5a4d6fdb70e5387e5765293dcba39c0c5732".
Proof. vm_compute. reflexivity. Qed.

(** The base point is on the curve. *)
Example base_point_valid :
  ProjectivePoint.isValidPoint ProjectivePoint.BASE = true.
Proof. vm_compute. reflexivity. Qed.

(** Z, e and the signature of the example of the standard. *)
Example standard_Z :
  getZ UTF8.utf8ToBytes SM3.sm3 standardPublicKey None =
  Ok (hexToArray
        (str "b2e14c5c79c6df5b85f4fe7ed8db7a262b9da7e07ccb0ea9f4747b8ccda8a4f3")).
Proof. vm_compute. reflexivity. Qed.

Example standard_e :
  signDigest UTF8.utf8ToBytes SM3.sm3 standardMessage standardPrivateKey standardOptions =
  Ok (str "f0b43e94ba45accaace692ed534382eb17e6ab5a19ce7b31f4486fdfc0d28640").
Proof. vm_compute. reflexivity. Qed.

Example standard_signature :
  doSignature UTF8.utf8ToBytes SM3.sm3 ASN1.encodeDer 2 (fun _ => 1)
    standardMessage standardPrivateKey standardOptions
    {| pointPool := Some [standardPoint]; rngNext := 0 |}
  = Ok (standardSignature, {| pointPool := Some []; rngNext := 0 |}).
Proof. vm_compute. reflexivity. Qed.

(** ** The claims on these values *)

Lemma C5_witness :
  (forall m, length (SM3.sm3 m) = 32%nat)
  /\ blocksHashed SM3.sm3 (bytesBE 32 1) (bytesBE 32 2) (repeat Byte.x61 40) = 2
  /\ xorCipherStream SM3.sm3 (bytesBE 32 1) (bytesBE 32 2)
       (xorCipherStream SM3.sm3 (bytesBE 32 1) (bytesBE 32 2) (repeat Byte.x61 40))
     = repeat Byte.x61 40.
Proof.
  split; [exact SM3_length|].
  destruct (C5_key_stream SM3.sm3 SM3_length (bytesBE 32 1) (bytesBE 32 2)
              (repeat Byte.x61 40)) as [_ [_ [_ [Hb Hi]]]].
  split; [rewrite Hb; reflexivity | exact Hi].
Defined.

Example small_public_point :
  ProjectivePoint.multiply ProjectivePoint.BASE 5 = Ok smallPublicPoint.
Proof. vm_compute. reflexivity. Qed.

Example three_G :
  ProjectivePoint.multiply ProjectivePoint.BASE 3 = Ok threeG.
Proof. vm_compute. reflexivity. Qed.

Lemma C9_witness :
  ProjectivePoint.multiply ProjectivePoint.BASE 5 = Ok smallPublicPoint
  /\ ProjectivePoint.isValidPoint smallPublicPoint = true
  /\ getPublicKeyFromPrivateKey smallPrivateKey = Ok smallPublicKey.
Proof.
  assert (Hv : ProjectivePoint.isValidPoint smallPublicPoint = true)
    by (vm_compute; reflexivity).
  split; [exact small_public_point|]. split; [exact Hv|].
  destruct (C9_public_key_hex 5 smallPublicPoint small_public_point Hv) as [H _].
  replace smallPrivateKey with (hexFixed 64 5) by (vm_compute; reflexivity).
  rewrite H. vm_compute. reflexivity.
Defined.

(** The public key of the private key 5 has 130 characters, and starts
    with [04]. *)
Lemma C9_counterexample :
  utils.hexToNumber smallPrivateKey = Ok 5
  /\ 1 <= 5 <= CURVE.n - 2
  /\ exists publicKey,
    getPublicKeyFromPrivateKey smallPrivateKey = Ok publicKey
    /\ length publicKey = 130%nat
    /\ length publicKey <> 128%nat
    /\ firstn 2 publicKey = str "04".
Proof.
  split; [vm_compute; reflexivity|].
  split; [split; [discriminate | vm_compute; discriminate]|].
  exists smallPublicKey. split; [vm_compute; reflexivity|].
  split; [reflexivity|]. split; [discriminate | reflexivity].
Qed.

(** A signature with [r = 0] is accepted, and one with [s = 0] makes
    [doVerifySignature] throw. *)
Lemma C3_counterexample :
  parseSignature ASN1.decodeDer zeroRSignature false = Ok (0, 1)
  /\ doVerifySignature UTF8.utf8ToBytes SM3.sm3 ASN1.decodeDer
       zeroRDigest zeroRSignature (KeyHex smallPublicKey) plainOptions = Ok true
  /\ parseSignature ASN1.decodeDer zeroSSignature false = Ok (1, 0)
  /\ doVerifySignature UTF8.utf8ToBytes SM3.sm3 ASN1.decodeDer
       zeroRDigest zeroSSignature (KeyHex smallPublicKey) plainOptions
     = Throw InvalidScalar.
Proof.
  split; [vm_compute; reflexivity|]. split; [vm_compute; reflexivity|].
  split; vm_compute; reflexivity.
Qed.

Lemma C3_witness :
  parseSignature ASN1.decodeDer largeRSignature false = Ok (2 ^ 256 - 1, 1)
  /\ doVerifySignature UTF8.utf8ToBytes SM3.sm3 ASN1.decodeDer
       zeroRDigest largeRSignature (KeyHex smallPublicKey) plainOptions = Ok false.
Proof.
  assert (Hparse : parseSignature ASN1.decodeDer largeRSignature (vder plainOptions)
                   = Ok (2 ^ 256 - 1, 1)) by (vm_compute; reflexivity).
  assert (Hdigest : verifyDigest UTF8.utf8ToBytes SM3.sm3 zeroRDigest
                      (KeyHex smallPublicKey) plainOptions
                    = Ok (str "f6d85049826cb7c444e836c18e0dd5ce6c0457147b65eea22730d9eefd8a33f3"))
    by (vm_compute; reflexivity).
  assert (Hkey : keyPoint (KeyHex smallPublicKey) = Ok smallPublicPoint)
    by (vm_compute; reflexivity).
  assert (He : utils.hexToNumber
                 (str "f6d85049826cb7c444e836c18e0dd5ce6c0457147b65eea22730d9eefd8a33f3")
               = Ok 0xF6D85049826CB7C444E836C18E0DD5CE6C0457147B65EEA22730D9EEFD8A33F3)
    by (vm_compute; reflexivity).
  split; [exact Hparse|].
  destruct (C3_no_range_check UTF8.utf8ToBytes SM3.sm3 ASN1.decodeDer
              zeroRDigest largeRSignature (KeyHex smallPublicKey) plainOptions
              _ _ _ _ _ Hdigest Hparse Hkey He) as [_ [H _]].
  apply H.
  - intros [_ Hlt]. vm_compute in Hlt. discriminate.
  - split; [discriminate | reflexivity].
Defined.

(** The signature [(1, 2)] of [smallDigest] with only 56 digits for [s]:
    120 characters, and accepted. *)
Lemma C10_witness :
  vder plainOptions = false
  /\ length (hexFixed 64 1 ++ hexFixed 56 2) = 120%nat
  /\ doVerifySignature UTF8.utf8ToBytes SM3.sm3 ASN1.decodeDer
       smallDigest (hexFixed 64 1 ++ hexFixed 56 2) (KeyHex smallPublicKey) plainOptions
     = Ok true.
Proof.
  split; [reflexivity|].
  destruct (C10_signature_split UTF8.utf8ToBytes SM3.sm3 ASN1.decodeDer
              smallDigest smallSignature (KeyHex smallPublicKey) plainOptions eq_refl)
    as [_ [_ [_ [H _]]]].
  destruct (H (hexFixed 64 1) 2 (hexFixed_length 64 1))
    as [Hlen Hrun]; [split; [discriminate | reflexivity]|].
  split; [exact Hlen|].
  rewrite Hrun. vm_compute. reflexivity.
Defined.

(** Z for the key of the standard and the default identity: the input of
    the hash, field by field. *)
Lemma C7_witness :
  keyHexOf standardPublicKey standardPublicPoint
  /\ ProjectivePoint.isValidPoint standardPublicPoint = true
  /\ getZ UTF8.utf8ToBytes SM3.sm3 standardPublicKey None =
     Ok (SM3.sm3
           (hexToArray
              (str ("0080" ++ "31323334353637383132333435363738"
                    ++ "fffffffeffffffffffffffffffffffffffffffff00000000fffffffffffffffc"
                    ++ "28e9fa9e9d9f5e344d5a9e4bcf6509a7f39789f515ab8f92ddbcbd414d940e93"
                    ++ "32c4ae2c1f1981195f9904466a39c9948fe30bbff2660be1715a4589334c74c7"
                    ++ "bc3736a2f4f6779c59bdcee36b692153d0a9877cc62a474002df32e52139f0a0"
                    ++ "09f9df311e5421a150dd7d161e4bc5c672179fad1833fc076bb08ff356f35020"
                    ++ "ccea490ce26775a52dc6ea718cc1aa600aed05fbf35e084a6632f6072da9ad13"))))
  /\ getHash UTF8.utf8ToBytes SM3.sm3 (AsHex (str "6d65737361676520646967657374"))
       standardPublicKey None
     = Ok (str "f0b43e94ba45accaace692ed534382eb17e6ab5a19ce7b31f4486fdfc0d28640").
Proof.
  assert (Hkey : keyHexOf standardPublicKey standardPublicPoint)
    by (left; vm_compute; reflexivity).
  assert (Hv : ProjectivePoint.isValidPoint standardPublicPoint = true)
    by (vm_compute; reflexivity).
  split; [exact Hkey|]. split; [exact Hv|].
  destruct (C7_identity_hash UTF8.utf8ToBytes SM3.sm3 standardPublicKey None
              standardPublicPoint (AsHex (str "6d65737361676520646967657374"))
              Hkey Hv) as [HZ [He _]].
  split.
  - rewrite HZ. vm_compute. reflexivity.
  - rewrite He. vm_compute. reflexivity.
Defined.

(** "hello" under the small key: 202 characters, C1 in front. *)
Lemma C8_witness :
  keyPoint (KeyHex smallPublicKey) = Ok smallPublicPoint
  /\ ProjectivePoint.multiply ProjectivePoint.BASE 3 = Ok threeG
  /\ ProjectivePoint.isValidPoint threeG = true
  /\ exists ciphertext,
       doEncrypt UTF8.utf8ToBytes SM3.sm3 ASN1.encodeEnc 3
         (MsgString (text "hello")) (KeyHex smallPublicKey) 1 false = Ok ciphertext
       /\ length ciphertext = 202%nat.
Proof.
  assert (Hkey : keyPoint (KeyHex smallPublicKey) = Ok smallPublicPoint)
    by (vm_compute; reflexivity).
  assert (Hv : ProjectivePoint.isValidPoint threeG = true) by (vm_compute; reflexivity).
  split; [exact Hkey|]. split; [exact three_G|]. split; [exact Hv|].
  destruct (C8_ciphertext_layout UTF8.utf8ToBytes SM3.sm3 ASN1.encodeEnc SM3_length
              3 (MsgString (text "hello")) (KeyHex smallPublicKey) 1
              smallPublicPoint threeG Hkey three_G Hv)
    as [ciphertext [Hrun [_ [_ [_ [_ Hlen]]]]]].
  exists ciphertext. split; [exact Hrun|].
  rewrite Hlen. vm_compute. reflexivity.
Defined.

(** [helloCiphertext], whose C3 is in upper case, decrypts to "hello". *)
Lemma C6_witness :
  parseCipher ASN1.decodeEnc helloCiphertext 1 false =
    Ok (threeG, str "ff2e2968c8",
        str "AAF7A7FE4D828446CB1004177B1943703EDF35EEAC4E917CA7D912D3CB22502C")
  /\ doDecrypt UTF8.arrayToUtf8 SM3.sm3 ASN1.decodeEnc helloCiphertext
       smallPrivateKey 1 OutputString false = Ok (DecString (text "hello")).
Proof.
  assert (Hd : utils.hexToNumber smallPrivateKey = Ok 5) by (vm_compute; reflexivity).
  assert (Hparse : parseCipher ASN1.decodeEnc helloCiphertext 1 false =
    Ok (threeG, str "ff2e2968c8",
        str "AAF7A7FE4D828446CB1004177B1943703EDF35EEAC4E917CA7D912D3CB22502C"))
    by (vm_compute; reflexivity).
  assert (Hmul : ProjectivePoint.multiply threeG 5
                 = Ok (ProjectivePoint.multiplyPos 5 threeG)) by reflexivity.
  split; [exact Hparse|].
  destruct (C6_integrity_check UTF8.arrayToUtf8 SM3.sm3 ASN1.decodeEnc
              helloCiphertext smallPrivateKey 1 false 5 threeG
              _ _ _ Hd Hparse Hmul) as [H _].
  match type of H with
  | ?matches -> _ => assert (Hsame : matches) by (vm_compute; reflexivity)
  end.
  destruct (H Hsame) as [_ [Hstring _]].
  apply Hstring. vm_compute. reflexivity.
Defined.

(** A ciphertext whose hash matches and whose plaintext, the bytes
    f7 bf bf bf, is no UTF-8: under the output "string" [doDecrypt]
    throws. *)
Lemma C6_counterexample :
  exists ciphertext,
    doEncrypt UTF8.utf8ToBytes SM3.sm3 ASN1.encodeEnc 3
      (MsgBytes [Byte.xf7; Byte.xbf; Byte.xbf; Byte.xbf])
      (KeyHex smallPublicKey) 1 false = Ok ciphertext
    /\ doDecrypt UTF8.arrayToUtf8 SM3.sm3 ASN1.decodeEnc ciphertext
         smallPrivateKey 1 OutputArray false
       = Ok (DecArray [Byte.xf7; Byte.xbf; Byte.xbf; Byte.xbf])
    /\ doDecrypt UTF8.arrayToUtf8 SM3.sm3 ASN1.decodeEnc ciphertext
         smallPrivateKey 1 OutputString false
       = Throw RangeError.
Proof.
  eexists. split; [vm_compute; reflexivity|].
  split; vm_compute; reflexivity.
Qed.



(** The signature of the standard's example, from a pool whose first
    point is dropped. *)
Lemma C4_witness :
  doSignature UTF8.utf8ToBytes SM3.sm3 ASN1.encodeDer 3 (fun _ => 1)
    standardMessage standardPrivateKey standardOptions
    {| pointPool := Some [standardPoint; rejectedPoint]; rngNext := 0 |}
  = Ok (standardSignature, {| pointPool := Some []; rngNext := 0 |})
  /\ exists dInv points point r s,
       field.inv (0x3945208F7B2144B13F36E38AC6D39F95889393692860B51A42FB81EF4DF7C5B8 + 1)
       = Ok dInv
       /\ takePoints (S (length points)) (fun _ => 1)
            {| pointPool := Some [standardPoint; rejectedPoint]; rngNext := 0 |}
          = Ok (points ++ [point], {| pointPool := Some []; rngNext := 0 |})
       /\ r <> 0 /\ s <> 0 /\ r + point.(k) <> CURVE.n
       /\ standardSignature
          = signatureHex ASN1.encodeDer standardOptions
              {| sig_k := point.(k); sig_r := r; sig_s := s |}.
Proof.
  assert (Hrun :
    doSignature UTF8.utf8ToBytes SM3.sm3 ASN1.encodeDer 3 (fun _ => 1)
      standardMessage standardPrivateKey standardOptions
      {| pointPool := Some [standardPoint; rejectedPoint]; rngNext := 0 |}
    = Ok (standardSignature, {| pointPool := Some []; rngNext := 0 |}))
    by (vm_compute; reflexivity).
  split; [exact Hrun|].
  destruct (proj1 (C4_signature_conditions UTF8.utf8ToBytes SM3.sm3 ASN1.encodeDer
                     _ _ _ _ _ _ _ _) Hrun)
    as [dA [hashHex [e [dInv [points [point [r [s
         [Hd [_ [_ [Hinv [_ [Htake [_ [_ [_ [Hr [Hs [Hrk Hsig]]]]]]]]]]]]]]]]]]]].
  assert (EdA : dA = 0x3945208F7B2144B13F36E38AC6D39F95889393692860B51A42FB81EF4DF7C5B8).
  { vm_compute in Hd. congruence. }
  rewrite EdA in Hinv.
  exists dInv, points, point, r, s. repeat split; assumption.
Defined.

(** The same signature in DER, signed and verified. *)
Example small_der_signature :
  doSignature UTF8.utf8ToBytes SM3.sm3 ASN1.encodeDer 2 (fun _ => 1)
    smallDigest smallPrivateKey derOptions
    {| pointPool := Some [smallPoint]; rngNext := 0 |}
  = Ok (smallDerSignature, {| pointPool := Some []; rngNext := 0 |})
  /\ doVerifySignature UTF8.utf8ToBytes SM3.sm3 ASN1.decodeDer
       smallDigest smallDerSignature (KeyHex smallPublicKey) (matching derOptions)
     = Ok true.
Proof. split; vm_compute; reflexivity. Qed.

(** [doVerifySignature] accepts the signature that [doSignature] returns
    for [smallDigest] under the private key 5 with the point [17 G]:
    [2 G + 3 P = 17 G]. *)
Lemma C2_witness :
  ProjectivePoint.multiply ProjectivePoint.BASE 5 = Ok smallPublicPoint
  /\ poolValid {| pointPool := Some [smallPoint]; rngNext := 0 |}
  /\ doSignature UTF8.utf8ToBytes SM3.sm3 ASN1.encodeDer 2 (fun _ => 1)
       smallDigest smallPrivateKey smallOptions
       {| pointPool := Some [smallPoint]; rngNext := 0 |}
     = Ok (smallSignature, {| pointPool := Some []; rngNext := 0 |})
  /\ groupLaw 5 smallPublicPoint 2 3
  /\ doVerifySignature UTF8.utf8ToBytes SM3.sm3 ASN1.decodeDer
       smallDigest smallSignature (KeyHex smallPublicKey) (matching smallOptions)
     = Ok true.
Proof.
  assert (Hd : utils.hexToNumber smallPrivateKey = Ok 5)
    by (vm_compute; reflexivity).
  assert (HP : ProjectivePoint.multiply ProjectivePoint.BASE 5 = Ok smallPublicPoint)
    by (vm_compute; reflexivity).
  assert (Hv : ProjectivePoint.isValidPoint smallPublicPoint = true)
    by (vm_compute; reflexivity).
  assert (Hkey : keyPoint (KeyHex smallPublicKey) = Ok smallPublicPoint)
    by (vm_compute; reflexivity).
  assert (Hopt : forall pk, smallOptions.(optPublicKey) = Some pk -> pk <> [] ->
                 keyHexOf pk smallPublicPoint).
  { intros pk E _. cbn [optPublicKey smallOptions] in E. discriminate E. }
  assert (Hpool : poolValid {| pointPool := Some [smallPoint]; rngNext := 0 |}).
  { unfold poolValid. cbn [pointPool]. constructor; [|constructor].
    exists smallEphemeral. split; vm_compute; reflexivity. }
  assert (Hrun :
    doSignature UTF8.utf8ToBytes SM3.sm3 ASN1.encodeDer 2 (fun _ => 1)
      smallDigest smallPrivateKey smallOptions
      {| pointPool := Some [smallPoint]; rngNext := 0 |}
    = Ok (smallSignature, {| pointPool := Some []; rngNext := 0 |}))
    by (vm_compute; reflexivity).
  assert (Hlaw : groupLaw 5 smallPublicPoint 2 3) by (vm_compute; reflexivity).
  split; [exact HP|]. split; [exact Hpool|]. split; [exact Hrun|].
  split; [exact Hlaw|].
  apply (C2_verify_signature UTF8.utf8ToBytes SM3.sm3 ASN1.encodeDer ASN1.decodeDer
           2 (fun _ => 1) smallDigest smallPrivateKey smallOptions
           _ _ smallSignature 5 smallPublicPoint (KeyHex smallPublicKey)
           Hd HP Hv Hkey Hopt Hpool Hrun).
  - intros E. discriminate E.
  - intros r s E.
    assert (Ers : parseSignature ASN1.decodeDer smallSignature false = Ok (1, 2))
      by (vm_compute; reflexivity).
    cbn [der smallOptions] in E. rewrite Ers in E.
    assert (Er : r = 1) by congruence.
    assert (Es : s = 2) by congruence.
    rewrite Er, Es. exact Hlaw.
Defined.

(** ** The further properties on these values *)

Lemma precomputed_key_agrees_witness :
  precomputePublicKey smallPublicKey = Ok smallPublicPoint
  /\ doVerifySignature UTF8.utf8ToBytes SM3.sm3 ASN1.decodeDer
       smallDigest smallSignature (KeyPoint smallPublicPoint) hashOptions
     = doVerifySignature UTF8.utf8ToBytes SM3.sm3 ASN1.decodeDer
         smallDigest smallSignature (KeyHex smallPublicKey) hashOptions.
Proof.
  assert (Hpre : precomputePublicKey smallPublicKey = Ok smallPublicPoint)
    by (vm_compute; reflexivity).
  split; [exact Hpre|].
  destruct (precomputed_key_agrees UTF8.utf8ToBytes SM3.sm3 ASN1.decodeDer
              ASN1.encodeEnc smallPublicKey smallPublicPoint Hpre) as [_ [_ H]].
  apply H.
Defined.

Lemma unprefixed_key_refused_witness :
  length unprefixedKey = 128%nat
  /\ (exists e, doEncrypt UTF8.utf8ToBytes SM3.sm3 ASN1.encodeEnc 3
                  (MsgString (text "hello")) (KeyHex unprefixedKey) 1 false = Throw e)
  /\ getZ UTF8.utf8ToBytes SM3.sm3 unprefixedKey None
     = getZ UTF8.utf8ToBytes SM3.sm3 smallPublicKey None.
Proof.
  destruct (unprefixed_key_refused UTF8.utf8ToBytes SM3.sm3 ASN1.decodeDer
              ASN1.encodeEnc unprefixedKey eq_refl) as [H1 [_ [_ [H4 _]]]].
  split; [reflexivity|]. split; [apply H1|].
  rewrite H4. vm_compute. reflexivity.
Defined.

Lemma decrypt_needs_point_witness :
  doDecrypt UTF8.arrayToUtf8 SM3.sm3 ASN1.decodeEnc helloCiphertext
    smallPrivateKey 1 OutputString false = Ok (DecString (text "hello"))
  /\ (128 <= length helloCiphertext)%nat.
Proof.
  assert (Hrun : doDecrypt UTF8.arrayToUtf8 SM3.sm3 ASN1.decodeEnc helloCiphertext
                   smallPrivateKey 1 OutputString false = Ok (DecString (text "hello")))
    by (vm_compute; reflexivity).
  split; [exact Hrun|].
  apply (decrypt_needs_point UTF8.arrayToUtf8 SM3.sm3 ASN1.decodeEnc _ _ _ _ _ Hrun).
Defined.

(** [emptyBodyCiphertext], whose C3 is wrong, gives the empty string, as
    a right one does. *)
Lemma empty_body_empty_result_witness :
  utils.hexToNumber smallPrivateKey = Ok 5
  /\ parseCipher ASN1.decodeEnc emptyBodyCiphertext 1 false
     = Ok (threeG, [],
           str "0000000000000000000000000000000000000000000000000000000000000000")
  /\ UTF8.arrayToUtf8 [] = Ok []
  /\ doDecrypt UTF8.arrayToUtf8 SM3.sm3 ASN1.decodeEnc emptyBodyCiphertext
       smallPrivateKey 1 OutputString false = Ok (DecString []).
Proof.
  assert (Hd : utils.hexToNumber smallPrivateKey = Ok 5) by (vm_compute; reflexivity).
  assert (Hparse : parseCipher ASN1.decodeEnc emptyBodyCiphertext 1 false
     = Ok (threeG, [],
           str "0000000000000000000000000000000000000000000000000000000000000000"))
    by (vm_compute; reflexivity).
  assert (Hmul : ProjectivePoint.multiply threeG 5
                 = Ok (ProjectivePoint.multiplyPos 5 threeG)) by reflexivity.
  split; [exact Hd|]. split; [exact Hparse|]. split; [reflexivity|].
  destruct (empty_body_empty_result UTF8.arrayToUtf8 SM3.sm3 ASN1.decodeEnc
              emptyBodyCiphertext smallPrivateKey 1 false 5 threeG _ _ _
              Hd Hparse Hmul eq_refl) as [H _].
  apply H. reflexivity.
Defined.

Lemma key_stream_is_a_pad_witness :
  length (repeat Byte.x01 40) = length (repeat Byte.x61 40)
  /\ xorCipherStream SM3.sm3 (bytesBE 32 1) (bytesBE 32 2)
       (xorBytes (repeat Byte.x61 40) (repeat Byte.x01 40))
     = xorBytes (xorCipherStream SM3.sm3 (bytesBE 32 1) (bytesBE 32 2)
                   (repeat Byte.x61 40))
         (repeat Byte.x01 40).
Proof.
  split; [reflexivity|].
  destruct (key_stream_is_a_pad SM3.sm3 (bytesBE 32 1) (bytesBE 32 2)
              (repeat Byte.x61 40)) as [_ H].
  apply (H (repeat Byte.x01 40)). reflexivity.
Defined.

Lemma signature_format_witness :
  doSignature UTF8.utf8ToBytes SM3.sm3 ASN1.encodeDer 2 (fun _ => 1)
    smallDigest smallPrivateKey smallOptions
    {| pointPool := Some [smallPoint]; rngNext := 0 |}
  = Ok (smallSignature, {| pointPool := Some []; rngNext := 0 |})
  /\ length smallSignature = 128%nat
  /\ isLowerHex smallSignature.
Proof.
  assert (Hrun :
    doSignature UTF8.utf8ToBytes SM3.sm3 ASN1.encodeDer 2 (fun _ => 1)
      smallDigest smallPrivateKey smallOptions
      {| pointPool := Some [smallPoint]; rngNext := 0 |}
    = Ok (smallSignature, {| pointPool := Some []; rngNext := 0 |}))
    by (vm_compute; reflexivity).
  split; [exact Hrun|].
  destruct (signature_format UTF8.utf8ToBytes SM3.sm3 ASN1.encodeDer ASN1.decodeDer
              _ _ _ _ _ _ _ _ Hrun) as [r [s [_ [_ [_ H]]]]].
  destruct (H eq_refl) as [_ [Hlen [Hlow _]]].
  split; [exact Hlen | exact Hlow].
Defined.

Lemma no_signature_without_inverse_witness :
  utils.hexToNumber minusOneKey = Ok (CURVE.n - 1)
  /\ (CURVE.n - 1 + 1) mod CURVE.n = 0
  /\ doSignature UTF8.utf8ToBytes SM3.sm3 ASN1.encodeDer 2 (fun _ => 1)
       smallDigest minusOneKey smallOptions
       {| pointPool := Some [smallPoint]; rngNext := 0 |}
     <> Ok (smallSignature, {| pointPool := Some []; rngNext := 0 |}).
Proof.
  assert (Hd : utils.hexToNumber minusOneKey = Ok (CURVE.n - 1))
    by (vm_compute; reflexivity).
  assert (Hzero : (CURVE.n - 1 + 1) mod CURVE.n = 0) by (vm_compute; reflexivity).
  split; [exact Hd|]. split; [exact Hzero|].
  apply (no_signature_without_inverse UTF8.utf8ToBytes SM3.sm3 ASN1.encodeDer
           2 (fun _ => 1) smallDigest minusOneKey smallOptions _ _ Hd Hzero).
Defined.

Lemma accepted_signature_ranges_witness :
  doVerifySignature UTF8.utf8ToBytes SM3.sm3 ASN1.decodeDer
    smallDigest smallSignature (KeyHex smallPublicKey) plainOptions = Ok true
  /\ exists r s,
       parseSignature ASN1.decodeDer smallSignature false = Ok (r, s)
       /\ 0 <= r < CURVE.n /\ 1 <= s < CURVE.n.
Proof.
  assert (Hrun : doVerifySignature UTF8.utf8ToBytes SM3.sm3 ASN1.decodeDer
                   smallDigest smallSignature (KeyHex smallPublicKey) plainOptions
                 = Ok true) by (vm_compute; reflexivity).
  split; [exact Hrun|].
  destruct (accepted_signature_ranges UTF8.utf8ToBytes SM3.sm3 ASN1.decodeDer
              _ _ _ _ Hrun)
    as [hashHex [r [s [PA [e [_ [Hparse [_ [_ [Hr [Hs _]]]]]]]]]]].
  exists r, s. split; [exact Hparse|]. split; [exact Hr | exact Hs].
Defined.

Lemma truncated_signature_not_accepted_witness :
  (length (hexFixed 64 1) <= 64)%nat
  /\ doVerifySignature UTF8.utf8ToBytes SM3.sm3 ASN1.decodeDer
       smallDigest (hexFixed 64 1) (KeyHex smallPublicKey) plainOptions <> Ok true.
Proof.
  assert (Hlen : (length (hexFixed 64 1) <= 64)%nat)
    by (rewrite hexFixed_length; apply le_n).
  split; [exact Hlen|].
  apply (truncated_signature_not_accepted UTF8.utf8ToBytes SM3.sm3 ASN1.decodeDer
           smallDigest (hexFixed 64 1) (KeyHex smallPublicKey) plainOptions
           eq_refl Hlen).
Defined.

Lemma public_key_decodes_witness :
  getPublicKeyFromPrivateKey smallPrivateKey = Ok smallPublicKey
  /\ length smallPrivateKey = 64%nat
  /\ exists P, keyPoint (KeyHex smallPublicKey) = Ok P
               /\ precomputePublicKey smallPublicKey = Ok P.
Proof.
  assert (Hrun : getPublicKeyFromPrivateKey smallPrivateKey = Ok smallPublicKey)
    by (vm_compute; reflexivity).
  split; [exact Hrun|].
  destruct (public_key_decodes smallPrivateKey smallPublicKey Hrun)
    as [Hlen [d [P [_ [_ [_ [_ [Hkey Hpre]]]]]]]].
  split; [exact Hlen|]. exists P. split; [exact Hkey | exact Hpre].
Defined.

(** The pool of the standard's example, with the point that the loop
    drops: both are popped. *)
Lemma pool_is_consumed_witness :
  doSignature UTF8.utf8ToBytes SM3.sm3 ASN1.encodeDer 3 (fun _ => 1)
    standardMessage standardPrivateKey standardOptions
    {| pointPool := Some [standardPoint; rejectedPoint]; rngNext := 0 |}
  = Ok (standardSignature, {| pointPool := Some []; rngNext := 0 |})
  /\ exists pool' taken,
       Some (@nil SignaturePoint) = Some pool'
       /\ [standardPoint; rejectedPoint] = pool' ++ taken
       /\ taken <> [].
Proof.
  assert (Hrun :
    doSignature UTF8.utf8ToBytes SM3.sm3 ASN1.encodeDer 3 (fun _ => 1)
      standardMessage standardPrivateKey standardOptions
      {| pointPool := Some [standardPoint; rejectedPoint]; rngNext := 0 |}
    = Ok (standardSignature, {| pointPool := Some []; rngNext := 0 |}))
    by (vm_compute; reflexivity).
  split; [exact Hrun|].
  destruct (pool_is_consumed UTF8.utf8ToBytes SM3.sm3 ASN1.encodeDer
              _ _ _ _ _ _ _ _ Hrun) as [_ H].
  destruct (H _ eq_refl) as [pool' [taken [H1 [H2 [H3 _]]]]].
  exists pool', taken. split; [exact H1|]. split; [exact H2|].
  apply H3. discriminate.
Defined.

Lemma key_strings_of_one_point_witness :
  ProjectivePoint.fromHex compressedKey = Ok smallPublicPoint
  /\ ProjectivePoint.fromHex smallPublicKey = Ok smallPublicPoint
  /\ getZ UTF8.utf8ToBytes SM3.sm3 compressedKey None
     = getZ UTF8.utf8ToBytes SM3.sm3 smallPublicKey None.
Proof.
  assert (H1 : ProjectivePoint.fromHex compressedKey = Ok smallPublicPoint)
    by (vm_compute; reflexivity).
  assert (H2 : ProjectivePoint.fromHex smallPublicKey = Ok smallPublicPoint)
    by (vm_compute; reflexivity).
  split; [exact H1|]. split; [exact H2|].
  destruct (key_strings_of_one_point UTF8.utf8ToBytes SM3.sm3 ASN1.decodeDer
              ASN1.encodeEnc compressedKey smallPublicKey smallPublicPoint H1 H2)
    as [H _].
  apply H.
Defined.
